(** * var_annot: a VCF annotation pipeline

    A shallow embedding of [var_annot.py] and the properties of its record
    normalisation pipeline: decoding the packed INFO column, expanding
    multi-allelic rows, building the CHROMOSOME-POSITION-REFERENCE-VARIANT
    key, extracting allele frequencies from the ExAC answer, merging and
    writing.

    Conventions of the embedding.
    - A Python exception is a value of [exception]; a function that can
      raise returns a [result].
    - A table cell is a Python scalar ([cell]).  A float is carried by the
      text Python prints for it (the program never computes with floats),
      so [nan] is [CFloat "nan"].
    - A pandas Series is a list of labelled cells, a DataFrame is a list of
      column labels with a list of rows.  Rows have no index labels: every
      frame of the program carries the default range index.
    - The pandas calls are modelled as pandas 1.x performs them
      ([DataFrame.append] exists up to pandas 1.5). *)

From Stdlib Require Import String Ascii List ZArith Lia Bool Arith.
From Stdlib Require Import Permutation DecimalString DecimalZ DecimalFacts.
Import ListNotations.
Local Open Scope string_scope.
Local Open Scope list_scope.

Set Implicit Arguments.

(** ** Exceptions and results *)

Inductive exception : Type :=
| KeyError (key : string)
| IndexError (msg : string)
| AttributeError (msg : string)
| TypeError (msg : string)
| ValueError (msg : string)
| RequestException (msg : string).

Inductive result (A : Type) : Type :=
| Ok (a : A)
| Err (e : exception).

Arguments Ok {A} a.
Arguments Err {A} e.

Definition bind {A B : Type} (r : result A) (k : A -> result B) : result B :=
  match r with
  | Ok a => k a
  | Err e => Err e
  end.

Notation "x <- r ;; k" := (bind r (fun x => k))
  (at level 61, r at next level, right associativity).

(** [mapM f l] runs [f] on the elements of [l] from left to right and stops
    at the first exception. *)
Fixpoint mapM {A B : Type} (f : A -> result B) (l : list A) : result (list B) :=
  match l with
  | [] => Ok []
  | a :: l' => b <- f a ;; bs <- mapM f l' ;; Ok (b :: bs)
  end.

(** ** Python strings *)

(** [split_from sep s skip acc] scans [s] from the left.  [acc] is the piece
    read so far and [skip] counts the characters of a separator occurrence
    that are still to be passed over. *)
Fixpoint split_from (sep s : string) (skip : nat) (acc : string) : list string :=
  match s with
  | EmptyString => [acc]
  | String c s' =>
      match skip with
      | S k => split_from sep s' k acc
      | O =>
          if String.prefix sep s
          then acc :: split_from sep s' (String.length sep - 1) ""
          else split_from sep s' 0 (acc ++ String c "")
      end
  end.

(** [str.split(sep)]: non-overlapping occurrences of [sep], left to right;
    an empty separator raises. *)
Definition py_split (sep s : string) : result (list string) :=
  match sep with
  | EmptyString => Err (ValueError "empty separator")
  | _ => Ok (split_from sep s 0 "")
  end.

(** [sep.join(l)] *)
Definition py_join (sep : string) (l : list string) : string :=
  String.concat sep l.

(** [sep in s] *)
Fixpoint occurs (sep s : string) : bool :=
  String.prefix sep s ||
  match s with
  | EmptyString => false
  | String _ s' => occurs sep s'
  end.

(** ** Cells *)

Inductive cell : Type :=
| CNone
| CBool (b : bool)
| CInt (z : Z)
| CFloat (repr : string)
| CStr (s : string).

Definition nan : cell := CFloat "nan".

(** [str(x)] *)
Definition py_str (x : cell) : string :=
  match x with
  | CNone => "None"
  | CBool true => "True"
  | CBool false => "False"
  | CInt z => NilZero.string_of_int (Z.to_int z)
  | CFloat repr => repr
  | CStr s => s
  end.

(** [x.split(sep)] for a cell [x]: only strings have the method. *)
Definition cell_split (sep : string) (x : cell) : result (list string) :=
  match x with
  | CStr s => py_split sep s
  | _ => Err (AttributeError "object has no attribute 'split'")
  end.

(** [l[i]] on a Python list, for a non-negative [i]. *)
Definition py_index {A : Type} (l : list A) (i : nat) : result A :=
  match nth_error l i with
  | Some a => Ok a
  | None => Err (IndexError "list index out of range")
  end.

(** ** Python control flow and containers *)

(** A [for] loop whose body updates a state and may raise. *)
Fixpoint foldM {A S : Type} (body : S -> A -> result S) (l : list A) (s : S) : result S :=
  match l with
  | [] => Ok s
  | a :: l' => s' <- body s a ;; foldM body l' s'
  end.

(** [enumerate(l)] *)
Definition enumerate {A : Type} (l : list A) : list (nat * A) :=
  combine (seq 0 (length l)) l.

(** [zip] applied to the unpacked list [ls]: the tuples of the i-th
    elements, as long as every list has one; no list at all gives no tuple. *)
Fixpoint zip_star {A : Type} (ls : list (list A)) : list (list A) :=
  match ls with
  | [] => []
  | l :: ls' =>
      match ls' with
      | [] => map (fun x => [x]) l
      | _ :: _ => map (fun p => fst p :: snd p) (combine l (zip_star ls'))
      end
  end.

(** A [dict] with string keys, in insertion order. *)
Definition dict (V : Type) : Type := list (string * V).

(** [d[k] = v]: an existing key keeps its place. *)
Fixpoint dict_set {V : Type} (d : dict V) (k : string) (v : V) : dict V :=
  match d with
  | [] => [(k, v)]
  | (k', v') :: d' =>
      if k' =? k then (k', v) :: d' else (k', v') :: dict_set d' k v
  end.

Definition dict_keys {V : Type} (d : dict V) : list string := map fst d.
Definition dict_values {V : Type} (d : dict V) : list V := map snd d.

(** [d[k]] *)
Definition dict_get {V : Type} (d : dict V) (k : string) : result V :=
  match find (fun p => fst p =? k) d with
  | Some p => Ok (snd p)
  | None => Err (KeyError k)
  end.

(** ** Series and DataFrames *)

Section Frames.

Variable A : Type.

(** One row of a frame: its cells with their column labels. *)
Definition Series : Type := list (string * A).

Record DataFrame : Type := mkDataFrame {
  columns : list string;
  rows : list Series
}.

Definition labels (s : Series) : list string := map fst s.

(** Every row carries the labels of the frame. *)
Definition wf_frame (df : DataFrame) : Prop :=
  Forall (fun r => labels r = columns df) (rows df).

(** [s[label]] *)
Definition loc (s : Series) (label : string) : result A :=
  match find (fun p => fst p =? label) s with
  | Some p => Ok (snd p)
  | None => Err (KeyError label)
  end.

(** [s[label] = v]: assignment to a new label enlarges the Series. *)
Fixpoint set_item (s : Series) (label : string) (v : A) : Series :=
  match s with
  | [] => [(label, v)]
  | (l, x) :: s' =>
      if l =? label then (l, v) :: s' else (l, x) :: set_item s' label v
  end.

(** Selection by a list of labels: for each requested label, in the
    order requested, everything that carries it. *)
Definition pick {B : Type} (lab : B -> string) (xs : list B) (ls : list string)
  : result (list B) :=
  parts <- mapM (fun l =>
             match filter (fun x => lab x =? l) xs with
             | [] => Err (KeyError l)
             | x :: xs' => Ok (x :: xs')
             end) ls ;;
  Ok (concat parts).

(** [df[[l1, ..., ln]]] *)
Definition getitem_list (df : DataFrame) (ls : list string) : result DataFrame :=
  cols <- pick (fun c => c) (columns df) ls ;;
  rs <- mapM (fun r => pick fst r ls) (rows df) ;;
  Ok (mkDataFrame cols rs).

(** [df[label]] *)
Definition getitem (df : DataFrame) (label : string) : result (list A) :=
  if existsb (String.eqb label) (columns df)
  then mapM (fun r => loc r label) (rows df)
  else Err (KeyError label).

(** [df[label] = values], [values] aligned with the rows of [df]. *)
Definition setitem (df : DataFrame) (label : string) (values : list A) : DataFrame :=
  mkDataFrame
    (if existsb (String.eqb label) (columns df)
     then columns df else columns df ++ [label])
    (map (fun rv => set_item (fst rv) label (snd rv)) (combine (rows df) values)).

(** [df.drop(ls, axis=1)] *)
Definition drop (df : DataFrame) (ls : list string) : result DataFrame :=
  _ <- mapM (fun l =>
         if existsb (String.eqb l) (columns df) then Ok tt else Err (KeyError l)) ls ;;
  let keep (c : string) := negb (existsb (String.eqb c) ls) in
  Ok (mkDataFrame (filter keep (columns df))
                  (map (filter (fun p => keep (fst p))) (rows df))).

(** The rows of [df.join(other)] when both frames carry the range index:
    a left row takes the right row of the same position, or missing
    values when there is none. *)
Fixpoint join_rows (fill : A) (other_columns : list string) (l r : list Series)
  : list Series :=
  match l with
  | [] => []
  | x :: l' =>
      match r with
      | [] => (x ++ map (fun c => (c, fill)) other_columns)
                :: join_rows fill other_columns l' []
      | y :: r' => (x ++ y) :: join_rows fill other_columns l' r'
      end
  end.

(** [df.join(other)] *)
Definition join (fill : A) (df other : DataFrame) : result DataFrame :=
  if existsb (fun c => existsb (String.eqb c) (columns other)) (columns df)
  then Err (ValueError "columns overlap but no suffix specified")
  else Ok (mkDataFrame (columns df ++ columns other)
                       (join_rows fill (columns other) (rows df) (rows other))).

(** [s.reindex(ls)] *)
Definition reindex (fill : A) (s : Series) (ls : list string) : Series :=
  map (fun l => (l, match find (fun p => fst p =? l) s with
                    | Some p => snd p
                    | None => fill
                    end)) ls.

End Frames.

Arguments mkDataFrame {A} columns rows.

(** [sorted(ls)] on labels, by code point. *)
Fixpoint insert_sorted (x : string) (ls : list string) : list string :=
  match ls with
  | [] => [x]
  | y :: ls' => if String.leb x y then x :: y :: ls' else y :: insert_sorted x ls'
  end.

Definition sorted (ls : list string) : list string :=
  fold_right insert_sorted [] ls.

(** [Index(ls).difference(cs)]: the labels of [ls] that are not in [cs],
    without repetition, sorted. *)
Definition index_difference (ls cs : list string) : list string :=
  sorted (nodup string_dec
            (filter (fun l => negb (existsb (String.eqb l) cs)) ls)).

(** [df.append(other)] for a Series [other]: the columns of [df], then the
    new labels of [other]; both sides are re-indexed on them. *)
Definition append (df : DataFrame cell) (other : Series cell) : DataFrame cell :=
  let idx_diff := index_difference (labels other) (columns df) in
  let combined_columns := columns df ++ idx_diff in
  mkDataFrame combined_columns
    (map (fun r => reindex nan r combined_columns) (rows df)
       ++ [reindex nan other combined_columns]).

(** [s.apply(str)] *)
Definition apply_str (s : Series cell) : Series cell :=
  map (fun p => (fst p, CStr (py_str (snd p)))) s.

(** [df.iloc[i]] *)
Definition iloc {A : Type} (df : DataFrame A) (i : nat) : result (Series A) :=
  match nth_error (rows df) i with
  | Some r => Ok r
  | None => Err (IndexError "single positional indexer is out-of-bounds")
  end.

(** [df.columns = header]: the cells keep their positions. *)
Definition set_columns {A : Type} (df : DataFrame A) (header : list string)
  : result (DataFrame A) :=
  if Nat.eqb (length header) (length (columns df))
  then Ok (mkDataFrame header (map (fun r => combine header (map snd r)) (rows df)))
  else Err (ValueError "Length mismatch").

(** [df.applymap(f)]: pandas applies [f] column by column, so the first
    cell on which [f] raises is the first one in that order. *)
Definition applymap {A : Type} (f : A -> result A) (df : DataFrame A)
  : result (DataFrame A) :=
  match columns df with
  | [] => Ok df
  | _ :: _ =>
      cols <- mapM (mapM f) (zip_star (map (map snd) (rows df))) ;;
      Ok (mkDataFrame (columns df) (map (combine (columns df)) (zip_star cols)))
  end.

(** *** [Series.str.split(pat, expand=True)] *)

(** The pieces of one cell; only a string is split. *)
Definition str_split (pat : ascii) (x : cell) : option (list string) :=
  match x with
  | CStr s => Some (split_from (String pat "") s 0 "")
  | _ => None
  end.

Definition width (parts : list (option (list string))) : nat :=
  fold_right (fun p n => match p with
                         | Some l => Nat.max (length l) n
                         | None => n
                         end) 0 parts.

(** Cell [j] of an expanded row: a piece, [None] past the last piece, and
    a missing value all along the row of a cell that was not a string. *)
Definition expanded_cell (p : option (list string)) (j : nat) : cell :=
  match p with
  | Some l => match nth_error l j with
              | Some s => CStr s
              | None => CNone
              end
  | None => nan
  end.

(** pandas numbers the new columns 0, 1, ...; they stand here under the
    decimal text of their number. *)
Definition position_label (j : nat) : string :=
  NilZero.string_of_uint (Nat.to_uint j).

Definition has_str (column : list cell) : bool :=
  existsb (fun x => match x with CStr _ => true | _ => false end) column.

Definition str_split_expand (pat : ascii) (column : list cell)
  : result (DataFrame cell) :=
  match column with
  | _ :: _ =>
      if has_str column then
        let parts := map (str_split pat) column in
        let js := seq 0 (width parts) in
        let cols := map position_label js in
        Ok (mkDataFrame cols
              (map (fun p => combine cols (map (expanded_cell p) js)) parts))
      else Err (AttributeError "Can only use .str accessor with string values")
  | [] => Ok (mkDataFrame [] [])
  end.

(** ** The program *)

(** [convert_col_to_df(df, col, key_value_sep, elem_sep)].  pandas reads a
    pattern of one character literally and a longer one as a regular
    expression; the element separator is one character here, as in the
    program's only call. *)
Definition convert_col_to_df (df : DataFrame cell) (col : string)
  (key_value_sep : string) (elem_sep : ascii) : result (DataFrame cell) :=
  column <- getitem df col ;;
  df <- str_split_expand elem_sep column ;;
  key_values <- iloc df 0 ;;
  header <- mapM (fun item => parts <- cell_split key_value_sep item ;;
                              py_index parts 0) (map snd key_values) ;;
  df <- set_columns df header ;;
  applymap (fun x => parts <- cell_split key_value_sep x ;;
                     item <- py_index parts 1 ;;
                     Ok (CStr item)) df.

(** The body of the loop over the rows in [expand_df]: [row] is the
    Series handed out by [iterrows], [new_df] the table built so far.
    [row] is updated in place from one tuple to the next. *)
Definition expand_row (columns : list string) (sep : string)
  (new_df : DataFrame cell) (row : Series cell) : result (DataFrame cell) :=
  columns_dict <-
    foldM (fun (d : dict (list string)) column =>
             x <- loc row column ;;
             parts <- cell_split sep x ;;
             Ok (dict_set d column parts)) columns [] ;;
  let zipped := zip_star (dict_values columns_dict) in
  st <-
    foldM (fun (st : Series cell * DataFrame cell) item =>
             row <- foldM (fun (row : Series cell) (cc : nat * string) =>
                             v <- py_index item (fst cc) ;;
                             Ok (set_item row (snd cc) (CStr v)))
                          (enumerate (dict_keys columns_dict)) (fst st) ;;
             Ok (row, append (snd st) (apply_str row)))
          zipped (row, new_df) ;;
  Ok (snd st).

(** [expand_df(df, columns, sep)] *)
Definition expand_df (df : DataFrame cell) (columns : list string) (sep : string)
  : result (DataFrame cell) :=
  foldM (expand_row columns sep) (rows df) (mkDataFrame columns []).

(** [x + y] on two cells of object columns, [y] a string: pandas leaves a
    missing value missing and adds the others as Python does. *)
Definition add_str (x : cell) (y : string) : result cell :=
  match x with
  | CStr s => Ok (CStr (s ++ y))
  | CNone => Ok nan
  | CFloat "nan" => Ok nan
  | _ => Err (TypeError "unsupported operand type(s) for +")
  end.

(** [build_cprv_col(df, chromosome, position, reference, variant)] *)
Definition build_cprv_col (df : DataFrame cell)
  (chromosome position reference variant : string) : result (DataFrame cell) :=
  first <- getitem df chromosome ;;
  let df := setitem df "CPRV" first in
  foldM (fun df column =>
           cprv <- getitem df "CPRV" ;;
           values <- getitem df column ;;
           sums <- mapM (fun xy => add_str (fst xy) ("-" ++ py_str (snd xy)))
                        (combine cprv values) ;;
           Ok (setitem df "CPRV" sums))
        [position; reference; variant] df.

(** [subset_vcf(df)] *)
Definition subset_vcf (df : DataFrame cell) : result (DataFrame cell) :=
  info <- convert_col_to_df df "INFO" "=" ";"%char ;;
  info <- getitem_list info ["DP"; "AO"; "AF"; "TYPE"] ;;
  df <- getitem_list df ["#CHROM"; "POS"; "REF"; "ALT"] ;;
  df <- join nan df info ;;
  expand_df df ["TYPE"; "ALT"; "AF"] ",".

(** *** The answer of the ExAC service *)

(** A value of Python as [json] builds it: a scalar, a list or a [dict]
    with string keys. *)
#[warnings="-register-all"]
Inductive pyobj : Type :=
| PScalar (c : cell)
| PList (l : list pyobj)
| PDict (d : list (string * pyobj)).

(** [item['allele_freq']] *)
Definition subscript (item : pyobj) (key : string) : result pyobj :=
  match item with
  | PDict d => dict_get d key
  | PList _ => Err (TypeError "list indices must be integers or slices, not str")
  | PScalar (CStr _) => Err (TypeError "string indices must be integers")
  | PScalar _ => Err (TypeError "object is not subscriptable")
  end.

(** [get_allele_freqs(json_response)]: only a [KeyError] is caught. *)
Definition get_allele_freqs (json_response : pyobj) : result (list pyobj) :=
  match json_response with
  | PDict d =>
      foldM (fun allele_freqs item =>
               match subscript item "allele_freq" with
               | Ok allele_freq => Ok (allele_freqs ++ [allele_freq])
               | Err (KeyError _) => Ok (allele_freqs ++ [PScalar nan])
               | Err e => Err e
               end) (dict_values d) []
  | _ => Err (AttributeError "object has no attribute 'values'")
  end.

(** [get_cprv(json_response)]: iterating a [dict] gives its keys. *)
Definition get_cprv (json_response : pyobj) : result (list pyobj) :=
  match json_response with
  | PDict d => Ok (map (fun k => PScalar (CStr k)) (dict_keys d))
  | PList l => Ok l
  | PScalar (CStr s) =>
      Ok (map (fun c => PScalar (CStr (String c ""))) (list_ascii_of_string s))
  | PScalar _ => Err (TypeError "object is not iterable")
  end.

(** [pd.DataFrame({l1: values1, l2: values2})] *)
Definition frame_of_lists {A : Type} (l1 : string) (values1 : list A)
  (l2 : string) (values2 : list A) : result (DataFrame A) :=
  if Nat.eqb (length values1) (length values2)
  then Ok (mkDataFrame [l1; l2]
             (map (fun p => [(l1, fst p); (l2, snd p)]) (combine values1 values2)))
  else Err (ValueError "arrays must all be same length").

(** *** [DataFrame.merge] *)

Definition cell_eqb (a b : cell) : bool :=
  match a, b with
  | CNone, CNone => true
  | CBool x, CBool y => Bool.eqb x y
  | CInt x, CInt y => Z.eqb x y
  | CFloat x, CFloat y => String.eqb x y
  | CStr x, CStr y => String.eqb x y
  | _, _ => false
  end.

(** Two key cells fall in one group: scalars of the same type and value. *)
Definition key_eqb (a b : pyobj) : bool :=
  match a, b with
  | PScalar x, PScalar y => cell_eqb x y
  | _, _ => false
  end.

(** The values of [l] once each, in the order of their first appearance. *)
Fixpoint unique (l : list pyobj) : list pyobj :=
  match l with
  | [] => []
  | x :: l' => x :: filter (fun y => negb (key_eqb x y)) (unique l')
  end.

(** The label of a column in the merged frame: a label that both sides
    carry, other than the key, takes the suffix of its side. *)
Definition suffixed (on suffix : string) (others : list string) (c : string) : string :=
  if negb (c =? on) && existsb (String.eqb c) others then c ++ suffix else c.

(** [left.merge(right, on=on)], an inner join.  pandas up to 2.1 gathers
    the result key by key, the keys in the order of their first appearance
    on the left; under one key the left rows keep their order and each one
    meets the right rows of that key in their order. *)
Definition merge (left right : DataFrame pyobj) (on : string)
  : result (DataFrame pyobj) :=
  lkeys <- getitem left on ;;
  rkeys <- getitem right on ;;
  let lname := suffixed on "_x" (columns right) in
  let rname := suffixed on "_y" (columns left) in
  let lrow (l : Series pyobj) := map (fun p => (lname (fst p), snd p)) l in
  let rrow (r : Series pyobj) :=
    map (fun p => (rname (fst p), snd p))
        (filter (fun p => negb (fst p =? on)) r) in
  let matching (k : pyobj) (keys : list pyobj) (rs : list (Series pyobj)) :=
    map snd (filter (fun kr => key_eqb k (fst kr)) (combine keys rs)) in
  Ok (mkDataFrame
        (map lname (columns left)
           ++ map rname (filter (fun c => negb (c =? on)) (columns right)))
        (flat_map (fun k =>
           flat_map (fun l =>
             map (fun r => lrow l ++ rrow r) (matching k rkeys (rows right)))
             (matching k lkeys (rows left)))
           (unique lkeys))).

(** The cells of a frame as Python objects. *)
Definition objects (df : DataFrame cell) : DataFrame pyobj :=
  mkDataFrame (columns df)
    (map (map (fun p => (fst p, PScalar (snd p)))) (rows df)).

(** [call_exac_server(df)].  The service is the function [exac] from the
    posted list of keys to the parsed answer, or to the exception raised by
    the request or by the parser. *)
Definition call_exac_server (exac : list cell -> result pyobj)
  (df : DataFrame cell) : result pyobj :=
  endpoint_column <- getitem df "CPRV" ;;
  exac endpoint_column.

(** [get_exac_data(df)] *)
Definition get_exac_data (exac : list cell -> result pyobj)
  (df : DataFrame cell) : result (DataFrame pyobj) :=
  df <- build_cprv_col df "#CHROM" "POS" "REF" "ALT" ;;
  json_response <- call_exac_server exac df ;;
  allele_freqs <- get_allele_freqs json_response ;;
  cprv <- get_cprv json_response ;;
  response_df <- frame_of_lists "ALLELE_FREQUENCY(ExAC)" allele_freqs "CPRV" cprv ;;
  df <- merge (objects df) response_df "CPRV" ;;
  drop df ["CPRV"].

(** What [to_csv] is asked to write. *)
Record csv_file : Type := mkCsv {
  path : string;
  delimiter : string;
  table : DataFrame pyobj
}.

Definition tab : string := String (ascii_of_nat 9) "".

(** [write_output(file_name, df)] *)
Definition write_output (file_name : string) (df : DataFrame pyobj)
  : result csv_file :=
  let prefix := "./output" in
  let filename_with_extension := (file_name ++ "_annotated.vcf")%string in
  let write_path := py_join "/" [prefix; filename_with_extension] in
  df <- getitem_list df ["#CHROM"; "POS"; "REF"; "ALT"; "TYPE"; "DP"; "AO"; "AF";
                         "ALLELE_FREQUENCY(ExAC)"] ;;
  Ok (mkCsv write_path tab df).

(** [run], from the table that [read_csv] returns and the base name of
    the input file. *)
Definition run (exac : list cell -> result pyobj) (file_name : string)
  (df : DataFrame cell) : result csv_file :=
  df <- subset_vcf df ;;
  df <- get_exac_data exac df ;;
  write_output file_name df.

(** *** The scenario of the specification *)

Definition scenario : DataFrame cell :=
  mkDataFrame ["#CHROM"; "POS"; "REF"; "ALT"; "INFO"]
    [[("#CHROM", CInt 1); ("POS", CInt 100); ("REF", CStr "A"); ("ALT", CStr "T,G");
      ("INFO", CStr "DP=50;AO=20,5;AF=0.4,0.1;TYPE=snp,snp")]].

Definition scenario_exac (keys : list cell) : result pyobj :=
  Ok (PDict [("1-100-A-T", PDict [("allele_freq", PScalar (CFloat "0.25"))]);
             ("1-100-A-G", PDict [("variant", PDict [])])]).

(** ** Definitions used to state the properties *)

(** The length of the shortest list of [ls]. *)
Fixpoint shortest {A : Type} (ls : list (list A)) : nat :=
  match ls with
  | [] => 0
  | l :: ls' =>
      match ls' with
      | [] => length l
      | _ :: _ => Nat.min (length l) (shortest ls')
      end
  end.

(** The cell of [r] under [c], [None] when there is none. *)
Definition value (r : Series cell) (c : string) : cell :=
  match loc r c with
  | Ok v => v
  | Err _ => CNone
  end.

(** The pieces of the cell of [r] under [c]. *)
Definition pieces (sep : string) (r : Series cell) (c : string) : list string :=
  match cell_split sep (value r c) with
  | Ok l => l
  | Err _ => []
  end.

Definition mem (c : string) (cs : list string) : bool :=
  existsb (String.eqb c) cs.

(** [r] with the cell of every label of [cs] replaced by [g]. *)
Definition upd (cs : list string) (g : string -> cell) (r : Series cell) : Series cell :=
  map (fun p => (fst p, if mem (fst p) cs then g (fst p) else snd p)) r.

(** The columns of the table that [expand_df] builds from rows labelled
    [ls]: the expandable columns first, then the others, sorted. *)
Definition expanded_columns (cols ls : list string) : list string :=
  cols ++ index_difference ls cols.

(** Row [i] of the expansion of [r], in the words of the specification: the
    [i]-th piece under an expandable column, the text of the cell of [r]
    under any other column. *)
Definition expanded_row (out_columns cols : list string) (sep : string)
  (r : Series cell) (i : nat) : Series cell :=
  map (fun c => (c, CStr (if mem c cols
                          then nth i (pieces sep r c) ""
                          else py_str (value r c)))) out_columns.

(** The table under construction in [expand_df] once the rows [emitted]
    have been appended. *)
Definition frame_of (cols out_columns : list string) (emitted : list (Series cell))
  : DataFrame cell :=
  mkDataFrame (match emitted with [] => cols | _ :: _ => out_columns end) emitted.

(** The expandable cells of [r] are strings. *)
Definition splittable (cols : list string) (r : Series cell) : Prop :=
  forall c, In c cols -> exists s, loc r c = Ok (CStr s).

(** The row [r] with every cell turned into its text, under the columns
    [out_columns]. *)
Definition stringified (out_columns : list string) (r : Series cell) : Series cell :=
  map (fun c => (c, CStr (py_str (value r c)))) out_columns.

(** The table that [subset_vcf] hands to [expand_df] on the scenario. *)
Definition scenario_joined : DataFrame cell :=
  mkDataFrame ["#CHROM"; "POS"; "REF"; "ALT"; "DP"; "AO"; "AF"; "TYPE"]
    [[("#CHROM", CInt 1); ("POS", CInt 100); ("REF", CStr "A"); ("ALT", CStr "T,G");
      ("DP", CStr "50"); ("AO", CStr "20,5"); ("AF", CStr "0.4,0.1");
      ("TYPE", CStr "snp,snp")]].

(** A row whose expandable cells disagree on the number of values. *)
Definition mismatched_row : Series cell :=
  [("TYPE", CStr "snp,snp"); ("ALT", CStr "T"); ("AF", CStr "0.4,0.1")].

Definition mismatched : DataFrame cell :=
  mkDataFrame ["TYPE"; "ALT"; "AF"] [mismatched_row].

(** A row without any multiple value. *)
Definition single_valued : DataFrame cell :=
  mkDataFrame ["#CHROM"; "POS"; "ALT"; "AF"; "TYPE"]
    [[("#CHROM", CInt 7); ("POS", CInt 42); ("ALT", CStr "C"); ("AF", CStr "0.5");
      ("TYPE", CStr "snp")]].

(** The columns of the annotated file. *)
Definition output_columns : list string :=
  ["#CHROM"; "POS"; "REF"; "ALT"; "TYPE"; "DP"; "AO"; "AF"; "ALLELE_FREQUENCY(ExAC)"].

(** A merged table whose columns stand in another order, with one more. *)
Definition shuffled : DataFrame pyobj :=
  mkDataFrame ["ALLELE_FREQUENCY(ExAC)"; "AF"; "AO"; "DP"; "TYPE"; "QUAL"; "ALT"; "REF";
               "POS"; "#CHROM"]
    [[("ALLELE_FREQUENCY(ExAC)", PScalar nan); ("AF", PScalar (CStr "0.4"));
      ("AO", PScalar (CStr "20")); ("DP", PScalar (CStr "50"));
      ("TYPE", PScalar (CStr "snp")); ("QUAL", PScalar (CStr "9"));
      ("ALT", PScalar (CStr "T")); ("REF", PScalar (CStr "A"));
      ("POS", PScalar (CStr "100")); ("#CHROM", PScalar (CStr "1"))]].

(** The answer of the service in [scenario_exac], as a [dict]. *)
Definition scenario_answer : list (string * pyobj) :=
  [("1-100-A-T", PDict [("allele_freq", PScalar (CFloat "0.25"))]);
   ("1-100-A-G", PDict [("variant", PDict [])])].

(** The text of a key. *)
Definition cprv_text (chromosome position reference variant : string) : string :=
  chromosome ++ "-" ++ position ++ "-" ++ reference ++ "-" ++ variant.

(** The key of the row [r], read off its four cells. *)
Definition cprv_of (chromosome position reference variant : string)
  (r : Series cell) : string :=
  cprv_text (py_str (value r chromosome)) (py_str (value r position))
            (py_str (value r reference)) (py_str (value r variant)).

Definition is_digit (c : ascii) : bool :=
  Nat.leb 48 (nat_of_ascii c) && Nat.leb (nat_of_ascii c) 57.

(** The decimal text of a natural number: digits only, and no zero in
    front unless the text is 0. *)
Definition canonical_nat_text (s : string) : bool :=
  match s with
  | EmptyString => false
  | String c s' =>
      is_digit c && forallb is_digit (list_ascii_of_string s') &&
      (negb (Ascii.eqb c "0") || String.eqb s' "")
  end.

(** The decimal text of an integer: a sign only in front of a positive
    number. *)
Definition canonical_int_text (s : string) : bool :=
  match s with
  | String c s' =>
      if Ascii.eqb c "-"
      then canonical_nat_text s' && negb (String.eqb s' "0")
      else canonical_nat_text s
  | EmptyString => false
  end.

(** An expanded table of two rows that differ outside the key columns. *)
Definition expanded : DataFrame cell :=
  mkDataFrame ["#CHROM"; "POS"; "REF"; "ALT"; "AO"]
    [[("#CHROM", CStr "1"); ("POS", CStr "100"); ("REF", CStr "A"); ("ALT", CStr "T");
      ("AO", CStr "20")];
     [("#CHROM", CStr "1"); ("POS", CStr "100"); ("REF", CStr "A"); ("ALT", CStr "G");
      ("AO", CStr "5")]].

(** An expanded table whose position is a text with a zero in front. *)
Definition padded_position : DataFrame cell :=
  mkDataFrame ["#CHROM"; "POS"; "REF"; "ALT"]
    [[("#CHROM", CStr "1"); ("POS", CStr "0100"); ("REF", CStr "A"); ("ALT", CStr "T")]].

(** A table whose position is the float 100.0. *)
Definition float_position : DataFrame cell :=
  mkDataFrame ["#CHROM"; "POS"; "REF"; "ALT"]
    [[("#CHROM", CStr "1"); ("POS", CFloat "100.0"); ("REF", CStr "A");
      ("ALT", CStr "T")]].

(** A table as [read_csv] returns it when it types the POS column as
    float. *)
Definition float_scenario : DataFrame cell :=
  mkDataFrame ["#CHROM"; "POS"; "REF"; "ALT"; "INFO"]
    [[("#CHROM", CStr "chr1"); ("POS", CFloat "100.0"); ("REF", CStr "A");
      ("ALT", CStr "T"); ("INFO", CStr "DP=50;AO=20;AF=0.4;TYPE=snp")]].

(** The table of [build_cprv_col] when the key built so far is [K]. *)
Definition keyed (cols1 : list string) (rs : list (Series cell))
  (K : Series cell -> string) : DataFrame cell :=
  mkDataFrame cols1 (map (fun r => set_item r "CPRV" (CStr (K r))) rs).

(** A key as a Python object. *)
Definition key_of (s : string) : pyobj := PScalar (CStr s).

(** The frequency that the answer [d] gives for the key [k]: the value of
    the [allele_freq] field of its entry, [nan] without such a field. *)
Definition frequency (d : list (string * pyobj)) (k : string) : pyobj :=
  match dict_get d k with
  | Ok item => match subscript item "allele_freq" with
               | Ok v => v
               | Err _ => PScalar nan
               end
  | Err _ => PScalar nan
  end.

(** The row [r] with the frequency of its key, as the merge returns it. *)
Definition annotated (d : list (string * pyobj)) (r : Series cell) : Series pyobj :=
  map (fun p => (fst p, PScalar (snd p))) r
    ++ [("ALLELE_FREQUENCY(ExAC)",
         frequency d (cprv_of "#CHROM" "POS" "REF" "ALT" r))].

(** A service that answers for the first key only. *)
Definition partial_exac (keys : list cell) : result pyobj :=
  Ok (PDict [("1-100-A-T", PDict [("allele_freq", PScalar (CFloat "0.25"))])]).

(** The cells of the table that [str.split] builds from a column, row by
    row, every row filled up to [n] cells. *)
Definition split_table (pat : ascii) (column : list cell) (n : nat) : list (list cell) :=
  map (fun p => map (expanded_cell p) (seq 0 n)) (map (str_split pat) column).

(** Packing the cells of a decoded row again, in the words of the
    specification: every cell after its key and the key-value separator,
    the pairs joined by the element separator, in the order of the
    columns. *)
Definition encode (key_value_sep : string) (elem_sep : ascii) (row : Series cell)
  : string :=
  py_join (String elem_sep "")
    (map (fun p => (fst p ++ key_value_sep ++ py_str (snd p))%string) row).

(** Two rows that pack different keys. *)
Definition two_keys : DataFrame cell :=
  mkDataFrame ["INFO"] [[("INFO", CStr "A=1")]; [("INFO", CStr "B=2")]].

(** A row with an entry without value. *)
Definition flagged : DataFrame cell :=
  mkDataFrame ["INFO"] [[("INFO", CStr "DP=50;DB")]].

(** The packed column of the scenario. *)
Definition packed : DataFrame cell :=
  mkDataFrame ["INFO"]
    [[("INFO", CStr "DP=50;AO=20,5;AF=0.4,0.1;TYPE=snp,snp")];
     [("INFO", CStr "DP=31;AO=7;AF=0.2;TYPE=ins")]].

(** The elements of a packed cell. *)
Definition elements (elem_sep : ascii) (x : cell) : list string :=
  match x with
  | CStr s => split_from (String elem_sep "") s 0 ""
  | _ => []
  end.

Definition is_str (x : cell) : bool :=
  match x with
  | CStr _ => true
  | _ => false
  end.

(** The element [e] is the key [k], the separator and a value that holds
    no separator. *)
Definition holds_key (key_value_sep k e : string) : bool :=
  match split_from key_value_sep e 0 "" with
  | [k'; _] => k' =? k
  | _ => false
  end.

(** The elements [es] hold the keys [header], one each and in order. *)
Fixpoint lists (key_value_sep : string) (header es : list string) : bool :=
  match header, es with
  | [], [] => true
  | k :: header', e :: es' =>
      holds_key key_value_sep k e && lists key_value_sep header' es'
  | _, _ => false
  end.

(** The cell [x] is a string of the form k1=v1;k2=v2;... for the keys
    [header]. *)
Definition lists_keys (key_value_sep : string) (elem_sep : ascii)
  (header : list string) (x : cell) : bool :=
  is_str x && lists key_value_sep header (elements elem_sep x).

(** What stands after the first separator of a cell, when there is one. *)
Definition value_part (key_value_sep : string) (x : cell) : cell :=
  match x with
  | CStr e => match split_from key_value_sep e 0 "" with
              | _ :: v :: _ => CStr v
              | _ => CNone
              end
  | _ => CNone
  end.

(** What stands before the first separator of a cell. *)
Definition key_part (key_value_sep : string) (x : cell) : string :=
  match x with
  | CStr e => hd "" (split_from key_value_sep e 0 "")
  | _ => ""
  end.

(** Every element of the cell [x] holds the key-value separator. *)
Definition separated (key_value_sep : string) (elem_sep : ascii) (x : cell) : bool :=
  forallb (occurs key_value_sep) (elements elem_sep x).

Definition index_out_of_range : exception :=
  IndexError "list index out of range".

(** ** Further definitions used to state the properties *)

(** What the decoder puts under the header [header] for the packed cell
    [x]: the values of its elements, by position. *)
Definition decoded_row (key_value_sep : string) (elem_sep : ascii)
  (header : list string) (x : cell) : Series cell :=
  combine header (map (value_part key_value_sep) (map CStr (elements elem_sep x))).

(** The labels [ls] stand in the order of [sorted]: every label is at most
    the next one. *)
Fixpoint ascending (ls : list string) : bool :=
  match ls with
  | [] => true
  | x :: ls' =>
      match ls' with
      | [] => true
      | y :: _ => String.leb x y && ascending ls'
      end
  end.

Definition out_of_bounds : exception :=
  IndexError "single positional indexer is out-of-bounds".

Definition unsupported_operand : exception :=
  TypeError "unsupported operand type(s) for +".

(** The path of the annotated file of [file_name]. *)
Definition annotated_path (file_name : string) : string :=
  "./output/" ++ file_name ++ "_annotated.vcf".

(** ** The name of the input file *)

(** [p.rfind(c)] for a character [c]: the index of the last [c] of [p],
    -1 when [p] has none. *)
Fixpoint rfind (c : ascii) (p : string) : Z :=
  match p with
  | EmptyString => (-1)%Z
  | String a p' =>
      let i := rfind c p' in
      if (i =? -1)%Z then (if Ascii.eqb a c then 0%Z else (-1)%Z) else (i + 1)%Z
  end.

(** [p[i:]] and [p[:i]] *)
Definition slice_from (i : nat) (p : string) : string :=
  substring i (String.length p - i) p.

Definition slice_to (i : nat) (p : string) : string :=
  substring 0 i p.

(** [os.path.basename(p)], as [posixpath] defines it. *)
Definition basename (p : string) : string :=
  let i := (rfind "/" p + 1)%Z in
  slice_from (Z.to_nat i) p.

(** The loop of [os.path.splitext] over the characters from
    [filenameIndex] up to the last dot: it stops at the first character
    that is not a dot.  [steps] is the distance to the last dot. *)
Fixpoint name_before_dot (p : string) (filenameIndex steps : nat) : bool :=
  match steps with
  | O => false
  | S n =>
      if negb (substring filenameIndex 1 p =? ".")
      then true
      else name_before_dot p (S filenameIndex) n
  end.

(** [os.path.splitext(p)], as [posixpath] defines it: the extension starts
    at the last dot of the last component, leading dots apart. *)
Definition splitext (p : string) : string * string :=
  let sepIndex := rfind "/" p in
  let dotIndex := rfind "." p in
  if (sepIndex <? dotIndex)%Z
     && name_before_dot p (Z.to_nat (sepIndex + 1))
                        (Z.to_nat dotIndex - Z.to_nat (sepIndex + 1))
  then (slice_to (Z.to_nat dotIndex) p, slice_from (Z.to_nat dotIndex) p)
  else (p, "").

(** [get_vcf_filename(file_path)] *)
Definition get_vcf_filename (file_path : string) : string :=
  let base := basename file_path in
  fst (splitext base).

(** [s] has a character other than the dot. *)
Definition has_name (s : string) : bool :=
  existsb (fun a => negb (Ascii.eqb a ".")) (list_ascii_of_string s).

(** What [run] hands to the writer on the scenario, for the input file
    [data/sample.vcf]. *)
Definition scenario_file : csv_file :=
  Eval vm_compute in
    match run scenario_exac (get_vcf_filename "data/sample.vcf") scenario with
    | Ok f => f
    | Err _ => mkCsv "" "" (mkDataFrame [] [])
    end.

(** The key of the row [r] has an entry in the answer [d]. *)
Definition answered_row (d : list (string * pyobj)) (r : Series cell) : bool :=
  mem (cprv_of "#CHROM" "POS" "REF" "ALT" r) (dict_keys d).

(** The value that the INFO cell of the row [r] holds at the position of
    the key [k] of the header. *)
Definition info_value (header : list string) (r : Series cell) (k : string) : cell :=
  value (decoded_row "=" ";" header (value r "INFO")) k.

(** The row that [subset_vcf] hands to [expand_df] for the row [r]: the four
    leading cells of [r], then the four values of its INFO cell. *)
Definition joined_row (header : list string) (r : Series cell) : Series cell :=
  map (fun l => (l, value r l)) ["#CHROM"; "POS"; "REF"; "ALT"]
  ++ map (fun l => (l, info_value header r l)) ["DP"; "AO"; "AF"; "TYPE"].

(** A table whose first row names no AO in its INFO cell. *)
Definition no_AO : DataFrame cell :=
  mkDataFrame ["#CHROM"; "POS"; "REF"; "ALT"; "INFO"]
    [[("#CHROM", CInt 1); ("POS", CInt 100); ("REF", CStr "A"); ("ALT", CStr "T");
      ("INFO", CStr "DP=50;AF=0.4;TYPE=snp")]].

(** * Properties *)

(** ** Python strings *)

Example py_split_alt : py_split "," "T,G" = Ok ["T"; "G"].
Proof. reflexivity. Qed.

Example py_split_empty : py_split "," "" = Ok [""].
Proof. reflexivity. Qed.

Example py_split_long_sep : py_split "ab" "xabyabab" = Ok ["x"; "y"; ""; ""].
Proof. reflexivity. Qed.

Example py_str_int : py_str (CInt 100) = "100" /\ py_str (CInt (-7)) = "-7" /\ py_str (CInt 0) = "0".
Proof. repeat split; reflexivity. Qed.

(** ** The result monad *)

Lemma bind_ok {A B : Type} (r : result A) (k : A -> result B) (b : B) :
  bind r k = Ok b -> exists a, r = Ok a /\ k a = Ok b.
Proof.
  destruct r as [a|e]; simpl; intros H; [eauto | discriminate].
Qed.

Lemma bind_err {A B : Type} (r : result A) (k : A -> result B) (e : exception) :
  bind r k = Err e -> r = Err e \/ exists a, r = Ok a /\ k a = Err e.
Proof.
  destruct r as [a|e']; simpl; intros H; [right; eauto | left; congruence].
Qed.

Ltac inv_bind H :=
  let a := fresh "a" in
  let Ha := fresh "Ha" in
  apply bind_ok in H; destruct H as (a & Ha & H).

Lemma mapM_Forall2 {A B : Type} (f : A -> result B) (l : list A) (l' : list B) :
  mapM f l = Ok l' <-> Forall2 (fun a b => f a = Ok b) l l'.
Proof.
  revert l'; induction l as [|a l IH]; intros l'; simpl.
  - split; intros H.
    + injection H as <-; constructor.
    + inversion H; reflexivity.
  - split; intros H.
    + inv_bind H. inv_bind H. injection H as <-.
      constructor; [assumption | apply IH; assumption].
    + inversion H as [|? b ? bs Hab Hrest]; subst.
      rewrite Hab; simpl. apply IH in Hrest. rewrite Hrest; reflexivity.
Qed.

Lemma mapM_map {A B : Type} (f : A -> result B) (g : A -> B) (l : list A) :
  (forall a, In a l -> f a = Ok (g a)) -> mapM f l = Ok (map g l).
Proof.
  induction l as [|a l IH]; intros H; simpl; [reflexivity|].
  rewrite (H a (or_introl eq_refl)); simpl.
  rewrite IH by (intros; apply H; right; assumption).
  reflexivity.
Qed.

Lemma mapM_ok_In {A B : Type} (f : A -> result B) (l : list A) (l' : list B) :
  mapM f l = Ok l' -> forall a, In a l -> exists b, f a = Ok b /\ In b l'.
Proof.
  intros H; apply mapM_Forall2 in H.
  induction H as [|a b l l' Hab _ IH]; intros x Hx; [destruct Hx|].
  destruct Hx as [<-|Hx].
  - exists b; split; [assumption | left; reflexivity].
  - destruct (IH x Hx) as (y & Hy & Hin). exists y; split; [assumption | right; assumption].
Qed.

Lemma mapM_length {A B : Type} (f : A -> result B) (l : list A) (l' : list B) :
  mapM f l = Ok l' -> length l' = length l.
Proof.
  intros H; apply mapM_Forall2 in H.
  induction H; simpl; congruence.
Qed.

(** When [f] can only raise [e0] on the elements of [l], so can [mapM f l]. *)
Lemma mapM_only_error {A B : Type} (f : A -> result B) (e0 : exception) (l : list A) :
  (forall a, In a l -> (exists b, f a = Ok b) \/ f a = Err e0) ->
  (exists l', mapM f l = Ok l') \/ mapM f l = Err e0.
Proof.
  induction l as [|a l IH]; intros H; simpl.
  - left; eexists; reflexivity.
  - destruct (H a (or_introl eq_refl)) as [(b & Hb)|Hb]; rewrite Hb; simpl.
    + destruct IH as [(l' & Hl')|Hl'].
      * intros; apply H; right; assumption.
      * rewrite Hl'; left; eexists; reflexivity.
      * rewrite Hl'; right; reflexivity.
    + right; reflexivity.
Qed.

(** ** Strings *)

Lemma append_assoc (a b c : string) : ((a ++ b) ++ c = a ++ (b ++ c))%string.
Proof.
  induction a as [|x a IH]; simpl; [reflexivity | rewrite IH; reflexivity].
Qed.

Lemma append_nil_r (a : string) : (a ++ "" = a)%string.
Proof.
  induction a as [|x a IH]; simpl; [reflexivity | rewrite IH; reflexivity].
Qed.

Lemma append_length (a b : string) :
  String.length (a ++ b) = String.length a + String.length b.
Proof.
  induction a as [|x a IH]; simpl; [reflexivity | rewrite IH; reflexivity].
Qed.

Lemma prefix_append (sep s : string) :
  String.prefix sep s = true -> exists rest, s = (sep ++ rest)%string.
Proof.
  revert s; induction sep as [|a sep IH]; intros s H.
  - exists s; reflexivity.
  - destruct s as [|b s]; simpl in H; [discriminate|].
    destruct (ascii_dec a b) as [->|]; [|discriminate].
    destruct (IH s H) as (rest & ->). exists rest; reflexivity.
Qed.

Lemma split_from_skip (sep p rest acc : string) :
  split_from sep (p ++ rest) (String.length p) acc = split_from sep rest 0 acc.
Proof.
  induction p as [|c p IH]; simpl; [reflexivity | exact IH].
Qed.

Lemma split_from_cons (sep : string) (c : ascii) (s : string) (skip : nat) (acc : string) :
  split_from sep (String c s) skip acc
  = match skip with
    | S k => split_from sep s k acc
    | O => if String.prefix sep (String c s)
           then acc :: split_from sep s (String.length sep - 1) ""
           else split_from sep s 0 (acc ++ String c "")
    end.
Proof. reflexivity. Qed.

Lemma split_from_nonempty (sep s : string) (skip : nat) (acc : string) :
  split_from sep s skip acc <> [].
Proof.
  revert skip acc; induction s as [|c s IH]; intros skip acc.
  - discriminate.
  - rewrite split_from_cons. destruct skip; [|apply IH].
    destruct (String.prefix sep (String c s)); [discriminate | apply IH].
Qed.

Lemma prefix_refl_append (sep rest : string) : String.prefix sep (sep ++ rest) = true.
Proof.
  induction sep as [|b s IH]; simpl.
  - destruct rest; reflexivity.
  - destruct (ascii_dec b b); [assumption | contradiction].
Qed.

(** One step of the scan at an occurrence of the separator. *)
Lemma split_from_match (a : ascii) (sep' rest acc : string) :
  split_from (String a sep') (String a sep' ++ rest) 0 acc
  = acc :: split_from (String a sep') rest 0 "".
Proof.
  change (String a sep' ++ rest)%string with (String a (sep' ++ rest)).
  rewrite split_from_cons.
  change (String a (sep' ++ rest)) with (String a sep' ++ rest)%string.
  rewrite prefix_refl_append.
  replace (String.length (String a sep') - 1) with (String.length sep')
    by (simpl; lia).
  f_equal. apply split_from_skip.
Qed.

Lemma concat_cons (sep x : string) (l : list string) :
  l <> [] -> String.concat sep (x :: l) = (x ++ sep ++ String.concat sep l)%string.
Proof.
  destruct l; [contradiction | reflexivity].
Qed.

(** Joining the pieces of a split gives the string back. *)
Lemma join_split_from (sep : string) :
  sep <> "" ->
  forall n s acc, String.length s <= n ->
    py_join sep (split_from sep s 0 acc) = (acc ++ s)%string.
Proof.
  intros Hsep. unfold py_join.
  induction n as [|n IH]; intros s acc Hlen.
  - destruct s; [|simpl in Hlen; lia]. simpl. rewrite append_nil_r; reflexivity.
  - destruct s as [|c s]; [simpl; rewrite append_nil_r; reflexivity|].
    destruct (String.prefix sep (String c s)) eqn:Hp.
    + destruct (prefix_append _ _ Hp) as (rest & Hrest).
      destruct sep as [|a sep']; [contradiction|].
      rewrite Hrest, split_from_match.
      rewrite concat_cons by apply split_from_nonempty.
      rewrite IH; [reflexivity|].
      apply (f_equal String.length) in Hrest. simpl in Hrest, Hlen.
      rewrite append_length in Hrest. lia.
    + rewrite split_from_cons, Hp.
      rewrite IH by (simpl in Hlen; lia).
      rewrite append_assoc; reflexivity.
Qed.

Lemma py_join_split (sep s : string) (l : list string) :
  py_split sep s = Ok l -> py_join sep l = s.
Proof.
  unfold py_split. destruct sep as [|a sep'] eqn:E; [discriminate|].
  intros H; injection H as <-.
  apply (@join_split_from (String a sep')) with (n := String.length s);
    [discriminate | lia].
Qed.

(** A string without the separator is one piece. *)
Lemma occurs_cons (sep : string) (c : ascii) (s : string) :
  occurs sep (String c s) = String.prefix sep (String c s) || occurs sep s.
Proof. reflexivity. Qed.

Lemma split_from_absent (sep s acc : string) :
  occurs sep s = false -> split_from sep s 0 acc = [(acc ++ s)%string].
Proof.
  revert acc; induction s as [|c s IH]; intros acc H.
  - simpl. rewrite append_nil_r; reflexivity.
  - rewrite occurs_cons in H. apply orb_false_iff in H. destruct H as [Hp Hs].
    rewrite split_from_cons, Hp. rewrite IH by assumption.
    rewrite append_assoc; reflexivity.
Qed.

(** The separator occurs exactly when the split has a second piece. *)
Lemma split_from_second (sep s acc : string) :
  sep <> "" ->
  (occurs sep s = true <-> exists x y l, split_from sep s 0 acc = x :: y :: l).
Proof.
  intros Hsep. split.
  - revert acc; induction s as [|c s IH]; intros acc H.
    + simpl in H. destruct sep; [contradiction | discriminate].
    + rewrite occurs_cons in H. rewrite split_from_cons.
      destruct (String.prefix sep (String c s)) eqn:Hp.
      * destruct (split_from sep s (String.length sep - 1) "") as [|y l] eqn:E.
        -- exfalso; revert E; apply split_from_nonempty.
        -- eauto.
      * simpl in H. apply IH; assumption.
  - intros (x & y & l & H).
    destruct (occurs sep s) eqn:E; [reflexivity|].
    rewrite split_from_absent in H by assumption. discriminate.
Qed.

(** ** Lists *)

Lemma map_nth_seq {A : Type} (d : A) (l : list A) :
  map (fun i => nth i l d) (seq 0 (length l)) = l.
Proof.
  induction l as [|x l IH]; simpl; [reflexivity|].
  f_equal. rewrite <- seq_shift, map_map. exact IH.
Qed.

Lemma combine_map_seq {A B : Type} (d : A) (F : nat -> B) (l : list A) :
  forall s m,
    combine l (map F (seq s m))
    = map (fun i => (nth (i - s) l d, F i)) (seq s (Nat.min (length l) m)).
Proof.
  induction l as [|x l IH]; intros s m; simpl; [reflexivity|].
  destruct m as [|m]; simpl; [reflexivity|].
  rewrite Nat.sub_diag. f_equal.
  rewrite IH. apply map_ext_in. intros i Hi. apply in_seq in Hi.
  replace (i - s) with (S (i - S s)) by lia. reflexivity.
Qed.

(** The tuples of [zip_star]: one for each position that every list has. *)
Lemma zip_star_spec {A : Type} (d : A) (ls : list (list A)) :
  zip_star ls = map (fun i => map (fun l => nth i l d) ls) (seq 0 (shortest ls)).
Proof.
  induction ls as [|l ls IH]; [reflexivity|].
  destruct ls as [|l2 ls].
  - simpl. rewrite <- (map_nth_seq d l) at 1. rewrite map_map. reflexivity.
  - change (zip_star (l :: l2 :: ls))
      with (map (fun p => fst p :: snd p) (combine l (zip_star (l2 :: ls)))).
    rewrite IH, (combine_map_seq d), map_map.
    change (shortest (l :: l2 :: ls))
      with (Nat.min (length l) (shortest (l2 :: ls))).
    apply map_ext. intros i. simpl. rewrite Nat.sub_0_r. reflexivity.
Qed.

Lemma zip_star_length {A : Type} (ls : list (list A)) :
  length (zip_star ls) = shortest ls.
Proof.
  induction ls as [|l ls IH]; [reflexivity|].
  destruct ls as [|l2 ls]; [apply length_map|].
  change (zip_star (l :: l2 :: ls))
    with (map (fun p => fst p :: snd p) (combine l (zip_star (l2 :: ls)))).
  rewrite length_map, length_combine, IH. reflexivity.
Qed.

Lemma shortest_le {A : Type} (ls : list (list A)) (l : list A) :
  In l ls -> shortest ls <= length l.
Proof.
  induction ls as [|x ls IH]; intros H; [destruct H|].
  destruct ls as [|y ls].
  - destruct H as [<-|[]]. simpl. lia.
  - change (shortest (x :: y :: ls)) with (Nat.min (length x) (shortest (y :: ls))).
    destruct H as [<-|H]; [lia|]. specialize (IH H). lia.
Qed.

Lemma shortest_same {A : Type} (k : nat) (ls : list (list A)) :
  ls <> [] -> Forall (fun l => length l = k) ls -> shortest ls = k.
Proof.
  induction ls as [|x ls IH]; intros Hne H; [contradiction|].
  inversion H as [|? ? Hx Hls]; subst.
  destruct ls as [|y ls]; [reflexivity|].
  change (shortest (x :: y :: ls)) with (Nat.min (length x) (shortest (y :: ls))).
  rewrite IH by (assumption || discriminate). lia.
Qed.

(** Every element of a tuple of [zip_star ls] comes from a list of [ls]. *)
Lemma zip_star_In {A : Type} (ls : list (list A)) (t : list A) (x : A) :
  In t (zip_star ls) -> In x t -> exists l, In l ls /\ In x l.
Proof.
  rewrite (zip_star_spec x). intros Ht Hx.
  apply in_map_iff in Ht. destruct Ht as (i & <- & Hi).
  apply in_map_iff in Hx. destruct Hx as (l & Hl & Hin).
  exists l. split; [assumption|]. apply in_seq in Hi.
  pose proof (shortest_le ls l Hin). rewrite <- Hl. apply nth_In. lia.
Qed.

Lemma zip_star_map {A B : Type} (g : A -> B) (ls : list (list A)) :
  zip_star (map (map g) ls) = map (map g) (zip_star ls).
Proof.
  induction ls as [|l ls IH]; [reflexivity|].
  destruct ls as [|l2 ls].
  - simpl. rewrite !map_map. reflexivity.
  - change (zip_star (map (map g) (l :: l2 :: ls)))
      with (map (fun p => fst p :: snd p)
              (combine (map g l) (zip_star (map (map g) (l2 :: ls))))).
    rewrite IH.
    change (zip_star (l :: l2 :: ls))
      with (map (fun p => fst p :: snd p) (combine l (zip_star (l2 :: ls)))).
    generalize (zip_star (l2 :: ls)). clear.
    induction l as [|x l IHl]; intros z; [reflexivity|].
    destruct z as [|t z]; [reflexivity|]. simpl. f_equal. apply IHl.
Qed.

(** Transposing twice gives a rectangular table back. *)
Lemma zip_star_involutive {A : Type} (n : nat) (ls : list (list A)) :
  ls <> [] -> 0 < n -> Forall (fun l => length l = n) ls ->
  zip_star (zip_star ls) = ls.
Proof.
  intros Hne Hn Hrect.
  destruct ls as [|l0 ls0] eqn:E; [contradiction|]. rewrite <- E in *.
  assert (d : A).
  { destruct l0 as [|d ?]; [|exact d].
    exfalso. subst ls. inversion Hrect; subst. simpl in *. lia. }
  rewrite (zip_star_spec d ls), (shortest_same Hne Hrect).
  set (cols := map (fun i => map (fun l => nth i l d) ls) (seq 0 n)).
  assert (Hcols : shortest cols = length ls).
  { apply shortest_same.
    - unfold cols. destruct n; [lia | discriminate].
    - unfold cols. apply Forall_forall. intros c Hc.
      apply in_map_iff in Hc. destruct Hc as (i & <- & _). apply length_map. }
  rewrite (zip_star_spec d cols), Hcols.
  etransitivity; [|apply (map_nth_seq [] ls)].
  apply map_ext_in. intros i Hi. apply in_seq in Hi.
  unfold cols. rewrite map_map.
  assert (Hlen : length (nth i ls []) = n).
  { rewrite Forall_forall in Hrect. apply Hrect. apply nth_In. lia. }
  etransitivity; [|apply (map_nth_seq d (nth i ls []))]. rewrite Hlen.
  apply map_ext. intros j.
  rewrite (nth_indep _ d (nth j [] d)) by (rewrite length_map; lia).
  apply (map_nth (fun l => nth j l d)).
Qed.

Lemma map_snd_combine {A B : Type} (l : list A) (l' : list B) :
  length l = length l' -> map snd (combine l l') = l'.
Proof.
  revert l'; induction l as [|a l IH]; intros [|b l'] H; simpl in *;
    try discriminate; [reflexivity|]. f_equal. apply IH. lia.
Qed.

Lemma map_fst_combine {A B : Type} (l : list A) (l' : list B) :
  length l = length l' -> map fst (combine l l') = l.
Proof.
  revert l'; induction l as [|a l IH]; intros [|b l'] H; simpl in *;
    try discriminate; [reflexivity|]. f_equal. apply IH. lia.
Qed.

Lemma combine_map_same {A B C : Type} (f : A -> B) (g : A -> C) (l : list A) :
  combine (map f l) (map g l) = map (fun a => (f a, g a)) l.
Proof.
  induction l as [|a l IH]; simpl; [reflexivity | rewrite IH; reflexivity].
Qed.

(** ** Series *)

Lemma find_map_fst {A B : Type} (F : string * A -> string * B) (c : string)
  (s : list (string * A)) :
  (forall p, fst (F p) = fst p) ->
  find (fun q => fst q =? c) (map F s) = option_map F (find (fun p => fst p =? c) s).
Proof.
  intros HF. induction s as [|p s IH]; simpl; [reflexivity|].
  rewrite HF. destruct (fst p =? c); [reflexivity | exact IH].
Qed.

Lemma find_label_In {A : Type} (c : string) (s : Series A) :
  In c (labels s) -> exists v, find (fun p => fst p =? c) s = Some (c, v).
Proof.
  induction s as [|[l x] s IH]; intros H; [destruct H|]. simpl.
  destruct (String.eqb_spec l c) as [->|Hne]; [eauto|].
  destruct H as [H|H]; [contradiction | apply IH; assumption].
Qed.

Lemma loc_In_labels {A : Type} (c : string) (s : Series A) (v : A) :
  loc s c = Ok v -> In c (labels s).
Proof.
  unfold loc. destruct (find _ s) as [p|] eqn:E; [|discriminate].
  intros _. apply find_some in E. destruct E as [Hin Heq].
  apply String.eqb_eq in Heq. subst c. apply in_map; assumption.
Qed.

Lemma loc_labelled {A : Type} (c : string) (s : Series A) :
  In c (labels s) -> exists v, loc s c = Ok v.
Proof.
  intros H. destruct (find_label_In c s H) as (v & Hv).
  exists v. unfold loc. rewrite Hv. reflexivity.
Qed.

Lemma labels_reindex {A : Type} (fill : A) (s : Series A) (ls : list string) :
  labels (reindex fill s ls) = ls.
Proof.
  unfold labels, reindex. rewrite map_map. simpl. apply map_id.
Qed.

Lemma reindex_self {A : Type} (fill : A) (s : Series A) :
  NoDup (labels s) -> reindex fill s (labels s) = s.
Proof.
  unfold reindex, labels. induction s as [|[l x] s IH]; intros H; [reflexivity|].
  inversion H as [|? ? Hnin Hnd]; subst. simpl.
  rewrite String.eqb_refl. simpl. f_equal.
  rewrite <- (IH Hnd) at 2. apply map_ext_in. intros c Hc.
  destruct (String.eqb_spec l c) as [->|_]; [contradiction | reflexivity].
Qed.

Lemma set_item_labels {A : Type} (s : Series A) (c : string) (v : A) :
  In c (labels s) -> labels (set_item s c v) = labels s.
Proof.
  induction s as [|[l x] s IH]; intros H; [destruct H|]. simpl.
  destruct (String.eqb_spec l c) as [->|Hne]; [reflexivity|].
  simpl. f_equal. apply IH. destruct H; [contradiction | assumption].
Qed.

Lemma set_item_absent {A : Type} (s : Series A) (c : string) (v : A) :
  ~ In c (labels s) -> set_item s c v = s ++ [(c, v)].
Proof.
  induction s as [|[l x] s IH]; intros H; [reflexivity|]. simpl.
  destruct (String.eqb_spec l c) as [->|Hne].
  - exfalso. apply H. left; reflexivity.
  - rewrite IH; [reflexivity|]. intros Hin. apply H. right; assumption.
Qed.

Lemma set_item_map {A : Type} (s : Series A) (c : string) (v : A) :
  NoDup (labels s) -> In c (labels s) ->
  set_item s c v = map (fun p => (fst p, if fst p =? c then v else snd p)) s.
Proof.
  induction s as [|[l x] s IH]; intros Hnd H; [destruct H|].
  inversion Hnd as [|? ? Hnin Hnd']; subst. simpl.
  destruct (String.eqb_spec l c) as [->|Hne].
  - f_equal. rewrite <- (map_id s) at 1. apply map_ext_in. intros [l' x'] Hin. simpl.
    destruct (String.eqb_spec l' c) as [->|_]; [|reflexivity].
    exfalso. apply Hnin. apply (in_map fst) in Hin. exact Hin.
  - f_equal. apply IH; [assumption|]. destruct H; [contradiction | assumption].
Qed.

Lemma loc_set_item_same {A : Type} (s : Series A) (c : string) (v : A) :
  loc (set_item s c v) c = Ok v.
Proof.
  unfold loc. induction s as [|[l x] s IH]; simpl.
  - rewrite String.eqb_refl. reflexivity.
  - destruct (String.eqb_spec l c) as [->|Hne]; simpl.
    + rewrite String.eqb_refl. reflexivity.
    + destruct (String.eqb_spec l c); [contradiction | exact IH].
Qed.

Lemma loc_set_item_other {A : Type} (s : Series A) (c c' : string) (v : A) :
  c' <> c -> loc (set_item s c v) c' = loc s c'.
Proof.
  intros Hne. unfold loc. induction s as [|[l x] s IH]; simpl.
  - destruct (String.eqb_spec c c'); [congruence | reflexivity].
  - destruct (String.eqb_spec l c) as [->|Hlc]; simpl.
    + destruct (String.eqb_spec c c'); [congruence | reflexivity].
    + destruct (String.eqb_spec l c'); [reflexivity | exact IH].
Qed.

Lemma set_item_twice {A : Type} (s : Series A) (c : string) (v v' : A) :
  set_item (set_item s c v) c v' = set_item s c v'.
Proof.
  induction s as [|[l x] s IH]; simpl.
  - rewrite String.eqb_refl. reflexivity.
  - destruct (String.eqb_spec l c) as [->|Hlc]; simpl.
    + rewrite String.eqb_refl. reflexivity.
    + destruct (String.eqb_spec l c); [contradiction | rewrite IH; reflexivity].
Qed.

Lemma mem_In (c : string) (cs : list string) : mem c cs = true <-> In c cs.
Proof.
  unfold mem. rewrite existsb_exists. split.
  - intros (x & Hx & Heq). apply String.eqb_eq in Heq. subst; assumption.
  - intros H. exists c. split; [assumption | apply String.eqb_refl].
Qed.

Lemma mem_false (c : string) (cs : list string) : mem c cs = false <-> ~ In c cs.
Proof.
  rewrite <- mem_In. destruct (mem c cs); split; intros H; congruence.
Qed.

Lemma labels_upd (cs : list string) (g : string -> cell) (r : Series cell) :
  labels (upd cs g r) = labels r.
Proof.
  unfold labels, upd. rewrite map_map. reflexivity.
Qed.

Lemma labels_apply_str (r : Series cell) : labels (apply_str r) = labels r.
Proof.
  unfold labels, apply_str. rewrite map_map. reflexivity.
Qed.

Lemma upd_upd (cs : list string) (g g' : string -> cell) (r : Series cell) :
  upd cs g' (upd cs g r) = upd cs g' r.
Proof.
  unfold upd. rewrite map_map. apply map_ext. intros [l x]. simpl.
  destruct (mem l cs); reflexivity.
Qed.

(** Assigning [g c] under every label [c] of [cs], one after the other. *)
Lemma fold_set_item_upd (g : string -> cell) (cs : list string) :
  forall r, NoDup (labels r) -> incl cs (labels r) ->
    fold_left (fun r c => set_item r c (g c)) cs r = upd cs g r.
Proof.
  induction cs as [|c cs IH]; intros r Hnd Hincl; simpl.
  - unfold upd. rewrite <- (map_id r) at 1. apply map_ext. intros [l x]; reflexivity.
  - assert (Hc : In c (labels r)) by (apply Hincl; left; reflexivity).
    rewrite IH.
    + rewrite set_item_map by assumption. unfold upd. rewrite map_map.
      apply map_ext. intros [l x]. simpl.
      unfold mem. simpl existsb. rewrite (String.eqb_sym l c).
      destruct (String.eqb_spec c l) as [->|_]; simpl.
      * destruct (existsb (String.eqb l) cs); reflexivity.
      * reflexivity.
    + rewrite set_item_labels; assumption.
    + rewrite set_item_labels by assumption.
      intros x Hx. apply Hincl. right; assumption.
Qed.

Lemma reindex_apply_upd (cs : list string) (g : string -> cell) (r : Series cell)
  (ls : list string) :
  incl ls (labels r) ->
  reindex nan (apply_str (upd cs g r)) ls
  = map (fun c => (c, CStr (py_str (if mem c cs then g c else value r c)))) ls.
Proof.
  intros Hincl. unfold reindex. apply map_ext_in. intros c Hc. f_equal.
  unfold apply_str, upd. rewrite map_map.
  rewrite (find_map_fst (fun p => (fst p, CStr (py_str (if mem (fst p) cs then g (fst p) else snd p))))) by reflexivity.
  destruct (find_label_In c r (Hincl c Hc)) as (v & Hv).
  unfold value, loc. rewrite Hv. reflexivity.
Qed.

(** ** Sorted labels *)

Lemma In_insert_sorted (x y : string) (l : list string) :
  In y (insert_sorted x l) <-> y = x \/ In y l.
Proof.
  induction l as [|z l IH]; simpl; [intuition congruence|].
  destruct (String.leb x z); simpl; [intuition congruence|].
  rewrite IH. intuition congruence.
Qed.

Lemma In_sorted (y : string) (l : list string) : In y (sorted l) <-> In y l.
Proof.
  induction l as [|x l IH]; simpl; [reflexivity|].
  rewrite In_insert_sorted, IH. intuition congruence.
Qed.

Lemma NoDup_insert_sorted (x : string) (l : list string) :
  ~ In x l -> NoDup l -> NoDup (insert_sorted x l).
Proof.
  induction l as [|z l IH]; intros Hx Hnd; simpl.
  - constructor; [intros [] | constructor].
  - destruct (String.leb x z); [constructor; assumption|].
    inversion Hnd as [|? ? Hz Hl]; subst. constructor.
    + rewrite In_insert_sorted. intros [->|H]; [|contradiction].
      apply Hx. left; reflexivity.
    + apply IH; [|assumption]. intros H. apply Hx. right; assumption.
Qed.

Lemma NoDup_sorted (l : list string) : NoDup l -> NoDup (sorted l).
Proof.
  induction l as [|x l IH]; intros H; simpl; [constructor|].
  inversion H; subst. apply NoDup_insert_sorted; [|auto].
  rewrite In_sorted; assumption.
Qed.

Lemma In_index_difference (c : string) (ls cs : list string) :
  In c (index_difference ls cs) <-> In c ls /\ ~ In c cs.
Proof.
  unfold index_difference. rewrite In_sorted, nodup_In, filter_In.
  fold (mem c cs). rewrite negb_true_iff, mem_false. reflexivity.
Qed.

Lemma NoDup_expanded_columns (cols ls : list string) :
  NoDup cols -> NoDup (expanded_columns cols ls).
Proof.
  intros H. unfold expanded_columns. apply NoDup_app; [assumption | |].
  - unfold index_difference. apply NoDup_sorted, NoDup_nodup.
  - intros c Hc Hd. apply In_index_difference in Hd. tauto.
Qed.

Lemma In_expanded_columns (cols ls : list string) (c : string) :
  incl cols ls -> (In c (expanded_columns cols ls) <-> In c ls).
Proof.
  intros Hincl. unfold expanded_columns.
  rewrite in_app_iff, In_index_difference. split.
  - intros [H|[H _]]; auto.
  - intros H. destruct (in_dec string_dec c cols); auto.
Qed.

Lemma index_difference_nil (ls cs : list string) :
  incl ls cs -> index_difference ls cs = [].
Proof.
  intros Hincl. destruct (index_difference ls cs) as [|c l] eqn:E; [reflexivity|].
  assert (H : In c (index_difference ls cs)) by (rewrite E; left; reflexivity).
  apply In_index_difference in H. destruct H as [H1 H2].
  exfalso. apply H2, Hincl, H1.
Qed.

(** ** [expand_df] *)

Lemma dict_set_absent {V : Type} (d : dict V) (k : string) (v : V) :
  ~ In k (dict_keys d) -> dict_set d k v = d ++ [(k, v)].
Proof.
  induction d as [|[l x] d IH]; intros H; [reflexivity|]. simpl.
  destruct (String.eqb_spec l k) as [->|Hne].
  - exfalso. apply H. left; reflexivity.
  - rewrite IH; [reflexivity|]. intros Hin. apply H. right; assumption.
Qed.

Lemma pieces_str (sep : string) (r : Series cell) (c s : string) :
  sep <> "" -> loc r c = Ok (CStr s) -> pieces sep r c = split_from sep s 0 "".
Proof.
  intros Hsep H. unfold pieces, value. rewrite H. simpl.
  unfold py_split. destruct sep; [contradiction | reflexivity].
Qed.

Lemma cell_split_pieces (sep : string) (r : Series cell) (c s : string) :
  sep <> "" -> loc r c = Ok (CStr s) ->
  cell_split sep (CStr s) = Ok (pieces sep r c).
Proof.
  intros Hsep H. rewrite (pieces_str _ _ Hsep H). simpl.
  unfold py_split. destruct sep; [contradiction | reflexivity].
Qed.

Lemma columns_dict_spec (sep : string) (r : Series cell) (cols : list string) :
  sep <> "" -> splittable cols r ->
  forall d0 : dict (list string),
    NoDup cols -> (forall c, In c cols -> ~ In c (dict_keys d0)) ->
    foldM (fun (d : dict (list string)) column =>
             x <- loc r column ;;
             parts <- cell_split sep x ;;
             Ok (dict_set d column parts)) cols d0
    = Ok (d0 ++ map (fun c => (c, pieces sep r c)) cols).
Proof.
  intros Hsep. induction cols as [|c cols IH]; intros Hsplit d0 Hnd Hdisj; simpl.
  - rewrite List.app_nil_r. reflexivity.
  - destruct (Hsplit c (or_introl eq_refl)) as (s & Hs).
    rewrite Hs. cbn [bind]. rewrite (cell_split_pieces _ _ Hsep Hs). cbn [bind].
    inversion Hnd as [|? ? Hnin Hnd']; subst.
    rewrite dict_set_absent by (apply Hdisj; left; reflexivity).
    rewrite IH.
    + rewrite <- List.app_assoc. reflexivity.
    + intros c' Hc'. apply Hsplit. right; assumption.
    + assumption.
    + intros c' Hc'. unfold dict_keys. rewrite map_app, in_app_iff. simpl.
      intros [H|[H|[]]].
      * apply (Hdisj c'); [right; assumption | exact H].
      * subst c'. contradiction.
Qed.

(** The assignments of one tuple to the row. *)
Lemma assign_tuple (h : string -> string) (cs : list string) :
  forall (pre : list string) (row : Series cell),
    foldM (fun (row : Series cell) (cc : nat * string) =>
             v <- py_index (pre ++ map h cs) (fst cc) ;;
             Ok (set_item row (snd cc) (CStr v)))
          (combine (seq (length pre) (length cs)) cs) row
    = Ok (fold_left (fun r c => set_item r c (CStr (h c))) cs row).
Proof.
  induction cs as [|c cs IH]; intros pre row; [reflexivity|].
  simpl. unfold py_index at 1.
  rewrite nth_error_app2, Nat.sub_diag by lia. simpl.
  specialize (IH (pre ++ [h c]) (set_item row c (CStr (h c)))).
  rewrite <- List.app_assoc, length_app in IH. simpl in IH.
  rewrite Nat.add_1_r in IH. exact IH.
Qed.

Lemma append_frame_of (cols ls : list string) (emitted : list (Series cell))
  (s : Series cell) :
  NoDup cols -> incl cols ls -> labels s = ls ->
  Forall (fun r => labels r = expanded_columns cols ls) emitted ->
  append (frame_of cols (expanded_columns cols ls) emitted) s
  = frame_of cols (expanded_columns cols ls)
      (emitted ++ [reindex nan s (expanded_columns cols ls)]).
Proof.
  intros Hnd Hincl Hs Hall. unfold append, frame_of.
  destruct emitted as [|e emitted]; simpl columns; simpl rows.
  - rewrite Hs. reflexivity.
  - rewrite Hs, index_difference_nil, List.app_nil_r.
    + f_equal. f_equal.
      etransitivity; [|apply (map_id (e :: emitted))]. apply map_ext_in.
      intros r Hr. rewrite Forall_forall in Hall. specialize (Hall r Hr).
      rewrite <- Hall. apply reindex_self. rewrite Hall.
      apply NoDup_expanded_columns; assumption.
    + intros c Hc. apply In_expanded_columns; assumption.
Qed.

Section ExpandRow.

Variables (cols : list string) (sep : string) (ls : list string).
Hypothesis sep_nonempty : sep <> "".
Hypothesis cols_distinct : NoDup cols.

Local Abbreviation out_columns := (expanded_columns cols ls).

(** The loop over the tuples of one row. *)
Lemma expand_tuples (r : Series cell) :
  labels r = ls -> NoDup ls -> incl cols ls ->
  forall (idx : list nat) (row : Series cell) (emitted : list (Series cell)),
    labels row = ls ->
    (forall g, upd cols g row = upd cols g r) ->
    Forall (fun r => labels r = out_columns) emitted ->
    exists row',
      foldM (fun (st : Series cell * DataFrame cell) item =>
               row <- foldM (fun (row : Series cell) (cc : nat * string) =>
                               v <- py_index item (fst cc) ;;
                               Ok (set_item row (snd cc) (CStr v)))
                            (enumerate cols) (fst st) ;;
               Ok (row, append (snd st) (apply_str row)))
            (map (fun i => map (fun c => nth i (pieces sep r c) "") cols) idx)
            (row, frame_of cols out_columns emitted)
      = Ok (row', frame_of cols out_columns
                    (emitted ++ map (expanded_row out_columns cols sep r) idx)).
Proof.
  intros Hr Hnd Hincl. induction idx as [|i idx IH]; intros row emitted Hrow Hupd Hall.
  - simpl. rewrite List.app_nil_r. eauto.
  - cbn [map foldM fst snd].
    pose proof (assign_tuple (fun c => nth i (pieces sep r c) "") cols [] row) as Ha.
    change (combine (seq (length (@nil string)) (length cols)) cols)
      with (enumerate cols) in Ha.
    change ([] ++ map (fun c => nth i (pieces sep r c) "") cols)
      with (map (fun c => nth i (pieces sep r c) "") cols) in Ha.
    rewrite Ha. cbn [bind fst snd].
    rewrite fold_set_item_upd
      by (rewrite Hrow; assumption).
    rewrite Hupd.
    rewrite append_frame_of; try assumption;
      [|rewrite labels_apply_str, labels_upd; exact Hr].
    rewrite reindex_apply_upd
      by (rewrite Hr; intros c Hc; apply (In_expanded_columns c Hincl); exact Hc).
    assert (Hrow_i :
      map (fun c => (c, CStr (py_str (if mem c cols
                                       then CStr (nth i (pieces sep r c) "")
                                       else value r c)))) (expanded_columns cols ls)
      = expanded_row out_columns cols sep r i).
    { unfold expanded_row. apply map_ext. intros c.
      destruct (mem c cols); reflexivity. }
    rewrite Hrow_i.
    destruct (IH (upd cols (fun c => CStr (nth i (pieces sep r c) "")) r)
                 (emitted ++ [expanded_row out_columns cols sep r i])) as (row' & Hrow').
    + rewrite labels_upd; assumption.
    + intros g. apply upd_upd.
    + apply Forall_app. split; [assumption|]. constructor; [|constructor].
      unfold expanded_row, labels. rewrite map_map. simpl. apply map_id.
    + exists row'. rewrite Hrow'. rewrite <- List.app_assoc. reflexivity.
Qed.

(** The rows that one row of the input adds to the table. *)
Lemma expand_row_spec (r : Series cell) (emitted : list (Series cell)) :
  labels r = ls -> NoDup ls -> splittable cols r ->
  Forall (fun r => labels r = out_columns) emitted ->
  expand_row cols sep (frame_of cols out_columns emitted) r
  = Ok (frame_of cols out_columns
          (emitted ++ map (expanded_row out_columns cols sep r)
                          (seq 0 (shortest (map (pieces sep r) cols))))).
Proof.
  intros Hr Hnd Hsplit Hall.
  assert (Hincl : incl cols ls).
  { intros c Hc. destruct (Hsplit c Hc) as (s & Hs).
    rewrite <- Hr. eapply loc_In_labels; eassumption. }
  unfold expand_row.
  rewrite (columns_dict_spec sep_nonempty Hsplit [] cols_distinct)
    by (intros c _ []).
  simpl app. cbn [bind].
  unfold dict_values, dict_keys. rewrite !map_map. simpl.
  rewrite map_id.
  rewrite (zip_star_spec "" (map (fun c => pieces sep r c) cols)).
  rewrite (map_ext (fun i => map (fun l => nth i l "") (map (fun c => pieces sep r c) cols))
                   (fun i => map (fun c => nth i (pieces sep r c) "") cols))
    by (intros i; apply map_map).
  destruct (@expand_tuples r Hr Hnd Hincl
              (seq 0 (shortest (map (fun c => pieces sep r c) cols)))
              r emitted Hr (fun g => eq_refl) Hall) as (row' & Hrow').
  rewrite Hrow'. reflexivity.
Qed.

(** The loop over the rows. *)
Lemma expand_rows_spec (rs : list (Series cell)) :
  NoDup ls ->
  Forall (fun r => labels r = ls /\ splittable cols r) rs ->
  forall emitted,
    Forall (fun r => labels r = out_columns) emitted ->
    foldM (expand_row cols sep) rs (frame_of cols out_columns emitted)
    = Ok (frame_of cols out_columns
            (emitted ++ flat_map (fun r =>
               map (expanded_row out_columns cols sep r)
                   (seq 0 (shortest (map (pieces sep r) cols)))) rs)).
Proof.
  intros Hnd. induction rs as [|r rs IH]; intros Hrs emitted Hall.
  - simpl. rewrite List.app_nil_r. reflexivity.
  - apply Forall_cons_iff in Hrs. destruct Hrs as [[Hr Hsplit] Hrs'].
    simpl foldM. rewrite expand_row_spec by assumption. cbn [bind].
    rewrite IH; [|assumption|].
    + simpl flat_map. rewrite List.app_assoc. reflexivity.
    + apply Forall_app. split; [assumption|].
      apply Forall_forall. intros x Hx. apply in_map_iff in Hx.
      destruct Hx as (i & <- & _).
      unfold expanded_row, labels. rewrite map_map. simpl. apply map_id.
Qed.

End ExpandRow.

(** What [expand_df] returns on a table whose expandable cells are strings:
    every row gives as many rows as its shortest list of pieces is long. *)
Lemma expand_df_spec (df : DataFrame cell) (cols : list string) (sep : string) :
  sep <> "" -> NoDup cols -> NoDup (columns df) -> wf_frame df ->
  Forall (splittable cols) (rows df) ->
  let out_columns := expanded_columns cols (columns df) in
  expand_df df cols sep
  = Ok (frame_of cols out_columns
          (flat_map (fun r =>
             map (expanded_row out_columns cols sep r)
                 (seq 0 (shortest (map (pieces sep r) cols)))) (rows df))).
Proof.
  intros Hsep Hcols Hnd Hwf Hsplit out_columns. unfold expand_df.
  change (mkDataFrame cols []) with (frame_of cols out_columns []).
  rewrite (expand_rows_spec (ls := columns df) Hsep Hcols); try assumption.
  - reflexivity.
  - unfold wf_frame in Hwf. rewrite Forall_forall in *.
    intros r Hr. split; auto.
  - constructor.
Qed.

Lemma flat_map_ext_in {A B : Type} (f g : A -> list B) (l : list A) :
  (forall a, In a l -> f a = g a) -> flat_map f l = flat_map g l.
Proof.
  induction l as [|a l IH]; intros H; simpl; [reflexivity|].
  rewrite (H a (or_introl eq_refl)), IH; [reflexivity|].
  intros; apply H; right; assumption.
Qed.

Lemma pieces_nonempty (sep : string) (r : Series cell) (c : string) :
  sep <> "" -> (exists s, loc r c = Ok (CStr s)) -> 0 < length (pieces sep r c).
Proof.
  intros Hsep (s & Hs). rewrite (pieces_str _ _ Hsep Hs).
  pose proof (split_from_nonempty sep s 0 "") as H.
  destruct (split_from sep s 0 ""); [contradiction | simpl; lia].
Qed.

Lemma shortest_pos {A : Type} (ls : list (list A)) :
  ls <> [] -> Forall (fun l => 0 < length l) ls -> 0 < shortest ls.
Proof.
  induction ls as [|x ls IH]; intros Hne H; [contradiction|].
  inversion H as [|? ? Hx Hls]; subst.
  destruct ls as [|y ls]; [exact Hx|].
  change (shortest (x :: y :: ls)) with (Nat.min (length x) (shortest (y :: ls))).
  assert (0 < shortest (y :: ls)) by (apply IH; [discriminate | assumption]).
  lia.
Qed.

(** [expand_df] succeeds on a table whose expandable cells are strings, and
    every row gives as many rows as its shortest list of pieces is long. *)
Lemma expand_df_total (df : DataFrame cell) (cols : list string) (sep : string) :
  sep <> "" -> cols <> [] -> NoDup cols -> NoDup (columns df) -> wf_frame df ->
  Forall (splittable cols) (rows df) ->
  exists out,
    expand_df df cols sep = Ok out /\
    rows out = flat_map (fun r =>
                 map (expanded_row (columns out) cols sep r)
                     (seq 0 (shortest (map (pieces sep r) cols)))) (rows df) /\
    (rows df <> [] -> columns out = expanded_columns cols (columns df)).
Proof.
  intros Hsep Hne Hcols Hnd Hwf Hsplit.
  eexists. split; [apply expand_df_spec; assumption|].
  destruct (rows df) as [|r rs] eqn:E.
  - simpl. split; [reflexivity | intros H; contradiction].
  - assert (Hpos : 0 < shortest (map (pieces sep r) cols)).
    { apply shortest_pos.
      - destruct cols; [contradiction | discriminate].
      - apply Forall_forall. intros l Hl. apply in_map_iff in Hl.
        destruct Hl as (c & <- & Hc). apply pieces_nonempty; [assumption|].
        inversion Hsplit as [|? ? Hr _]; subst. apply Hr; assumption. }
    cbn [flat_map]. destruct (shortest (map (pieces sep r) cols)) as [|m]; [lia|].
    simpl. split; [reflexivity | intros _; reflexivity].
Qed.

(** ** Properties of the expansion *)

(** C3.  When the expandable cells of every row split on the separator into
    lists of one length [k r], [expand_df] returns a table whose rows are,
    for each row [r] of the input in order, the [k r] rows
    [expanded_row _ _ _ r 0], ..., [expanded_row _ _ _ r (k r - 1)]: row [i]
    holds the [i]-th piece under every expandable column and the text of the
    cell of [r] under every other column; the table has the columns of the
    input. *)
Theorem expand_df_cardinality (df : DataFrame cell) (cols : list string)
  (sep : string) (k : Series cell -> nat) :
  sep <> "" -> cols <> [] -> NoDup cols -> NoDup (columns df) -> wf_frame df ->
  (forall r, In r (rows df) -> forall c, In c cols ->
     exists s l, loc r c = Ok (CStr s) /\ py_split sep s = Ok l /\ length l = k r) ->
  exists out,
    expand_df df cols sep = Ok out /\
    rows out = flat_map (fun r =>
                 map (expanded_row (columns out) cols sep r) (seq 0 (k r))) (rows df) /\
    (rows df <> [] -> forall c, In c (columns out) <-> In c (columns df)).
Proof.
  intros Hsep Hne Hcols Hnd Hwf Hk.
  assert (Hsplit : Forall (splittable cols) (rows df)).
  { apply Forall_forall. intros r Hr c Hc.
    destruct (Hk r Hr c Hc) as (s & l & Hs & _). eauto. }
  destruct (expand_df_total Hsep Hne Hcols Hnd Hwf Hsplit) as (out & Hout & Hrows & Hcolumns).
  exists out. split; [assumption|]. split.
  - rewrite Hrows. apply flat_map_ext_in. intros r Hr. f_equal. f_equal.
    apply shortest_same.
    + destruct cols; [contradiction | discriminate].
    + apply Forall_forall. intros l Hl. apply in_map_iff in Hl.
      destruct Hl as (c & <- & Hc).
      destruct (Hk r Hr c Hc) as (s & l & Hs & Hl & Hlen).
      unfold pieces, value. rewrite Hs. simpl. rewrite Hl. exact Hlen.
  - intros Hrows_ne c. rewrite (Hcolumns Hrows_ne).
    apply In_expanded_columns.
    destruct (rows df) as [|r rs] eqn:E; [contradiction|].
    intros c' Hc'. destruct (Hk r (or_introl eq_refl) c' Hc') as (s & _ & Hs & _).
    unfold wf_frame in Hwf. rewrite E in Hwf. inversion Hwf as [|? ? Hr _]; subst.
    rewrite <- Hr. eapply loc_In_labels; eassumption.
Qed.

(** C4, as the program behaves.  When the expandable cells of a row split
    into lists of different lengths, [expand_df] does not raise: the row
    gives as many rows as the shortest list has pieces, row [i] holding the
    [i]-th piece of every list, and the further pieces of the longer lists
    are left out. *)
Theorem expand_df_zips_to_shortest (df : DataFrame cell) (cols : list string)
  (sep : string) :
  sep <> "" -> cols <> [] -> NoDup cols -> NoDup (columns df) -> wf_frame df ->
  Forall (splittable cols) (rows df) ->
  exists out,
    expand_df df cols sep = Ok out /\
    rows out = flat_map (fun r =>
                 map (expanded_row (columns out) cols sep r)
                     (seq 0 (shortest (map (pieces sep r) cols)))) (rows df) /\
    (forall r c, In c cols ->
       shortest (map (pieces sep r) cols) <= length (pieces sep r c)) /\
    (forall r, exists c, In c cols /\
       shortest (map (pieces sep r) cols) = length (pieces sep r c)).
Proof.
  intros Hsep Hne Hcols Hnd Hwf Hsplit.
  destruct (expand_df_total Hsep Hne Hcols Hnd Hwf Hsplit) as (out & Hout & Hrows & _).
  exists out. repeat split; try assumption.
  - intros r c Hc. apply shortest_le. apply in_map; assumption.
  - intros r. clear - Hne. induction cols as [|c cs IH]; [contradiction|].
    destruct cs as [|c2 cs].
    + exists c. split; [left; reflexivity | reflexivity].
    + destruct IH as (c' & Hc' & Heq); [discriminate|].
      change (shortest (map (pieces sep r) (c :: c2 :: cs)))
        with (Nat.min (length (pieces sep r c))
                      (shortest (map (pieces sep r) (c2 :: cs)))).
      destruct (Nat.le_ge_cases (length (pieces sep r c))
                  (shortest (map (pieces sep r) (c2 :: cs)))) as [Hle|Hge].
      * exists c. split; [left; reflexivity | lia].
      * exists c'. split; [right; assumption | lia].
Qed.

(** C6.  A row whose expandable cells hold no separator gives exactly one
    row, which holds under every column the text of the cell of the input
    row: the content is unchanged and every value has become a string. *)
Theorem expand_df_single_valued (df : DataFrame cell) (cols : list string)
  (sep : string) :
  sep <> "" -> cols <> [] -> NoDup cols -> NoDup (columns df) -> wf_frame df ->
  Forall (splittable cols) (rows df) ->
  exists out emitted,
    expand_df df cols sep = Ok out /\
    rows out = flat_map emitted (rows df) /\
    (rows df <> [] -> forall c, In c (columns out) <-> In c (columns df)) /\
    (forall r, In r (rows df) ->
       (forall c s, In c cols -> loc r c = Ok (CStr s) -> occurs sep s = false) ->
       emitted r = [stringified (columns out) r]).
Proof.
  intros Hsep Hne Hcols Hnd Hwf Hsplit.
  destruct (expand_df_total Hsep Hne Hcols Hnd Hwf Hsplit) as (out & Hout & Hrows & Hcolumns).
  exists out. eexists. split; [exact Hout|]. split; [exact Hrows|]. split.
  - intros Hrows_ne c. rewrite (Hcolumns Hrows_ne).
    apply In_expanded_columns.
    destruct (rows df) as [|r rs] eqn:E; [contradiction|].
    intros c' Hc'. inversion Hsplit as [|? ? Hr _]; subst.
    destruct (Hr c' Hc') as (s & Hs).
    unfold wf_frame in Hwf. rewrite E in Hwf. inversion Hwf as [|? ? Hl _]; subst.
    rewrite <- Hl. eapply loc_In_labels; eassumption.
  - intros r Hr Hsingle. cbv beta.
    assert (Hone : forall c, In c cols ->
              exists s, loc r c = Ok (CStr s) /\ pieces sep r c = [s]).
    { intros c Hc. rewrite Forall_forall in Hsplit.
      destruct (Hsplit r Hr c Hc) as (s & Hs). exists s. split; [assumption|].
      rewrite (pieces_str _ _ Hsep Hs).
      rewrite split_from_absent by (eapply Hsingle; eassumption). reflexivity. }
    rewrite (@shortest_same _ 1).
    + simpl. f_equal. unfold expanded_row, stringified.
      apply map_ext. intros c. destruct (mem c cols) eqn:Hm; [|reflexivity].
      apply mem_In in Hm. destruct (Hone c Hm) as (s & Hs & Hp).
      rewrite Hp. unfold value. rewrite Hs. reflexivity.
    + destruct cols; [contradiction | discriminate].
    + apply Forall_forall. intros l Hl. apply in_map_iff in Hl.
      destruct Hl as (c & <- & Hc). destruct (Hone c Hc) as (s & _ & Hp).
      rewrite Hp. reflexivity.
Qed.

Ltac distinct := repeat constructor; simpl; intuition discriminate.

Lemma expand_df_cardinality_witness :
  exists out,
    expand_df scenario_joined ["TYPE"; "ALT"; "AF"] "," = Ok out /\
    rows out = flat_map (fun r =>
                 map (expanded_row (columns out) ["TYPE"; "ALT"; "AF"] "," r) (seq 0 2))
                 (rows scenario_joined) /\
    (rows scenario_joined <> [] ->
     forall c, In c (columns out) <-> In c (columns scenario_joined)).
Proof.
  apply (@expand_df_cardinality scenario_joined ["TYPE"; "ALT"; "AF"] "," (fun _ => 2)).
  - discriminate.
  - discriminate.
  - distinct.
  - distinct.
  - repeat constructor.
  - intros r [<-|[]] c [<-|[<-|[<-|[]]]]; do 2 eexists; repeat split; reflexivity.
Defined.

(** C4, counterexample.  The table of [mismatched] is expanded without any
    exception, into the one row of the first values; the second values of
    TYPE and AF are lost. *)
Lemma expand_df_mismatched_no_error :
  length (pieces "," mismatched_row "TYPE") = 2 /\
  length (pieces "," mismatched_row "ALT") = 1 /\
  expand_df mismatched ["TYPE"; "ALT"; "AF"] ","
  = Ok (mkDataFrame ["TYPE"; "ALT"; "AF"]
          [[("TYPE", CStr "snp"); ("ALT", CStr "T"); ("AF", CStr "0.4")]]).
Proof. repeat split; reflexivity. Qed.

Lemma expand_df_zips_to_shortest_witness :
  exists out,
    expand_df mismatched ["TYPE"; "ALT"; "AF"] "," = Ok out /\
    rows out = flat_map (fun r =>
                 map (expanded_row (columns out) ["TYPE"; "ALT"; "AF"] "," r)
                     (seq 0 (shortest (map (pieces "," r) ["TYPE"; "ALT"; "AF"]))))
                 (rows mismatched) /\
    (forall r c, In c ["TYPE"; "ALT"; "AF"] ->
       shortest (map (pieces "," r) ["TYPE"; "ALT"; "AF"]) <= length (pieces "," r c)) /\
    (forall r, exists c, In c ["TYPE"; "ALT"; "AF"] /\
       shortest (map (pieces "," r) ["TYPE"; "ALT"; "AF"]) = length (pieces "," r c)).
Proof.
  apply (@expand_df_zips_to_shortest mismatched ["TYPE"; "ALT"; "AF"] ",").
  - discriminate.
  - discriminate.
  - distinct.
  - distinct.
  - repeat constructor.
  - constructor; [|constructor].
    intros c [<-|[<-|[<-|[]]]]; eexists; reflexivity.
Defined.

Lemma expand_df_single_valued_witness :
  exists out emitted,
    expand_df single_valued ["TYPE"; "ALT"; "AF"] "," = Ok out /\
    rows out = flat_map emitted (rows single_valued) /\
    (rows single_valued <> [] ->
     forall c, In c (columns out) <-> In c (columns single_valued)) /\
    (forall r, In r (rows single_valued) ->
       (forall c s, In c ["TYPE"; "ALT"; "AF"] -> loc r c = Ok (CStr s) ->
          occurs "," s = false) ->
       emitted r = [stringified (columns out) r]).
Proof.
  apply (@expand_df_single_valued single_valued ["TYPE"; "ALT"; "AF"] ",").
  - discriminate.
  - discriminate.
  - distinct.
  - distinct.
  - repeat constructor.
  - constructor; [|constructor].
    intros c [<-|[<-|[<-|[]]]]; eexists; reflexivity.
Defined.

Example expand_df_single_valued_run :
  expand_df single_valued ["TYPE"; "ALT"; "AF"] ","
  = Ok (mkDataFrame ["TYPE"; "ALT"; "AF"; "#CHROM"; "POS"]
          [[("TYPE", CStr "snp"); ("ALT", CStr "C"); ("AF", CStr "0.5");
            ("#CHROM", CStr "7"); ("POS", CStr "42")]]).
Proof. reflexivity. Qed.

(** ** The scenario of the specification *)

(** C1 (a defect of the program).  On the row CHROM=1, POS=100, REF=A,
    ALT=T,G, INFO=DP=50;AO=20,5;AF=0.4,0.1;TYPE=snp,snp the stages of
    [subset_vcf] give two rows, one for T and one for G, but AO is not among
    the columns that are expanded: both rows hold the joined text 20,5
    under AO, where the specification expects 20 and 5. *)
Theorem subset_vcf_scenario_keeps_AO_joined :
  exists out,
    subset_vcf scenario = Ok out /\
    mapM (fun r => mapM (loc r)
                     ["#CHROM"; "POS"; "REF"; "ALT"; "TYPE"; "DP"; "AO"; "AF"])
         (rows out)
    = Ok [[CStr "1"; CStr "100"; CStr "A"; CStr "T"; CStr "snp"; CStr "50";
           CStr "20,5"; CStr "0.4"];
          [CStr "1"; CStr "100"; CStr "A"; CStr "G"; CStr "snp"; CStr "50";
           CStr "20,5"; CStr "0.1"]].
Proof.
  eexists. split; reflexivity.
Qed.

(** ** The answer of the service *)

Lemma get_allele_freqs_loop (items : list pyobj) :
  (forall item, In item items -> exists fields, item = PDict fields) ->
  forall acc,
    foldM (fun allele_freqs item =>
             match subscript item "allele_freq" with
             | Ok allele_freq => Ok (allele_freqs ++ [allele_freq])
             | Err (KeyError _) => Ok (allele_freqs ++ [PScalar nan])
             | Err e => Err e
             end) items acc
    = Ok (acc ++ map (fun item => match subscript item "allele_freq" with
                                  | Ok v => v
                                  | Err _ => PScalar nan
                                  end) items).
Proof.
  induction items as [|item items IH]; intros H acc; simpl.
  - rewrite List.app_nil_r. reflexivity.
  - destruct (H item (or_introl eq_refl)) as (fields & ->).
    assert (Hsub : (exists v, subscript (PDict fields) "allele_freq" = Ok v) \/
                   (exists k, subscript (PDict fields) "allele_freq" = Err (KeyError k))).
    { simpl. unfold dict_get. destruct (find _ fields); eauto. }
    destruct Hsub as [(v & Hv)|(k & Hk)].
    + rewrite Hv. cbn [bind]. rewrite IH by (intros; apply H; right; assumption).
      rewrite <- List.app_assoc. reflexivity.
    + rewrite Hk. cbn [bind]. rewrite IH by (intros; apply H; right; assumption).
      rewrite <- List.app_assoc. reflexivity.
Qed.

(** C8.  On an answer whose entries are objects, [get_allele_freqs] and
    [get_cprv] return two lists of the length of the answer; at every index
    the second holds the key of the entry and the first holds the value of
    its [allele_freq] field when the entry has one and [nan] when it has
    none.  A missing field never raises. *)
Theorem get_allele_freqs_aligned (d : list (string * pyobj)) :
  (forall k item, In (k, item) d -> exists fields, item = PDict fields) ->
  exists freqs keys,
    get_allele_freqs (PDict d) = Ok freqs /\
    get_cprv (PDict d) = Ok keys /\
    length freqs = length d /\
    length keys = length d /\
    forall i k fields, nth_error d i = Some (k, PDict fields) ->
      nth_error keys i = Some (PScalar (CStr k)) /\
      (forall v, dict_get fields "allele_freq" = Ok v -> nth_error freqs i = Some v) /\
      ((forall v, dict_get fields "allele_freq" <> Ok v) ->
       nth_error freqs i = Some (PScalar nan)).
Proof.
  intros Hd. do 2 eexists.
  split; [|split; [reflexivity|]].
  - unfold get_allele_freqs. apply get_allele_freqs_loop.
    intros item Hitem. unfold dict_values in Hitem. apply in_map_iff in Hitem.
    destruct Hitem as ([k x] & <- & Hin). apply (Hd k x Hin).
  - simpl. unfold dict_values, dict_keys. rewrite !length_map.
    split; [reflexivity|]. split; [reflexivity|].
    intros i k fields Hi. rewrite !map_map. split; [|split].
    + rewrite nth_error_map, Hi. reflexivity.
    + intros v Hv. rewrite nth_error_map, Hi. simpl. rewrite Hv. reflexivity.
    + intros Hv. rewrite nth_error_map, Hi. simpl.
      destruct (dict_get fields "allele_freq") as [v|e] eqn:E; [|reflexivity].
      exfalso. apply (Hv v). reflexivity.
Qed.

Lemma get_allele_freqs_aligned_witness :
  exists freqs keys,
    get_allele_freqs (PDict scenario_answer) = Ok freqs /\
    get_cprv (PDict scenario_answer) = Ok keys /\
    length freqs = length scenario_answer /\
    length keys = length scenario_answer /\
    forall i k fields, nth_error scenario_answer i = Some (k, PDict fields) ->
      nth_error keys i = Some (PScalar (CStr k)) /\
      (forall v, dict_get fields "allele_freq" = Ok v -> nth_error freqs i = Some v) /\
      ((forall v, dict_get fields "allele_freq" <> Ok v) ->
       nth_error freqs i = Some (PScalar nan)).
Proof.
  apply (@get_allele_freqs_aligned scenario_answer).
  intros k item [H|[H|[]]]; injection H as <- <-; eexists; reflexivity.
Defined.

Example get_allele_freqs_scenario :
  get_allele_freqs (PDict scenario_answer)
  = Ok [PScalar (CFloat "0.25"); PScalar nan] /\
  get_cprv (PDict scenario_answer)
  = Ok [PScalar (CStr "1-100-A-T"); PScalar (CStr "1-100-A-G")].
Proof. split; reflexivity. Qed.

(** ** Selection of columns *)

Lemma filter_none {B : Type} (f : B -> bool) (l : list B) :
  (forall x, In x l -> f x = false) -> filter f l = [].
Proof.
  induction l as [|x l IH]; intros H; simpl; [reflexivity|].
  rewrite (H x (or_introl eq_refl)). apply IH. intros; apply H; right; assumption.
Qed.

Lemma Forall2_map_right {A B : Type} (R : A -> B -> Prop) (g : A -> B) (l : list A) :
  (forall a, In a l -> R a (g a)) -> Forall2 R l (map g l).
Proof.
  induction l as [|a l IH]; intros H; simpl; constructor.
  - apply H; left; reflexivity.
  - apply IH. intros; apply H; right; assumption.
Qed.

Lemma filter_unique {B : Type} (lab : B -> string) (xs : list B) (x : B) :
  NoDup (map lab xs) -> In x xs ->
  filter (fun y => lab y =? lab x) xs = [x].
Proof.
  induction xs as [|y xs IH]; intros Hnd Hin; [destruct Hin|].
  inversion Hnd as [|? ? Hnin Hnd']; subst. simpl.
  destruct Hin as [->|Hin].
  - rewrite String.eqb_refl. f_equal.
    apply filter_none.
    intros z Hz. destruct (String.eqb_spec (lab z) (lab x)) as [E|]; [|reflexivity].
    exfalso. apply Hnin. rewrite <- E. apply in_map; assumption.
  - destruct (String.eqb_spec (lab y) (lab x)) as [E|_].
    + exfalso. apply Hnin. rewrite E. apply in_map; assumption.
    + apply IH; assumption.
Qed.

Lemma concat_singletons {A B : Type} (f : A -> B) (l : list A) :
  concat (map (fun x => [f x]) l) = map f l.
Proof.
  induction l as [|x l IH]; simpl; [reflexivity | rewrite IH; reflexivity].
Qed.

(** Selecting labels that all occur once gives one entry per label, in the
    order of the selection. *)
Lemma pick_unique {B : Type} (lab : B -> string) (xs : list B) (ls : list string)
  (sel : string -> B) :
  NoDup (map lab xs) ->
  (forall l, In l ls -> In (sel l) xs /\ lab (sel l) = l) ->
  pick lab xs ls = Ok (map sel ls).
Proof.
  intros Hnd Hsel. unfold pick.
  rewrite (@mapM_map _ _ _ (fun l => [sel l])).
  - cbn [bind]. rewrite concat_singletons. reflexivity.
  - intros l Hl. destruct (Hsel l Hl) as [Hin Hlab].
    pose proof (filter_unique lab xs (sel l) Hnd Hin) as F.
    rewrite Hlab in F. rewrite F. reflexivity.
Qed.

Lemma loc_unique {A : Type} (r : Series A) (c : string) (v : A) :
  NoDup (labels r) -> In (c, v) r -> loc r c = Ok v.
Proof.
  intros Hnd Hin. unfold loc.
  induction r as [|[l x] r IH]; [destruct Hin|].
  inversion Hnd as [|? ? Hnin Hnd']; subst. simpl.
  destruct Hin as [E|Hin].
  - injection E as -> ->. rewrite String.eqb_refl. reflexivity.
  - destruct (String.eqb_spec l c) as [->|_]; [|apply IH; assumption].
    exfalso. apply Hnin. apply (in_map fst) in Hin. exact Hin.
Qed.

Lemma loc_found {A : Type} (r : Series A) (c : string) (v : A) :
  loc r c = Ok v -> In (c, v) r.
Proof.
  unfold loc. destruct (find _ r) as [[l x]|] eqn:E; [|discriminate].
  intros H; injection H as <-. apply find_some in E. destruct E as [Hin Heq].
  simpl in Heq. apply String.eqb_eq in Heq. subst l. exact Hin.
Qed.

(** C9.  Whatever the order of the columns of the merged table, and whatever
    further columns it has, [write_output] hands to the writer the columns
    #CHROM, POS, REF, ALT, TYPE, DP, AO, AF, ALLELE_FREQUENCY(ExAC) in this
    order; every row is written with its cells under these labels. *)
Theorem write_output_column_order (file_name : string) (df : DataFrame pyobj) :
  NoDup (columns df) -> wf_frame df ->
  (forall c, In c output_columns -> In c (columns df)) ->
  exists f,
    write_output file_name df = Ok f /\
    columns (table f) = output_columns /\
    Forall2 (fun r w => labels w = output_columns /\
                        forall c, In c output_columns -> loc w c = loc r c)
            (rows df) (rows (table f)).
Proof.
  intros Hnd Hwf Hall.
  set (sel := fun (r : Series pyobj) (c : string) =>
                (c, match loc r c with Ok v => v | Err _ => PScalar CNone end)).
  assert (Hrow : forall r, In r (rows df) ->
            pick fst r output_columns = Ok (map (sel r) output_columns)).
  { intros r Hr. unfold wf_frame in Hwf. rewrite Forall_forall in Hwf.
    specialize (Hwf r Hr). apply pick_unique.
    - fold (labels r). rewrite Hwf. assumption.
    - intros c Hc. unfold sel. split; [|reflexivity].
      destruct (@loc_labelled _ c r) as (v & Hv); [rewrite Hwf; apply Hall; assumption|].
      rewrite Hv. apply loc_found; assumption. }
  assert (Hrun : write_output file_name df
                 = Ok (mkCsv (py_join "/" ["./output"; (file_name ++ "_annotated.vcf")%string])
                         tab
                         (mkDataFrame output_columns
                            (map (fun r => map (sel r) output_columns) (rows df))))).
  { unfold write_output, getitem_list. fold output_columns.
    rewrite (@pick_unique _ (fun c => c) (columns df) output_columns (fun c => c)).
    2: { rewrite map_id. assumption. }
    2: { intros l Hl. split; [apply Hall; assumption | reflexivity]. }
    cbn [bind]. rewrite map_id.
    pose proof (@mapM_map _ _ _ (fun r => map (sel r) output_columns) (rows df) Hrow) as Hm.
    unfold Series in *. rewrite Hm. reflexivity. }
  eexists. split; [exact Hrun|]. split; [reflexivity|].
  cbn [rows table]. apply Forall2_map_right. intros r Hr. split.
  - reflexivity.
  - intros c Hc. unfold wf_frame in Hwf. rewrite Forall_forall in Hwf.
    specialize (Hwf r Hr).
    destruct (@loc_labelled _ c r) as (v & Hv); [rewrite Hwf; apply Hall; assumption|].
    rewrite Hv. apply loc_unique.
    + change (NoDup output_columns). distinct.
    + apply in_map_iff. exists c. split; [|assumption].
      unfold sel. rewrite Hv. reflexivity.
Qed.

Lemma write_output_column_order_witness :
  exists f,
    write_output "sample" shuffled = Ok f /\
    columns (table f) = output_columns /\
    Forall2 (fun r w => labels w = output_columns /\
                        forall c, In c output_columns -> loc w c = loc r c)
            (rows shuffled) (rows (table f)).
Proof.
  apply (@write_output_column_order "sample" shuffled).
  - distinct.
  - repeat constructor.
  - intros c Hc. simpl in Hc. simpl. intuition.
Defined.

Example write_output_shuffled :
  exists f, write_output "sample" shuffled = Ok f /\
    path f = "./output/sample_annotated.vcf" /\
    columns (table f) = output_columns.
Proof. eexists. repeat split. Qed.

(** ** The text of an integer *)

Lemma digits_of_uint (d : Decimal.uint) :
  forallb is_digit (list_ascii_of_string (NilEmpty.string_of_uint d)) = true.
Proof.
  induction d; simpl; try assumption; reflexivity.
Qed.

Lemma to_uint_head (p : positive) :
  Pos.to_uint p <> Decimal.Nil /\ forall d, Pos.to_uint p <> Decimal.D0 d.
Proof.
  split; [apply DecimalPos.Unsigned.to_uint_nonnil|].
  intros d E.
  assert (Hn : Decimal.unorm (Pos.to_uint p) = Pos.to_uint p).
  { rewrite <- DecimalPos.Unsigned.to_of, DecimalPos.Unsigned.of_to. reflexivity. }
  assert (Hz : Decimal.nzhead (Pos.to_uint p) <> Decimal.Nil).
  { intros H. apply unorm_0 in H. rewrite Hn in H.
    revert H. apply DecimalPos.Unsigned.to_uint_nonzero. }
  rewrite (unorm_nzhead _ Hz) in Hn.
  apply (nzhead_nonzero (Pos.to_uint p) d). rewrite Hn. exact E.
Qed.

Lemma canonical_text_of_pos (p : positive) :
  exists c s, NilZero.string_of_uint (Pos.to_uint p) = String c s /\
    is_digit c = true /\ Ascii.eqb c "0" = false /\
    forallb is_digit (list_ascii_of_string s) = true.
Proof.
  destruct (to_uint_head p) as [Hnil Hzero].
  destruct (Pos.to_uint p) as [|d|d|d|d|d|d|d|d|d|d];
    [contradiction | exfalso; apply (Hzero d); reflexivity | ..];
    simpl; do 2 eexists; (split; [reflexivity|]);
    (split; [reflexivity|]); (split; [reflexivity|]); apply digits_of_uint.
Qed.

(** [str] of an integer is its decimal text: digits after an optional
    sign, no zero in front, no decimal point. *)
Lemma py_str_int_canonical (z : Z) : canonical_int_text (py_str (CInt z)) = true.
Proof.
  destruct z as [|p|p]; [reflexivity | |];
    unfold py_str, Z.to_int, NilZero.string_of_int;
    destruct (canonical_text_of_pos p) as (c & s & E & Hc & H0 & Hs); rewrite E.
  - unfold canonical_int_text.
    destruct (Ascii.eqb_spec c "-") as [->|_]; [discriminate Hc|].
    unfold canonical_nat_text. rewrite Hc, Hs, H0. reflexivity.
  - unfold canonical_int_text. rewrite Ascii.eqb_refl.
    unfold canonical_nat_text. rewrite Hc, Hs, H0. simpl.
    rewrite H0. reflexivity.
Qed.

(** ** [build_cprv_col] *)

Lemma mapM_of_map {A B C : Type} (f : B -> result C) (h : A -> B) (l : list A) :
  mapM f (map h l) = mapM (fun a => f (h a)) l.
Proof.
  induction l as [|a l IH]; simpl; [reflexivity | rewrite IH; reflexivity].
Qed.

Lemma value_loc (r : Series cell) (c : string) :
  In c (labels r) -> loc r c = Ok (value r c).
Proof.
  intros H. destruct (loc_labelled c r H) as (v & Hv).
  unfold value. rewrite Hv. reflexivity.
Qed.

Lemma value_set_item_same (r : Series cell) (c : string) (v : cell) :
  value (set_item r c v) c = v.
Proof. unfold value. rewrite loc_set_item_same. reflexivity. Qed.

Lemma value_set_item_other (r : Series cell) (c c' : string) (v : cell) :
  c' <> c -> value (set_item r c v) c' = value r c'.
Proof. intros H. unfold value. rewrite loc_set_item_other by assumption. reflexivity. Qed.

Lemma In_labels_set_item {A : Type} (r : Series A) (c c' : string) (v : A) :
  In c' (labels (set_item r c v)) <-> c' = c \/ In c' (labels r).
Proof.
  induction r as [|[l x] r IH]; simpl.
  - intuition congruence.
  - destruct (String.eqb_spec l c) as [->|Hne]; simpl.
    + intuition congruence.
    + rewrite IH. intuition congruence.
Qed.

Lemma getitem_value (df : DataFrame cell) (label : string) :
  In label (columns df) ->
  (forall r, In r (rows df) -> In label (labels r)) ->
  getitem df label = Ok (map (fun r => value r label) (rows df)).
Proof.
  intros Hcol Hrows. unfold getitem.
  assert (E : existsb (String.eqb label) (columns df) = true)
    by (apply (mem_In label (columns df)); assumption).
  rewrite E. apply mapM_map. intros r Hr. apply value_loc, Hrows, Hr.
Qed.

Lemma setitem_map {A : Type} (df : DataFrame A) (label : string)
  (f : Series A -> Series A) (g : Series A -> A) (rs : list (Series A)) :
  rows df = map f rs ->
  setitem df label (map g rs)
  = mkDataFrame (if existsb (String.eqb label) (columns df)
                 then columns df else columns df ++ [label])
                (map (fun r => set_item (f r) label (g r)) rs).
Proof.
  intros E. unfold setitem. rewrite E, combine_map_same, map_map. reflexivity.
Qed.

Section Cprv.

Variables (cols1 : list string) (rs : list (Series cell)).
Hypothesis has_cprv : In "CPRV" cols1.

Lemma cprv_step (K : Series cell -> string) (column : string) :
  column <> "CPRV" -> In column cols1 ->
  (forall r, In r rs -> In column (labels r)) ->
  (cprv <- getitem (keyed cols1 rs K) "CPRV" ;;
   values <- getitem (keyed cols1 rs K) column ;;
   sums <- mapM (fun xy => add_str (fst xy) ("-" ++ py_str (snd xy)))
                (combine cprv values) ;;
   Ok (setitem (keyed cols1 rs K) "CPRV" sums))
  = Ok (keyed cols1 rs (fun r => (K r ++ "-" ++ py_str (value r column))%string)).
Proof.
  intros Hne Hcol Hrows.
  rewrite getitem_value; [|exact has_cprv|].
  2: { intros r' Hr'. unfold keyed in Hr'. simpl in Hr'. apply in_map_iff in Hr'.
       destruct Hr' as (r & <- & _). apply In_labels_set_item. left; reflexivity. }
  cbn [bind]. rewrite getitem_value; [|exact Hcol|].
  2: { intros r' Hr'. unfold keyed in Hr'. simpl in Hr'. apply in_map_iff in Hr'.
       destruct Hr' as (r & <- & Hr). apply In_labels_set_item. right.
       apply Hrows; assumption. }
  cbn [bind]. unfold keyed at 1 2. cbn [rows]. rewrite !map_map.
  rewrite combine_map_same, mapM_of_map.
  rewrite (@mapM_map _ _ _
             (fun r => CStr (K r ++ "-" ++ py_str (value r column))%string)).
  2: { intros r Hr. cbn [fst snd].
       rewrite value_set_item_same, value_set_item_other by assumption.
       reflexivity. }
  cbn [bind].
  rewrite (@setitem_map _ (keyed cols1 rs K) "CPRV"
             (fun r => set_item r "CPRV" (CStr (K r)))) by reflexivity.
  unfold keyed. cbn [columns].
  assert (E : existsb (String.eqb "CPRV") cols1 = true)
    by (apply (mem_In "CPRV" cols1); exact has_cprv).
  rewrite E. do 2 f_equal. apply map_ext. intros r. apply set_item_twice.
Qed.

End Cprv.

Lemma cprv_text_assoc (c p r a : string) :
  ((((c ++ "-" ++ p) ++ "-" ++ r) ++ "-" ++ a)%string) = cprv_text c p r a.
Proof.
  unfold cprv_text. rewrite !append_assoc. reflexivity.
Qed.

(** What [build_cprv_col] returns when the chromosome cells are strings. *)
Lemma build_cprv_col_rows (df : DataFrame cell)
  (chromosome position reference variant : string) :
  position <> "CPRV" -> reference <> "CPRV" -> variant <> "CPRV" ->
  wf_frame df ->
  In chromosome (columns df) -> In position (columns df) ->
  In reference (columns df) -> In variant (columns df) ->
  (forall r, In r (rows df) -> exists c, loc r chromosome = Ok (CStr c)) ->
  build_cprv_col df chromosome position reference variant
  = Ok (mkDataFrame
          (if existsb (String.eqb "CPRV") (columns df)
           then columns df else columns df ++ ["CPRV"])
          (map (fun r => set_item r "CPRV"
                           (CStr (cprv_of chromosome position reference variant r)))
               (rows df))).
Proof.
  intros Hp Hr Hv Hwf Hc1 Hc2 Hc3 Hc4 Hchrom.
  unfold wf_frame in Hwf. rewrite Forall_forall in Hwf.
  assert (Hlab : forall c, In c (columns df) ->
            forall r, In r (rows df) -> In c (labels r)).
  { intros c Hc r Hin. rewrite (Hwf r Hin). exact Hc. }
  unfold build_cprv_col.
  rewrite getitem_value by auto. cbn [bind].
  rewrite (@setitem_map _ df "CPRV" (fun r => r)) by (symmetry; apply map_id).
  set (cols1 := if existsb (String.eqb "CPRV") (columns df)
                then columns df else columns df ++ ["CPRV"]).
  assert (Hcprv : In "CPRV" cols1).
  { unfold cols1. destruct (existsb (String.eqb "CPRV") (columns df)) eqn:E.
    - apply (mem_In "CPRV" (columns df)); exact E.
    - apply in_or_app. right; left; reflexivity. }
  assert (Hsub : forall c, In c (columns df) -> In c cols1).
  { intros c Hc. unfold cols1. destruct (existsb _ (columns df)); [assumption|].
    apply in_or_app. left; assumption. }
  rewrite (map_ext_in (fun r => set_item r "CPRV" (value r chromosome))
                      (fun r => set_item r "CPRV"
                                  (CStr (py_str (value r chromosome))))).
  2: { intros r Hin. destruct (Hchrom r Hin) as (c & Hcv).
       unfold value. rewrite Hcv. reflexivity. }
  change (mkDataFrame cols1
            (map (fun r => set_item r "CPRV" (CStr (py_str (value r chromosome))))
                 (rows df)))
    with (keyed cols1 (rows df) (fun r => py_str (value r chromosome))).
  cbn [foldM]. cbn beta.
  rewrite (@cprv_step cols1 (rows df) Hcprv) by auto. cbn [bind].
  rewrite (@cprv_step cols1 (rows df) Hcprv) by auto. cbn [bind].
  rewrite (@cprv_step cols1 (rows df) Hcprv) by auto. cbn [bind].
  unfold keyed. do 2 f_equal. apply map_ext. intros r. unfold cprv_of.
  rewrite cprv_text_assoc. reflexivity.
Qed.

(** C7 (as amended).  On a table whose chromosome cells are strings, as in
    every expanded table, [build_cprv_col] puts under CPRV the texts that
    [str] gives for the chromosome, the position, the reference and the
    alternate of the row, joined by hyphens; on an expanded table these
    four cells are texts and stand in the key as they are.  The position
    is rendered by [str] and by nothing else: a position that is an
    integer stands in the key in decimal without leading zero or decimal
    point, and any other position stands as its text, whatever that text
    is.  The key is a function of the four cells alone. *)
Theorem build_cprv_col_key (df : DataFrame cell)
  (chromosome position reference variant : string) :
  position <> "CPRV" -> reference <> "CPRV" -> variant <> "CPRV" ->
  wf_frame df ->
  In chromosome (columns df) -> In position (columns df) ->
  In reference (columns df) -> In variant (columns df) ->
  (forall r, In r (rows df) -> exists c, loc r chromosome = Ok (CStr c)) ->
  exists out,
    build_cprv_col df chromosome position reference variant = Ok out /\
    rows out = map (fun r => set_item r "CPRV"
                     (CStr (cprv_of chromosome position reference variant r)))
                   (rows df) /\
    (forall r c p f a,
       value r chromosome = CStr c -> value r position = CStr p ->
       value r reference = CStr f -> value r variant = CStr a ->
       cprv_of chromosome position reference variant r
       = (c ++ "-" ++ p ++ "-" ++ f ++ "-" ++ a)%string) /\
    (forall r z,
       value r position = CInt z ->
       canonical_int_text (py_str (value r position)) = true) /\
    (forall r r',
       value r chromosome = value r' chromosome ->
       value r position = value r' position ->
       value r reference = value r' reference ->
       value r variant = value r' variant ->
       cprv_of chromosome position reference variant r
       = cprv_of chromosome position reference variant r').
Proof.
  intros Hp Hr Hv Hwf Hc1 Hc2 Hc3 Hc4 Hchrom.
  eexists. split; [apply build_cprv_col_rows; assumption|].
  split; [reflexivity|]. split; [|split].
  - intros r c p f a E1 E2 E3 E4. unfold cprv_of, cprv_text.
    rewrite E1, E2, E3, E4. reflexivity.
  - intros r z E. rewrite E. apply py_str_int_canonical.
  - intros r r' E1 E2 E3 E4. unfold cprv_of. rewrite E1, E2, E3, E4. reflexivity.
Qed.

Lemma build_cprv_col_key_witness :
  exists out,
    build_cprv_col expanded "#CHROM" "POS" "REF" "ALT" = Ok out /\
    rows out = map (fun r => set_item r "CPRV"
                     (CStr (cprv_of "#CHROM" "POS" "REF" "ALT" r)))
                   (rows expanded) /\
    (forall r c p f a,
       value r "#CHROM" = CStr c -> value r "POS" = CStr p ->
       value r "REF" = CStr f -> value r "ALT" = CStr a ->
       cprv_of "#CHROM" "POS" "REF" "ALT" r
       = (c ++ "-" ++ p ++ "-" ++ f ++ "-" ++ a)%string) /\
    (forall r z,
       value r "POS" = CInt z ->
       canonical_int_text (py_str (value r "POS")) = true) /\
    (forall r r',
       value r "#CHROM" = value r' "#CHROM" ->
       value r "POS" = value r' "POS" ->
       value r "REF" = value r' "REF" ->
       value r "ALT" = value r' "ALT" ->
       cprv_of "#CHROM" "POS" "REF" "ALT" r = cprv_of "#CHROM" "POS" "REF" "ALT" r').
Proof.
  apply (@build_cprv_col_key expanded "#CHROM" "POS" "REF" "ALT").
  - discriminate.
  - discriminate.
  - discriminate.
  - repeat constructor.
  - simpl; intuition.
  - simpl; intuition.
  - simpl; intuition.
  - simpl; intuition.
  - intros r [<-|[<-|[]]]; eexists; reflexivity.
Defined.

(** C7, counterexample.  The position is not brought to a canonical form.
    On an expanded table whose position is the text 0100 the key is
    1-0100-A-T, with the zero in front; on a table whose position is the
    float 100.0 the key is 1-100.0-A-T, with the decimal point; and a table
    read with a float POS column goes through [subset_vcf] and
    [build_cprv_col] to the key chr1-100.0-A-T. *)
Theorem build_cprv_col_position_not_canonical :
  (df <- build_cprv_col padded_position "#CHROM" "POS" "REF" "ALT" ;;
   getitem df "CPRV") = Ok [CStr "1-0100-A-T"]
  /\ canonical_int_text "0100" = false
  /\ (df <- build_cprv_col float_position "#CHROM" "POS" "REF" "ALT" ;;
      getitem df "CPRV") = Ok [CStr "1-100.0-A-T"]
  /\ canonical_int_text "100.0" = false
  /\ (df <- subset_vcf float_scenario ;;
      df <- build_cprv_col df "#CHROM" "POS" "REF" "ALT" ;;
      getitem df "CPRV") = Ok [CStr "chr1-100.0-A-T"].
Proof. repeat split; reflexivity. Qed.

Example build_cprv_col_expanded :
  (df <- build_cprv_col expanded "#CHROM" "POS" "REF" "ALT" ;; getitem df "CPRV")
  = Ok [CStr "1-100-A-T"; CStr "1-100-A-G"].
Proof. reflexivity. Qed.

Example build_cprv_col_integer_chromosome :
  build_cprv_col scenario_joined "#CHROM" "POS" "REF" "ALT"
  = Err (TypeError "unsupported operand type(s) for +").
Proof. reflexivity. Qed.

(** ** [get_exac_data] *)

Lemma loc_map_snd {A B : Type} (f : A -> B) (r : Series A) (c : string) :
  loc (map (fun p => (fst p, f (snd p))) r) c
  = match loc r c with Ok v => Ok (f v) | Err e => Err e end.
Proof.
  unfold loc. rewrite (find_map_fst (fun p => (fst p, f (snd p)))) by reflexivity.
  destruct (find _ r); reflexivity.
Qed.

Lemma getitem_ok {A : Type} (df : DataFrame A) (label : string) (g : Series A -> A) :
  In label (columns df) ->
  (forall r, In r (rows df) -> loc r label = Ok (g r)) ->
  getitem df label = Ok (map g (rows df)).
Proof.
  intros Hcol Hrows. unfold getitem.
  assert (E : existsb (String.eqb label) (columns df) = true)
    by (apply (mem_In label (columns df)); assumption).
  rewrite E. apply mapM_map. exact Hrows.
Qed.

Lemma filter_map_comm {A B : Type} (p : B -> bool) (h : A -> B) (l : list A) :
  filter p (map h l) = map h (filter (fun a => p (h a)) l).
Proof.
  induction l as [|a l IH]; simpl; [reflexivity|].
  destruct (p (h a)); simpl; rewrite IH; reflexivity.
Qed.

Lemma flat_map_map_out {A B C : Type} (f : B -> C) (g : A -> list B) (l : list A) :
  flat_map (fun a => map f (g a)) l = map f (flat_map g l).
Proof.
  induction l as [|a l IH]; simpl; [reflexivity|].
  rewrite IH, map_app. reflexivity.
Qed.

(** Gathering a list group by group rearranges it, when every element
    belongs to the group of exactly one key. *)
Lemma group_perm {A K : Type} (kb : K -> A -> bool) (U : list K) (R : list A) :
  (forall r, In r R -> exists U1 u U2,
      U = U1 ++ u :: U2 /\ kb u r = true /\
      forall v, In v (U1 ++ U2) -> kb v r = false) ->
  Permutation (flat_map (fun u => filter (kb u) R) U) R.
Proof.
  induction R as [|r R IH]; intros H.
  - clear H. simpl. induction U as [|u U IHU]; simpl; [apply perm_nil | exact IHU].
  - destruct (H r (or_introl eq_refl)) as (U1 & u & U2 & EU & Hu & Hv).
    specialize (IH (fun x Hx => H x (or_intror Hx))).
    subst U. rewrite flat_map_app in *. simpl in *. rewrite Hu.
    rewrite (flat_map_ext_in (fun u0 => if kb u0 r then r :: filter (kb u0) R
                                        else filter (kb u0) R)
                             (fun u0 => filter (kb u0) R) U1).
    2: { intros v Hin. rewrite Hv; [reflexivity|]. apply in_or_app; left; assumption. }
    rewrite (flat_map_ext_in (fun u0 => if kb u0 r then r :: filter (kb u0) R
                                        else filter (kb u0) R)
                             (fun u0 => filter (kb u0) R) U2).
    2: { intros v Hin. rewrite Hv; [reflexivity|]. apply in_or_app; right; assumption. }
    simpl. apply Permutation_sym.
    apply Permutation_cons_app. apply Permutation_sym. exact IH.
Qed.

Lemma key_eqb_key_of (a b : string) : key_eqb (key_of a) (key_of b) = String.eqb a b.
Proof. reflexivity. Qed.

Lemma In_unique_keys (ks : list string) (y : pyobj) :
  In y (unique (map key_of ks)) <-> In y (map key_of ks).
Proof.
  induction ks as [|k ks IH]; cbn [unique map In]; [reflexivity|].
  rewrite filter_In, IH. split.
  - intros [H|[H _]]; auto.
  - intros [H|H]; [left; assumption|].
    destruct (key_eqb (key_of k) y) eqn:E.
    + left. apply in_map_iff in H. destruct H as (s & <- & _).
      rewrite key_eqb_key_of in E. apply String.eqb_eq in E. subst; reflexivity.
    + right. split; [assumption | reflexivity].
Qed.

Lemma NoDup_unique_keys (ks : list string) : NoDup (unique (map key_of ks)).
Proof.
  induction ks as [|k ks IH]; cbn [unique map]; constructor.
  - rewrite filter_In. intros [_ H]. cbv beta in H.
    rewrite key_eqb_key_of, String.eqb_refl in H.
    discriminate.
  - apply NoDup_filter. exact IH.
Qed.

Lemma In_split_unique {A : Type} (U : list A) (u : A) :
  NoDup U -> In u U ->
  exists U1 U2, U = U1 ++ u :: U2 /\ ~ In u (U1 ++ U2).
Proof.
  intros Hnd Hin. destruct (in_split u U Hin) as (U1 & U2 & ->).
  exists U1, U2. split; [reflexivity|]. apply NoDup_remove_2; assumption.
Qed.

Lemma getitem_total {A : Type} (dflt : A) (df : DataFrame A) (label : string) :
  In label (columns df) ->
  (forall r, In r (rows df) -> In label (labels r)) ->
  getitem df label
  = Ok (map (fun r => match loc r label with Ok v => v | Err _ => dflt end) (rows df)).
Proof.
  intros Hcol Hrows. apply getitem_ok; [assumption|].
  intros r Hr. destruct (loc_labelled label r (Hrows r Hr)) as (v & Hv).
  rewrite Hv. reflexivity.
Qed.

Lemma flat_map_singleton {A B : Type} (f : A -> B) (l : list A) :
  flat_map (fun a => [f a]) l = map f l.
Proof.
  induction l as [|a l IH]; simpl; [reflexivity | rewrite IH; reflexivity].
Qed.

Lemma filter_key (d : list (string * pyobj)) (s : string) (item : pyobj) :
  NoDup (dict_keys d) -> In (s, item) d ->
  filter (fun a => key_eqb (key_of s) (key_of (fst a))) d = [(s, item)].
Proof.
  intros Hnd Hin.
  rewrite (filter_ext _ (fun y => fst y =? fst (s, item)))
    by (intros a; cbn [fst]; rewrite key_eqb_key_of; apply String.eqb_sym).
  apply filter_unique; assumption.
Qed.

Lemma frequency_found (d : list (string * pyobj)) (s : string) (item : pyobj) :
  NoDup (dict_keys d) -> In (s, item) d ->
  frequency d s = match subscript item "allele_freq" with
                  | Ok v => v
                  | Err _ => PScalar nan
                  end.
Proof.
  intros Hnd Hin. unfold frequency.
  change (dict_get d s) with (loc d s).
  rewrite (@loc_unique _ d s item Hnd Hin). reflexivity.
Qed.

Lemma filter_all {A : Type} (f : A -> bool) (l : list A) :
  (forall x, In x l -> f x = true) -> filter f l = l.
Proof.
  induction l as [|x l IH]; intros H; simpl; [reflexivity|].
  rewrite (H x (or_introl eq_refl)). f_equal. apply IH.
  intros; apply H; right; assumption.
Qed.

Section Merge.

Variables (exac : list cell -> result pyobj) (df : DataFrame cell)
          (d : list (string * pyobj)).

Local Abbreviation kf := (cprv_of "#CHROM" "POS" "REF" "ALT").
Local Abbreviation freq_col := "ALLELE_FREQUENCY(ExAC)".

Hypothesis wf : wf_frame df.
Hypothesis has_chrom : In "#CHROM" (columns df).
Hypothesis has_pos : In "POS" (columns df).
Hypothesis has_ref : In "REF" (columns df).
Hypothesis has_alt : In "ALT" (columns df).
Hypothesis no_cprv : ~ In "CPRV" (columns df).
Hypothesis no_freq : ~ In freq_col (columns df).
Hypothesis chrom_str :
  forall r, In r (rows df) -> exists c, loc r "#CHROM" = Ok (CStr c).
Hypothesis answer : exac (map (fun r => CStr (kf r)) (rows df)) = Ok (PDict d).
Hypothesis keys_distinct : NoDup (dict_keys d).
Hypothesis entries_objects :
  forall k item, In (k, item) d -> exists fields, item = PDict fields.
Hypothesis answered : forall r, In r (rows df) -> In (kf r) (dict_keys d).

Lemma get_exac_data_rows :
  get_exac_data exac df
  = Ok (mkDataFrame (columns df ++ [freq_col])
          (flat_map (fun k =>
             map (annotated d)
                 (filter (fun r => key_eqb k (key_of (kf r))) (rows df)))
             (unique (map key_of (map kf (rows df)))))).
Proof.
  unfold get_exac_data.
  rewrite build_cprv_col_rows; try assumption; try discriminate.
  cbn [bind].
  assert (E : existsb (String.eqb "CPRV") (columns df) = false)
    by (apply (mem_false "CPRV" (columns df)); exact no_cprv).
  rewrite E.
  unfold call_exac_server.
  rewrite getitem_value.
  2: { cbn [columns]. apply in_or_app. right; left; reflexivity. }
  2: { cbn [rows]. intros r' Hr'. apply in_map_iff in Hr'.
       destruct Hr' as (r & <- & _). apply In_labels_set_item. left; reflexivity. }
  cbn [rows bind]. rewrite map_map.
  rewrite (map_ext _ (fun r => CStr (kf r)))
    by (intros; apply value_set_item_same).
  rewrite answer. cbn [bind].
  unfold get_allele_freqs. rewrite get_allele_freqs_loop.
  2: { intros item Hitem. unfold dict_values in Hitem. apply in_map_iff in Hitem.
       destruct Hitem as ([k x] & <- & Hin). apply (entries_objects k x Hin). }
  cbn [bind app]. unfold get_cprv, frame_of_lists, dict_values, dict_keys.
  cbn [bind]. rewrite !map_map, !length_map, Nat.eqb_refl. cbn [bind].
  rewrite combine_map_same, map_map. cbn [fst snd].
  set (L := fun r : Series cell =>
              map (fun p => (fst p, PScalar (snd p)))
                  (set_item r "CPRV" (CStr (kf r)))).
  set (G := fun x : string * pyobj =>
              [(freq_col, match subscript (snd x) "allele_freq" with
                          | Ok v => v
                          | Err _ => PScalar nan
                          end);
               ("CPRV", PScalar (CStr (fst x)))]).
  assert (Hmerge :
    merge (objects (mkDataFrame (columns df ++ ["CPRV"])
                      (map (fun r => set_item r "CPRV" (CStr (kf r))) (rows df))))
          (mkDataFrame [freq_col; "CPRV"] (map G d)) "CPRV"
    = Ok (mkDataFrame ((columns df ++ ["CPRV"]) ++ [freq_col])
            (flat_map (fun k =>
               map (fun r => L r ++ [(freq_col, frequency d (kf r))])
                   (filter (fun r => key_eqb k (key_of (kf r))) (rows df)))
               (unique (map (fun r => key_of (kf r)) (rows df)))))).
  { unfold merge, objects. cbn [columns rows]. rewrite map_map. fold L.
    rewrite (@getitem_total _ (PScalar CNone)).
    2: { cbn [columns]. apply in_or_app. right; left; reflexivity. }
    2: { cbn [rows]. intros r' Hr'. apply in_map_iff in Hr'.
         destruct Hr' as (r & <- & _). unfold L, labels. rewrite map_map. cbn [fst].
         apply (In_labels_set_item r "CPRV" "CPRV"). left; reflexivity. }
    cbn [bind rows columns].
    rewrite (@getitem_total _ (PScalar CNone)).
    2: { cbn [columns]. right; left; reflexivity. }
    2: { cbn [rows]. intros r' Hr'. apply in_map_iff in Hr'.
         destruct Hr' as (x & <- & _). right; left; reflexivity. }
    cbn [bind rows columns]. rewrite !map_map.
    rewrite (map_ext (fun r => match loc (L r) "CPRV" with
                               | Ok v => v
                               | Err _ => PScalar CNone
                               end) (fun r => key_of (kf r)))
      by (intros r; unfold L; rewrite loc_map_snd, loc_set_item_same; reflexivity).
    rewrite (map_ext (fun x => match loc (G x) "CPRV" with
                               | Ok v => v
                               | Err _ => PScalar CNone
                               end) (fun x => key_of (fst x)))
      by reflexivity.
    rewrite !combine_map_same.
    assert (Hl : forall c, In c (columns df ++ ["CPRV"]) ->
              suffixed "CPRV" "_x" [freq_col; "CPRV"] c = c).
    { intros c Hc. unfold suffixed.
      destruct (String.eqb_spec c "CPRV") as [->|Hne]; [reflexivity|].
      cbn [negb andb existsb].
      destruct (String.eqb_spec c freq_col) as [->|_].
      - exfalso. apply in_app_or in Hc. destruct Hc as [Hc|[Hc|[]]];
          [apply no_freq; exact Hc | discriminate Hc].
      - destruct (String.eqb_spec c "CPRV"); [contradiction | reflexivity]. }
    assert (Hr : suffixed "CPRV" "_y" (columns df ++ ["CPRV"]) freq_col = freq_col).
    { unfold suffixed.
      assert (Hm : existsb (String.eqb freq_col) (columns df ++ ["CPRV"]) = false).
      { apply (mem_false freq_col (columns df ++ ["CPRV"])).
        intros Hc. apply in_app_or in Hc. destruct Hc as [Hc|[Hc|[]]];
          [apply no_freq; exact Hc | discriminate Hc]. }
      rewrite Hm, andb_false_r. reflexivity. }
    f_equal. f_equal.
    - rewrite (map_ext_in _ (fun c => c) _ Hl), map_id.
      cbn [filter String.eqb Ascii.eqb Bool.eqb negb map]. rewrite Hr. reflexivity.
    - apply flat_map_ext_in. intros k Hk.
      rewrite <- (map_map kf key_of) in Hk. apply In_unique_keys in Hk.
      apply in_map_iff in Hk. destruct Hk as (s & <- & Hs).
      apply in_map_iff in Hs. destruct Hs as (r0 & <- & Hr0).
      pose proof (answered r0 Hr0) as Hd. unfold dict_keys in Hd.
      apply in_map_iff in Hd. destruct Hd as ([s item] & Es & Hitem).
      cbn [fst] in Es. subst s.
      rewrite !filter_map_comm, !map_map. cbn [fst snd].
      rewrite (@filter_key d _ item keys_distinct Hitem).
      cbn [map]. rewrite flat_map_singleton, map_map.
      apply map_ext_in. intros r Hin. apply filter_In in Hin.
      destruct Hin as [Hin Hkey]. rewrite key_eqb_key_of in Hkey.
      apply String.eqb_eq in Hkey.
      f_equal.
      + rewrite <- (map_id (L r)) at 2. apply map_ext_in. intros [c v] Hcv.
        cbn [fst snd]. rewrite Hl; [reflexivity|].
        apply (in_map fst) in Hcv. cbn [fst] in Hcv.
        unfold L in Hcv. rewrite map_map in Hcv. cbn [fst] in Hcv.
        apply (In_labels_set_item r "CPRV" c) in Hcv.
        destruct Hcv as [->|Hc]; [apply in_or_app; right; left; reflexivity|].
        unfold wf_frame in wf. rewrite Forall_forall in wf.
        rewrite (wf r Hin) in Hc. apply in_or_app. left; exact Hc.
      + unfold G. cbn [filter fst snd String.eqb Ascii.eqb Bool.eqb negb map].
        rewrite Hr. rewrite <- Hkey.
        rewrite (@frequency_found d _ item keys_distinct Hitem). reflexivity. }
  rewrite Hmerge. cbn [bind]. unfold drop. cbn [columns rows mapM].
  assert (Hin : existsb (String.eqb "CPRV")
                  ((columns df ++ ["CPRV"]) ++ [freq_col]) = true).
  { apply (mem_In "CPRV" ((columns df ++ ["CPRV"]) ++ [freq_col])).
    apply in_or_app. left. apply in_or_app. right; left; reflexivity. }
  rewrite Hin. cbn [bind].
  assert (Hkeep : forall c, In c (columns df) ->
            negb (existsb (String.eqb c) ["CPRV"]) = true).
  { intros c Hc. cbn [existsb].
    destruct (String.eqb_spec c "CPRV") as [->|_]; [contradiction | reflexivity]. }
  f_equal. f_equal.
  - rewrite !filter_app. rewrite (filter_all _ _ Hkeep).
    simpl. rewrite List.app_nil_r. reflexivity.
  - rewrite <- flat_map_map_out. apply flat_map_ext_in. intros k _.
    rewrite map_map. apply map_ext_in. intros r Hr. apply filter_In in Hr.
    destruct Hr as [Hr _].
    assert (Hlab : labels r = columns df).
    { unfold wf_frame in wf. rewrite Forall_forall in wf. apply wf; assumption. }
    unfold L, annotated. rewrite set_item_absent by (rewrite Hlab; exact no_cprv).
    rewrite map_app, !filter_app. cbn [map fst snd].
    rewrite filter_all.
    + simpl. rewrite List.app_nil_r. reflexivity.
    + intros [c v] Hcv. cbn [fst]. apply Hkeep. rewrite <- Hlab.
      apply in_map_iff in Hcv. destruct Hcv as ([c' v'] & Ecv & Hcv).
      injection Ecv as <- _. apply (in_map fst) in Hcv. exact Hcv.
Qed.

(** The merge rearranges the rows and completes each of them. *)
Lemma get_exac_data_permutation :
  exists out,
    get_exac_data exac df = Ok out /\
    columns out = columns df ++ [freq_col] /\
    Permutation (rows out) (map (annotated d) (rows df)).
Proof.
  eexists. split; [apply get_exac_data_rows|]. split; [reflexivity|].
  cbn [rows]. rewrite flat_map_map_out. apply Permutation_map.
  apply group_perm. intros r Hr.
  assert (Hk : In (key_of (kf r)) (unique (map key_of (map kf (rows df))))).
  { apply In_unique_keys. apply in_map. apply in_map. exact Hr. }
  destruct (@In_split_unique _ _ (key_of (kf r))
              (NoDup_unique_keys (map kf (rows df))) Hk)
    as (U1 & U2 & EU & Hnot).
  exists U1, (key_of (kf r)), U2. split; [exact EU|]. split.
  - rewrite key_eqb_key_of. apply String.eqb_refl.
  - intros v Hv. destruct (key_eqb v (key_of (kf r))) eqn:Ev; [|reflexivity].
    exfalso. apply Hnot.
    assert (Hvin : In v (unique (map key_of (map kf (rows df))))).
    { rewrite EU. apply in_app_or in Hv. apply in_or_app.
      destruct Hv; [left | right; right]; assumption. }
    apply In_unique_keys in Hvin. apply in_map_iff in Hvin.
    destruct Hvin as (s & <- & _). rewrite key_eqb_key_of in Ev.
    apply String.eqb_eq in Ev. subst s. exact Hv.
Qed.

End Merge.

(** C2, as the program behaves.  When the answer of the service has an
    entry, an object, for the key of every row of the expanded table,
    [get_exac_data] returns a table with exactly the rows of the expanded
    table, each one once and completed with the frequency of its key: the
    value of the [allele_freq] field, or [nan] when the entry has none.  The
    rows come gathered by key, so the result is a rearrangement of the rows
    of the input.  (The theorem says nothing of a row whose key has no
    entry.) *)
Theorem get_exac_data_complete (exac : list cell -> result pyobj)
  (df : DataFrame cell) (d : list (string * pyobj)) :
  wf_frame df ->
  In "#CHROM" (columns df) -> In "POS" (columns df) ->
  In "REF" (columns df) -> In "ALT" (columns df) ->
  ~ In "CPRV" (columns df) -> ~ In "ALLELE_FREQUENCY(ExAC)" (columns df) ->
  (forall r, In r (rows df) -> exists c, loc r "#CHROM" = Ok (CStr c)) ->
  exac (map (fun r => CStr (cprv_of "#CHROM" "POS" "REF" "ALT" r)) (rows df))
  = Ok (PDict d) ->
  NoDup (dict_keys d) ->
  (forall k item, In (k, item) d -> exists fields, item = PDict fields) ->
  (forall r, In r (rows df) ->
     In (cprv_of "#CHROM" "POS" "REF" "ALT" r) (dict_keys d)) ->
  exists out,
    get_exac_data exac df = Ok out /\
    columns out = columns df ++ ["ALLELE_FREQUENCY(ExAC)"] /\
    Permutation (rows out) (map (annotated d) (rows df)) /\
    length (rows out) = length (rows df).
Proof.
  intros Hwf H1 H2 H3 H4 H5 H6 H7 H8 H9 H10 H11.
  destruct (@get_exac_data_permutation exac df d Hwf H1 H2 H3 H4 H5 H6 H7 H8 H9 H10 H11)
    as (out & Hout & Hcols & Hperm).
  exists out. repeat split; try assumption.
  rewrite (Permutation_length Hperm). apply length_map.
Qed.

Lemma get_exac_data_complete_witness :
  exists out,
    get_exac_data scenario_exac expanded = Ok out /\
    columns out = columns expanded ++ ["ALLELE_FREQUENCY(ExAC)"] /\
    Permutation (rows out) (map (annotated scenario_answer) (rows expanded)) /\
    length (rows out) = length (rows expanded).
Proof.
  apply (@get_exac_data_complete scenario_exac expanded scenario_answer).
  - repeat constructor.
  - simpl; intuition.
  - simpl; intuition.
  - simpl; intuition.
  - simpl; intuition.
  - simpl; intuition discriminate.
  - simpl; intuition discriminate.
  - intros r [<-|[<-|[]]]; eexists; reflexivity.
  - reflexivity.
  - distinct.
  - intros k item [H|[H|[]]]; injection H as <- <-; eexists; reflexivity.
  - intros r [<-|[<-|[]]]; simpl; intuition.
Defined.

(** C2, counterexample.  The service answers for the first of two keys: no
    exception is raised and the row of the other key is not in the result. *)
Lemma get_exac_data_drops_unanswered_row :
  length (rows expanded) = 2 /\
  get_exac_data partial_exac expanded
  = Ok (mkDataFrame ["#CHROM"; "POS"; "REF"; "ALT"; "AO"; "ALLELE_FREQUENCY(ExAC)"]
          [[("#CHROM", PScalar (CStr "1")); ("POS", PScalar (CStr "100"));
            ("REF", PScalar (CStr "A")); ("ALT", PScalar (CStr "T"));
            ("AO", PScalar (CStr "20"));
            ("ALLELE_FREQUENCY(ExAC)", PScalar (CFloat "0.25"))]]).
Proof. split; reflexivity. Qed.

(** ** [convert_col_to_df] *)

Lemma mapM_err_In {A B : Type} (f : A -> result B) (l : list A) (e : exception) :
  mapM f l = Err e -> exists a, In a l /\ f a = Err e.
Proof.
  induction l as [|a l IH]; simpl; [discriminate|].
  destruct (f a) as [b|e'] eqn:Ea; simpl.
  - destruct (mapM f l) as [bs|e''] eqn:El; simpl; [discriminate|].
    intros H. injection H as <-. destruct (IH eq_refl) as (x & Hx & Hfx).
    exists x. split; [right; assumption | assumption].
  - intros H. injection H as <-. exists a. split; [left; reflexivity | assumption].
Qed.

Lemma width_ge (parts : list (option (list string))) (l : list string) :
  In (Some l) parts -> length l <= width parts.
Proof.
  induction parts as [|p parts IH]; intros H; [destruct H|].
  simpl. destruct H as [->|H].
  - lia.
  - specialize (IH H). destruct p; lia.
Qed.

Lemma width_same (n : nat) (ls : list (list string)) :
  ls <> [] -> Forall (fun l => length l = n) ls -> width (map Some ls) = n.
Proof.
  induction ls as [|l ls IH]; intros Hne H; [contradiction|].
  inversion H as [|? ? Hl Hls]; subst. simpl.
  destruct ls as [|l' ls]; [simpl; lia|].
  rewrite IH by (assumption || discriminate). lia.
Qed.

Lemma has_str_In (column : list cell) :
  has_str column = true <-> exists s, In (CStr s) column.
Proof.
  unfold has_str. rewrite existsb_exists. split.
  - intros ([| | | |s] & Hin & H); try discriminate. eauto.
  - intros (s & Hin). exists (CStr s). split; [assumption | reflexivity].
Qed.

Lemma width_pos (pat : ascii) (column : list cell) :
  has_str column = true -> 0 < width (map (str_split pat) column).
Proof.
  intros H. apply has_str_In in H. destruct H as (s & Hin).
  apply (in_map (str_split pat)) in Hin. simpl in Hin.
  apply width_ge in Hin.
  pose proof (split_from_nonempty (String pat "") s 0 "") as Hne.
  destruct (split_from (String pat "") s 0 ""); [contradiction | simpl in Hin; lia].
Qed.

Lemma split_table_rect (pat : ascii) (column : list cell) (n : nat) :
  Forall (fun l => length l = n) (split_table pat column n).
Proof.
  unfold split_table. apply Forall_forall. intros l Hl.
  apply in_map_iff in Hl. destruct Hl as (p & <- & _).
  rewrite length_map, length_seq. reflexivity.
Qed.

Section Decoder.

Variables (key_value_sep : string) (elem_sep : ascii).

Local Abbreviation header_of :=
  (fun item : cell => parts <- cell_split key_value_sep item ;; py_index parts 0).
Local Abbreviation value_of :=
  (fun x : cell => parts <- cell_split key_value_sep x ;;
                   item <- py_index parts 1 ;; Ok (CStr item)).

(** The decoder once the column is read and holds a string. *)
Lemma convert_col_to_df_steps (df : DataFrame cell) (col : string)
  (column : list cell) :
  getitem df col = Ok column -> has_str column = true ->
  let n := width (map (str_split elem_sep) column) in
  convert_col_to_df df col key_value_sep elem_sep
  = (header <- mapM header_of (hd [] (split_table elem_sep column n)) ;;
     cols <- mapM (mapM value_of) (zip_star (split_table elem_sep column n)) ;;
     Ok (mkDataFrame header (map (combine header) (zip_star cols)))).
Proof.
  intros Hget Hstr n.
  assert (Hn : 0 < n) by (apply width_pos; assumption).
  unfold convert_col_to_df. rewrite Hget. cbn [bind].
  unfold str_split_expand. rewrite Hstr.
  destruct column as [|x column]; [discriminate Hstr|].
  fold n. cbn [bind]. unfold iloc. cbn [rows map nth_error bind].
  assert (Hlen : forall p, length (map position_label (seq 0 n))
                           = length (map (expanded_cell p) (seq 0 n)))
    by (intros; rewrite !length_map; reflexivity).
  rewrite map_snd_combine by apply Hlen.
  unfold split_table. cbn [map hd].
  destruct (mapM header_of (map (expanded_cell (str_split elem_sep x)) (seq 0 n)))
    as [header|e] eqn:Hh; cbn [bind]; [|reflexivity].
  assert (Hhl : length header = n).
  { apply mapM_length in Hh. rewrite Hh, length_map, length_seq. reflexivity. }
  unfold set_columns. cbn [columns rows].
  rewrite Hhl, length_map, length_seq, Nat.eqb_refl. cbn [bind].
  unfold applymap. cbn [columns rows].
  destruct header as [|h header]; [simpl in Hhl; lia|].
  rewrite !map_map.
  assert (Hrow : forall p,
             map snd (combine (h :: header)
                        (map snd (combine (map position_label (seq 0 n))
                                          (map (expanded_cell p) (seq 0 n)))))
             = map (expanded_cell p) (seq 0 n)).
  { intros p. rewrite (map_snd_combine _ _ (Hlen p)).
    apply map_snd_combine. rewrite Hhl, length_map, length_seq. reflexivity. }
  match goal with
  | |- bind (mapM _ (zip_star ?a)) _ = bind (mapM _ (zip_star ?b)) _ =>
      replace a with b; [reflexivity|]
  end.
  cbn [map]. f_equal; [symmetry; apply Hrow|].
  rewrite map_map. apply map_ext. intros a. symmetry. apply Hrow.
Qed.

(** The two functions applied to the cells. *)
Lemma header_of_str (e : string) :
key_value_sep <> "" ->
header_of (CStr e) = Ok (key_part key_value_sep (CStr e)).
Proof.
intros Hkv. unfold cell_split, py_split, key_part.
destruct key_value_sep as [|a kv]; [contradiction|]. cbn [bind].
pose proof (split_from_nonempty (String a kv) e 0 "") as Hne.
destruct (split_from (String a kv) e 0 ""); [contradiction | reflexivity].
Qed.

Lemma header_of_error (c : cell) :
header_of c <> Err index_out_of_range.
Proof.
destruct c as [| | | |e]; try discriminate.
unfold cell_split, py_split.
destruct key_value_sep as [|a kv]; [discriminate|]. cbn [bind].
pose proof (split_from_nonempty (String a kv) e 0 "") as Hne.
destruct (split_from (String a kv) e 0 ""); [contradiction | discriminate].
Qed.

Lemma value_of_str (e : string) :
key_value_sep <> "" ->
if occurs key_value_sep e
then value_of (CStr e) = Ok (value_part key_value_sep (CStr e))
else value_of (CStr e) = Err index_out_of_range.
Proof.
intros Hkv. unfold cell_split, py_split, value_part.
destruct (occurs key_value_sep e) eqn:Ho.
- apply (split_from_second e "" Hkv) in Ho. destruct Ho as (x & y & l & Hs).
  destruct key_value_sep as [|a kv]; [contradiction|].
  cbn [bind]. rewrite Hs. reflexivity.
- rewrite (split_from_absent _ _ "" Ho).
  destruct key_value_sep as [|a kv]; [contradiction|]. reflexivity.
Qed.

Lemma value_of_ok (c v : cell) :
value_of c = Ok v -> exists e, c = CStr e /\ occurs key_value_sep e = true.
Proof.
destruct c as [| | | |e]; try discriminate. intros H.
exists e. split; [reflexivity|].
assert (Hkv : key_value_sep <> "").
{ intros E. rewrite E in H. discriminate H. }
pose proof (value_of_str e Hkv) as Hv.
destruct (occurs key_value_sep e); [reflexivity|].
rewrite Hv in H. discriminate H.
Qed.

Lemma value_of_error (c : cell) :
value_of c = Err index_out_of_range ->
exists e, c = CStr e /\ occurs key_value_sep e = false.
Proof.
destruct c as [| | | |e]; try discriminate. intros H.
exists e. split; [reflexivity|].
assert (Hkv : key_value_sep <> "").
{ intros E. rewrite E in H. discriminate H. }
pose proof (value_of_str e Hkv) as Hv.
destruct (occurs key_value_sep e); [|reflexivity].
rewrite Hv in H. discriminate H.
Qed.

(** The cells of the table of pieces. *)
Lemma split_table_In (column : list cell) (n : nat) (row : list cell) (c : cell) :
In row (split_table elem_sep column n) -> In c row ->
exists x j, In x column /\ j < n /\ c = expanded_cell (str_split elem_sep x) j.
Proof.
unfold split_table. rewrite map_map. intros Hrow Hc.
apply in_map_iff in Hrow. destruct Hrow as (x & <- & Hx).
apply in_map_iff in Hc. destruct Hc as (j & <- & Hj).
apply in_seq in Hj. exists x, j. repeat split; [assumption | lia].
Qed.

Lemma In_split_table (column : list cell) (n : nat) (x : cell) (j : nat) :
In x column -> j < n ->
exists row, In row (split_table elem_sep column n)
            /\ In (expanded_cell (str_split elem_sep x) j) row.
Proof.
intros Hx Hj. exists (map (expanded_cell (str_split elem_sep x)) (seq 0 n)). split.
- unfold split_table. rewrite map_map.
  apply (in_map (fun x => map (expanded_cell (str_split elem_sep x)) (seq 0 n))).
  assumption.
- apply in_map. apply in_seq. lia.
Qed.

Lemma expanded_cell_str (x : cell) (j : nat) (e : string) :
expanded_cell (str_split elem_sep x) j = CStr e -> In e (elements elem_sep x).
Proof.
destruct x as [| | | |s]; try discriminate. simpl.
destruct (nth_error (split_from (String elem_sep "") s 0 "") j) as [e'|] eqn:E;
  [|discriminate].
intros H. injection H as <-. apply nth_error_In in E. assumption.
Qed.

Lemma expanded_cells_full (l : list string) :
map (expanded_cell (Some l)) (seq 0 (length l)) = map CStr l.
Proof.
apply nth_error_ext. intros j.
rewrite !nth_error_map.
destruct (nth_error l j) as [e|] eqn:E.
- assert (Hj : j < length l) by (apply nth_error_Some; congruence).
  rewrite (nth_error_nth' _ 0) by (rewrite length_seq; assumption).
  rewrite seq_nth by assumption. simpl. rewrite E. reflexivity.
- apply nth_error_None in E.
  rewrite (proj2 (nth_error_None _ _)) by (rewrite length_seq; assumption).
  reflexivity.
Qed.

Lemma str_split_elements (x : cell) :
is_str x = true -> str_split elem_sep x = Some (elements elem_sep x).
Proof.
destruct x; try discriminate. reflexivity.
Qed.

Lemma width_strings (column : list cell) (m : nat) :
column <> [] ->
Forall (fun x => is_str x = true /\ length (elements elem_sep x) = m) column ->
width (map (str_split elem_sep) column) = m.
Proof.
intros Hne H.
rewrite (map_ext_in (str_split elem_sep) (fun x => Some (elements elem_sep x))).
- rewrite <- (map_map (elements elem_sep) Some). apply width_same.
  + destruct column; [contradiction | discriminate].
  + apply Forall_map. eapply Forall_impl; [|exact H]. intros x [_ Hx]. exact Hx.
- intros x Hx. apply str_split_elements.
  rewrite Forall_forall in H. apply (H x Hx).
Qed.

Lemma split_table_strings (column : list cell) (m : nat) :
Forall (fun x => is_str x = true /\ length (elements elem_sep x) = m) column ->
split_table elem_sep column m = map (fun x => map CStr (elements elem_sep x)) column.
Proof.
intros H. unfold split_table. rewrite map_map.
apply map_ext_in. intros x Hx.
rewrite Forall_forall in H. destruct (H x Hx) as [Hs Hl].
rewrite (str_split_elements _ Hs), <- Hl. apply expanded_cells_full.
Qed.

Lemma has_str_strings (column : list cell) :
column <> [] -> Forall (fun x => is_str x = true) column -> has_str column = true.
Proof.
intros Hne H. destruct column as [|x column]; [contradiction|].
inversion H as [|? ? Hx _]; subst.
destruct x; try discriminate. reflexivity.
Qed.

Lemma elements_nonempty (x : cell) :
is_str x = true -> elements elem_sep x <> [].
Proof.
destruct x; try discriminate. intros _. apply split_from_nonempty.
Qed.

(** The table of pieces is its own double transpose. *)
Lemma split_table_cells (column : list cell) (n : nat) (row : list cell) (c : cell) :
0 < n -> In row (split_table elem_sep column n) -> In c row ->
exists t, In t (zip_star (split_table elem_sep column n)) /\ In c t.
Proof.
intros Hn Hrow Hc.
assert (HT : zip_star (zip_star (split_table elem_sep column n))
             = split_table elem_sep column n).
{ apply zip_star_involutive with (n := n); [|assumption | apply split_table_rect].
  intros E. rewrite E in Hrow. destruct Hrow. }
rewrite <- HT in Hrow.
apply (zip_star_In _ _ c Hrow Hc).
Qed.

Lemma convert_col_to_df_empty (df : DataFrame cell) (col : string) (column : list cell) :
getitem df col = Ok column -> has_str column = false ->
exists e, convert_col_to_df df col key_value_sep elem_sep = Err e
          /\ e <> index_out_of_range.
Proof.
intros Hget Hstr. unfold convert_col_to_df. rewrite Hget. cbn [bind].
unfold str_split_expand. destruct column as [|x column].
- eexists. split; [reflexivity | discriminate].
- rewrite Hstr. eexists. split; [reflexivity | discriminate].
Qed.

(** A normal return: every cell of the column is a string and every one of
  its elements holds the key-value separator. *)
Lemma convert_col_to_df_ok_separated (df out : DataFrame cell) (col : string)
(column : list cell) :
getitem df col = Ok column ->
convert_col_to_df df col key_value_sep elem_sep = Ok out ->
Forall (fun x => is_str x = true
                 /\ separated key_value_sep elem_sep x = true) column.
Proof.
intros Hget Hok.
destruct (has_str column) eqn:Hstr.
2: { destruct (@convert_col_to_df_empty df col column Hget Hstr) as (e & He & _).
     rewrite He in Hok. discriminate Hok. }
pose proof (@convert_col_to_df_steps df col column Hget Hstr) as Hsteps. cbv zeta in Hsteps.
pose proof (width_pos elem_sep _ Hstr) as Hn.
set (n := width (map (str_split elem_sep) column)) in *.
rewrite Hsteps in Hok. clear Hsteps.
destruct (mapM header_of (hd [] (split_table elem_sep column n)))
  as [header|e]; [|discriminate Hok]. cbn [bind] in Hok.
destruct (mapM (mapM value_of) (zip_star (split_table elem_sep column n)))
  as [cols|e] eqn:Hcols; [|discriminate Hok]. clear Hok.
assert (Hcell : forall x j, In x column -> j < n ->
           exists e, expanded_cell (str_split elem_sep x) j = CStr e
                     /\ occurs key_value_sep e = true).
{ intros x j Hx Hj.
  destruct (@In_split_table column n x j Hx Hj) as (row & Hrow & Hc).
  destruct (@split_table_cells column n row _ Hn Hrow Hc) as (t & Ht & Hct).
  destruct (mapM_ok_In _ _ Hcols _ Ht) as (b & Hb & _).
  destruct (mapM_ok_In _ _ Hb _ Hct) as (v & Hv & _).
  apply value_of_ok in Hv. exact Hv. }
apply Forall_forall. intros x Hx.
assert (Hs : is_str x = true).
{ destruct (Hcell x 0 Hx Hn) as (e & He & _).
  destruct x; try discriminate He. reflexivity. }
split; [assumption|].
unfold separated. apply forallb_forall. intros e He.
apply In_nth_error in He. destruct He as (j & Hj).
assert (Hlen : length (elements elem_sep x) <= n).
{ apply width_ge. rewrite <- (str_split_elements _ Hs).
  apply in_map. assumption. }
assert (Hjn : j < n).
{ assert (j < length (elements elem_sep x)) by (apply nth_error_Some; congruence).
  lia. }
destruct (Hcell x j Hx Hjn) as (e' & He' & Ho).
rewrite (str_split_elements _ Hs) in He'. simpl in He'. rewrite Hj in He'.
injection He' as <-. assumption.
Qed.

(** The access to the second part is the only source of the error "list
  index out of range", and it raises on an element without separator. *)
Lemma convert_col_to_df_index_error (df : DataFrame cell) (col : string)
(column : list cell) :
getitem df col = Ok column ->
convert_col_to_df df col key_value_sep elem_sep = Err index_out_of_range ->
exists x e, In x column /\ In e (elements elem_sep x)
            /\ occurs key_value_sep e = false.
Proof.
intros Hget Herr.
destruct (has_str column) eqn:Hstr.
2: { destruct (@convert_col_to_df_empty df col column Hget Hstr) as (e & He & Hne).
     rewrite He in Herr. injection Herr as ->. contradiction. }
pose proof (@convert_col_to_df_steps df col column Hget Hstr) as Hsteps. cbv zeta in Hsteps.
set (n := width (map (str_split elem_sep) column)) in *.
rewrite Hsteps in Herr. clear Hsteps.
destruct (mapM header_of (hd [] (split_table elem_sep column n)))
  as [header|e] eqn:Hh; cbn [bind] in Herr.
2: { injection Herr as ->. apply mapM_err_In in Hh.
     destruct Hh as (c & _ & Hc). exfalso. exact (header_of_error _ Hc). }
destruct (mapM (mapM value_of) (zip_star (split_table elem_sep column n)))
  as [cols|e] eqn:Hcols; cbn [bind] in Herr; [discriminate Herr|].
injection Herr as ->.
apply mapM_err_In in Hcols. destruct Hcols as (t & Ht & Hcols).
apply mapM_err_In in Hcols. destruct Hcols as (c & Hc & Hv).
apply value_of_error in Hv. destruct Hv as (e & -> & Ho).
destruct (zip_star_In _ _ _ Ht Hc) as (row & Hrow & Hin).
destruct (split_table_In _ _ _ _ Hrow Hin) as (x & j & Hx & _ & He).
exists x, e. repeat split; [assumption | | assumption].
apply (expanded_cell_str x j). symmetry. assumption.
Qed.

Lemma header_strings (es : list string) :
key_value_sep <> "" ->
mapM header_of (map CStr es) = Ok (map (key_part key_value_sep) (map CStr es)).
Proof.
intros Hkv. apply mapM_map. intros a Ha.
apply in_map_iff in Ha. destruct Ha as (e & <- & _).
apply header_of_str. assumption.
Qed.

Lemma holds_key_spec (k e : string) :
key_value_sep <> "" -> holds_key key_value_sep k e = true ->
exists v, split_from key_value_sep e 0 "" = [k; v]
          /\ e = (k ++ key_value_sep ++ v)%string.
Proof.
intros Hkv H. unfold holds_key in H.
destruct (split_from key_value_sep e 0 "") as [|k' [|v [|? ?]]] eqn:Hs;
  try discriminate H.
apply String.eqb_eq in H. subst k'. exists v. split; [reflexivity|].
assert (Hsplit : py_split key_value_sep e = Ok [k; v]).
{ unfold py_split. rewrite Hs.
  destruct key_value_sep; [contradiction | reflexivity]. }
apply py_join_split in Hsplit. rewrite <- Hsplit. reflexivity.
Qed.

Lemma lists_spec (header es : list string) :
key_value_sep <> "" -> lists key_value_sep header es = true ->
length es = length header
/\ map (key_part key_value_sep) (map CStr es) = header
/\ Forall (fun e => occurs key_value_sep e = true) es
/\ map (fun p => (fst p ++ key_value_sep ++ py_str (snd p))%string)
       (combine header (map (value_part key_value_sep) (map CStr es))) = es.
Proof.
intros Hkv. revert es. induction header as [|k header IH]; intros [|e es] H;
  try discriminate H.
- repeat split; constructor.
- cbn [lists] in H. apply andb_true_iff in H. destruct H as [Hk H].
  destruct (IH es H) as (Hlen & Hkeys & Hocc & Henc).
  destruct (holds_key_spec _ _ Hkv Hk) as (v & Hs & He).
  repeat split.
  + simpl. rewrite Hlen. reflexivity.
  + cbn [map key_part]. rewrite Hs, Hkeys. reflexivity.
  + constructor; [|assumption].
    apply (split_from_second e "" Hkv). exists k, v, []. assumption.
  + cbn [map value_part combine]. rewrite Hs. cbn [fst snd py_str].
    rewrite Henc, <- He. reflexivity.
Qed.

(** The values of a table of elements that all hold the separator. *)
Lemma values_strings (column : list cell) :
key_value_sep <> "" ->
let T := map (fun x => map CStr (elements elem_sep x)) column in
(forall t c, In t (zip_star T) -> In c t ->
             (exists v, value_of c = Ok v) \/ value_of c = Err index_out_of_range)
/\ (Forall (fun x => separated key_value_sep elem_sep x = true) column ->
    mapM (mapM value_of) (zip_star T)
    = Ok (map (map (value_part key_value_sep)) (zip_star T))).
Proof.
intros Hkv T.
assert (Hcell : forall t c, In t (zip_star T) -> In c t ->
          exists x e, In x column /\ In e (elements elem_sep x) /\ c = CStr e).
{ intros t c Ht Hc.
  destruct (zip_star_In _ _ _ Ht Hc) as (row & Hrow & Hin).
  apply in_map_iff in Hrow. destruct Hrow as (x & <- & Hx).
  apply in_map_iff in Hin. destruct Hin as (e & <- & He).
  exists x, e. repeat split; assumption. }
split.
- intros t c Ht Hc. destruct (Hcell t c Ht Hc) as (x & e & _ & _ & ->).
  pose proof (value_of_str e Hkv) as Hv.
  destruct (occurs key_value_sep e); [left; eexists; exact Hv | right; exact Hv].
- intros Hsep. apply mapM_map. intros t Ht. apply mapM_map. intros c Hc.
  destruct (Hcell t c Ht Hc) as (x & e & Hx & He & ->).
  rewrite Forall_forall in Hsep. specialize (Hsep x Hx).
  unfold separated in Hsep. rewrite forallb_forall in Hsep.
  pose proof (value_of_str e Hkv) as Hv. rewrite (Hsep e He) in Hv. exact Hv.
Qed.

(** The decoder on a column of strings with equally many elements. *)
Lemma convert_col_to_df_strings (df : DataFrame cell) (col : string)
(column : list cell) (m : nat) :
key_value_sep <> "" -> column <> [] ->
getitem df col = Ok column ->
Forall (fun x => is_str x = true /\ length (elements elem_sep x) = m) column ->
let T := map (fun x => map CStr (elements elem_sep x)) column in
0 < m
/\ zip_star (zip_star T) = T
/\ convert_col_to_df df col key_value_sep elem_sep
   = (cols <- mapM (mapM value_of) (zip_star T) ;;
      let header := map (key_part key_value_sep) (hd [] T) in
      Ok (mkDataFrame header (map (combine header) (zip_star cols)))).
Proof.
intros Hkv Hne Hget Hall T.
assert (Hstr : has_str column = true).
{ apply has_str_strings; [assumption|].
  eapply Forall_impl; [|exact Hall]. intros x [Hx _]. exact Hx. }
pose proof (@convert_col_to_df_steps df col column Hget Hstr) as Hsteps.
cbv zeta in Hsteps.
pose proof (width_pos elem_sep _ Hstr) as Hm.
rewrite (width_strings Hne Hall) in Hsteps, Hm.
rewrite (split_table_strings Hall) in Hsteps. fold T in Hsteps.
split; [assumption|]. split.
- apply zip_star_involutive with (n := m); [| assumption |].
  + subst T. destruct column; [contradiction | discriminate].
  + subst T. rewrite <- (split_table_strings Hall). apply split_table_rect.
- rewrite Hsteps.
  assert (Hh : mapM header_of (hd [] T)
               = Ok (map (key_part key_value_sep) (hd [] T))).
  { subst T. destruct column as [|x0 column]; [contradiction|].
    cbn [map hd]. apply header_strings. assumption. }
  rewrite Hh. reflexivity.
Qed.

(** Rows that list the keys of the header decode to their values. *)
Lemma convert_col_to_df_lists (df : DataFrame cell) (col : string)
(column : list cell) (header : list string) :
key_value_sep <> "" -> column <> [] ->
getitem df col = Ok column ->
forallb (lists_keys key_value_sep elem_sep header) column = true ->
convert_col_to_df df col key_value_sep elem_sep
= Ok (mkDataFrame header
        (map (fun x => combine header
                         (map (value_part key_value_sep)
                              (map CStr (elements elem_sep x)))) column)).
Proof.
intros Hkv Hne Hget Hall. rewrite forallb_forall in Hall.
assert (Hcells : forall x, In x column ->
          is_str x = true /\ lists key_value_sep header (elements elem_sep x) = true).
{ intros x Hx. apply andb_true_iff. apply (Hall x Hx). }
assert (Hshape : Forall (fun x => is_str x = true
                   /\ length (elements elem_sep x) = length header) column).
{ apply Forall_forall. intros x Hx. destruct (Hcells x Hx) as [Hs Hl].
  split; [assumption|]. apply (lists_spec _ _ Hkv Hl). }
assert (Hsep : Forall (fun x => separated key_value_sep elem_sep x = true) column).
{ apply Forall_forall. intros x Hx. destruct (Hcells x Hx) as [_ Hl].
  unfold separated. apply forallb_forall. apply Forall_forall.
  apply (lists_spec _ _ Hkv Hl). }
destruct (convert_col_to_df_strings df col Hkv Hne Hget Hshape) as (_ & Hinv & ->).
destruct (values_strings column Hkv) as [_ Hvals].
rewrite (Hvals Hsep). cbn [bind]. cbv zeta.
rewrite zip_star_map, Hinv.
assert (Hh : map (key_part key_value_sep)
               (hd [] (map (fun x => map CStr (elements elem_sep x)) column))
             = header).
{ destruct column as [|x0 column]; [contradiction|]. cbn [map hd].
  destruct (Hcells x0 (or_introl eq_refl)) as [_ Hl].
  apply (lists_spec _ _ Hkv Hl). }
rewrite Hh, !map_map. reflexivity.
Qed.

(** An element without separator in a column of strings with equally many
  elements. *)
Lemma convert_col_to_df_lacking (df : DataFrame cell) (col : string)
(column : list cell) (m : nat) (x : cell) (e : string) :
key_value_sep <> "" ->
getitem df col = Ok column ->
Forall (fun x => is_str x = true /\ length (elements elem_sep x) = m) column ->
In x column -> In e (elements elem_sep x) -> occurs key_value_sep e = false ->
convert_col_to_df df col key_value_sep elem_sep = Err index_out_of_range.
Proof.
intros Hkv Hget Hshape Hx He Ho.
assert (Hne : column <> []) by (intros E; rewrite E in Hx; destruct Hx).
destruct (convert_col_to_df df col key_value_sep elem_sep) as [out|err] eqn:Hrun.
- pose proof (@convert_col_to_df_ok_separated df out col column Hget Hrun) as Hsep.
  rewrite Forall_forall in Hsep. destruct (Hsep x Hx) as [_ Hs].
  unfold separated in Hs. rewrite forallb_forall in Hs.
  rewrite (Hs e He) in Ho. discriminate Ho.
- destruct (convert_col_to_df_strings df col Hkv Hne Hget Hshape) as (_ & _ & Hsteps).
  rewrite Hrun in Hsteps.
  destruct (values_strings column Hkv) as [Hvals _].
  destruct (@mapM_only_error _ _ (mapM value_of) index_out_of_range
              (zip_star (map (fun x => map CStr (elements elem_sep x)) column)))
    as [(cols & Hcols)|Hcols].
  + intros t Ht. apply mapM_only_error. intros c Hc. apply (Hvals t c Ht Hc).
  + rewrite Hcols in Hsteps. discriminate Hsteps.
  + rewrite Hcols in Hsteps. exact Hsteps.
Qed.

End Decoder.

(** C5 (as amended).  Decoding then re-encoding restores the packed column
    when the column is not empty and every row is a string of the form
    k1=v1;k2=v2;... for one and the same list of keys k1, k2, ..., each
    element holding the key-value separator exactly once: the decoder then
    returns a table whose columns are these keys, and re-encoding its rows
    with the same separators and that key order gives back the packed
    strings, row by row. *)
Theorem convert_col_to_df_round_trip (df : DataFrame cell)
  (col key_value_sep : string) (elem_sep : ascii)
  (column : list cell) (header : list string) :
  key_value_sep <> "" -> column <> [] ->
  getitem df col = Ok column ->
  forallb (lists_keys key_value_sep elem_sep header) column = true ->
  exists out,
    convert_col_to_df df col key_value_sep elem_sep = Ok out
    /\ columns out = header
    /\ map (fun r => CStr (encode key_value_sep elem_sep r)) (rows out) = column.
Proof.
  intros Hkv Hne Hget Hall.
  rewrite (@convert_col_to_df_lists key_value_sep elem_sep df col column header
             Hkv Hne Hget Hall).
  eexists. split; [reflexivity|]. split; [reflexivity|].
  cbn [rows]. rewrite map_map. rewrite <- (map_id column) at 2.
  apply map_ext_in. intros x Hx.
  rewrite forallb_forall in Hall. specialize (Hall x Hx).
  apply andb_true_iff in Hall. destruct Hall as [Hs Hl].
  destruct x as [| | | |s]; try discriminate Hs. f_equal.
  unfold encode.
  destruct (@lists_spec key_value_sep header (elements elem_sep (CStr s)) Hkv Hl)
    as (_ & _ & _ & ->).
  apply py_join_split. reflexivity.
Qed.

Lemma convert_col_to_df_round_trip_witness :
  exists out,
    convert_col_to_df packed "INFO" "=" ";" = Ok out
    /\ columns out = ["DP"; "AO"; "AF"; "TYPE"]
    /\ map (fun r => CStr (encode "=" ";" r)) (rows out)
       = [CStr "DP=50;AO=20,5;AF=0.4,0.1;TYPE=snp,snp"; CStr "DP=31;AO=7;AF=0.2;TYPE=ins"].
Proof.
  apply (@convert_col_to_df_round_trip packed "INFO" "=" ";"%char).
  - discriminate.
  - discriminate.
  - reflexivity.
  - reflexivity.
Defined.

(** C5, counterexample.  Two rows that pack different keys: the decoder
    returns normally with the keys of the first row, and re-encoding the
    second row gives A=2 where the packed string was B=2. *)
Theorem convert_col_to_df_two_keys_not_restored :
  exists out,
    getitem two_keys "INFO" = Ok [CStr "A=1"; CStr "B=2"]
    /\ convert_col_to_df two_keys "INFO" "=" ";" = Ok out
    /\ map (fun r => CStr (encode "=" ";" r)) (rows out) = [CStr "A=1"; CStr "A=2"].
Proof.
  eexists. split; [reflexivity|]. split; reflexivity.
Qed.

(** C10.  The decoder is partial.  On a table that has the packed column:
    - it returns normally only when every cell of the column is a string
      and every element of every cell holds the key-value separator;
    - with an element that lacks the separator it raises, and what it
      raises is the index error of the access to the second part when the
      cells are strings with equally many elements and the separator is not
      empty;
    - when every element holds the separator, that index error is not
      raised. *)
Theorem convert_col_to_df_partial (df : DataFrame cell)
  (col key_value_sep : string) (elem_sep : ascii) (column : list cell) :
  getitem df col = Ok column ->
  (forall out, convert_col_to_df df col key_value_sep elem_sep = Ok out ->
     Forall (fun x => is_str x = true
                      /\ separated key_value_sep elem_sep x = true) column)
  /\ (forall x e, In x column -> In e (elements elem_sep x) ->
        occurs key_value_sep e = false ->
        (exists err, convert_col_to_df df col key_value_sep elem_sep = Err err)
        /\ (key_value_sep <> "" ->
            forall m, Forall (fun x => is_str x = true
                                       /\ length (elements elem_sep x) = m) column ->
            convert_col_to_df df col key_value_sep elem_sep = Err index_out_of_range))
  /\ (Forall (fun x => separated key_value_sep elem_sep x = true) column ->
      convert_col_to_df df col key_value_sep elem_sep <> Err index_out_of_range).
Proof.
  intros Hget.
  assert (Hok : forall out,
            convert_col_to_df df col key_value_sep elem_sep = Ok out ->
            Forall (fun x => is_str x = true
                             /\ separated key_value_sep elem_sep x = true) column).
  { intros out Hrun.
    apply (@convert_col_to_df_ok_separated key_value_sep elem_sep df out col column
             Hget Hrun). }
  split; [exact Hok|]. split.
  - intros x e Hx He Ho. split.
    + destruct (convert_col_to_df df col key_value_sep elem_sep) as [out|err] eqn:Hrun;
        [|exists err; reflexivity].
      exfalso. specialize (Hok out eq_refl). rewrite Forall_forall in Hok.
      destruct (Hok x Hx) as [_ Hs]. unfold separated in Hs.
      rewrite forallb_forall in Hs. rewrite (Hs e He) in Ho. discriminate Ho.
    + intros Hkv m Hshape.
      apply (@convert_col_to_df_lacking key_value_sep elem_sep df col column m x e
               Hkv Hget Hshape Hx He Ho).
  - intros Hsep Herr.
    destruct (@convert_col_to_df_index_error key_value_sep elem_sep df col column
                Hget Herr) as (x & e & Hx & He & Ho).
    rewrite Forall_forall in Hsep. specialize (Hsep x Hx).
    unfold separated in Hsep. rewrite forallb_forall in Hsep.
    rewrite (Hsep e He) in Ho. discriminate Ho.
Qed.

Lemma convert_col_to_df_partial_witness :
  (forall out, convert_col_to_df flagged "INFO" "=" ";" = Ok out ->
     Forall (fun x => is_str x = true /\ separated "=" ";" x = true)
            [CStr "DP=50;DB"])
  /\ (forall x e, In x [CStr "DP=50;DB"] -> In e (elements ";" x) ->
        occurs "=" e = false ->
        (exists err, convert_col_to_df flagged "INFO" "=" ";" = Err err)
        /\ ("=" <> "" ->
            forall m, Forall (fun x => is_str x = true
                                       /\ length (elements ";" x) = m)
                             [CStr "DP=50;DB"] ->
            convert_col_to_df flagged "INFO" "=" ";" = Err index_out_of_range))
  /\ (Forall (fun x => separated "=" ";" x = true) [CStr "DP=50;DB"] ->
      convert_col_to_df flagged "INFO" "=" ";" <> Err index_out_of_range).
Proof.
  apply (@convert_col_to_df_partial flagged "INFO" "=" ";"%char [CStr "DP=50;DB"]).
  reflexivity.
Defined.

Example convert_col_to_df_flagged :
  convert_col_to_df flagged "INFO" "=" ";" = Err index_out_of_range.
Proof. reflexivity. Qed.

Example convert_col_to_df_packed :
  convert_col_to_df packed "INFO" "=" ";"
  = Ok (mkDataFrame ["DP"; "AO"; "AF"; "TYPE"]
          [[("DP", CStr "50"); ("AO", CStr "20,5"); ("AF", CStr "0.4,0.1");
            ("TYPE", CStr "snp,snp")];
           [("DP", CStr "31"); ("AO", CStr "7"); ("AF", CStr "0.2");
            ("TYPE", CStr "ins")]]).
Proof. reflexivity. Qed.

(** A value that holds the key-value separator is cut at its first
    occurrence. *)
Example convert_col_to_df_cuts_value :
  convert_col_to_df (mkDataFrame ["INFO"] [[("INFO", CStr "A=1=2")]]) "INFO" "=" ";"
  = Ok (mkDataFrame ["A"] [[("A", CStr "1")]]).
Proof. reflexivity. Qed.

(** * Further properties *)

(** ** The decoder, when it returns *)

Lemma getitem_length {A : Type} (df : DataFrame A) (label : string) (column : list A) :
  getitem df label = Ok column -> length column = length (rows df).
Proof.
  unfold getitem. destruct (existsb (String.eqb label) (columns df)); [|discriminate].
  apply mapM_length.
Qed.

Lemma getitem_In_columns {A : Type} (df : DataFrame A) (label : string) (column : list A) :
  getitem df label = Ok column -> In label (columns df).
Proof.
  unfold getitem. destruct (existsb (String.eqb label) (columns df)) eqn:E; [|discriminate].
  intros _. apply existsb_exists in E. destruct E as (c & Hc & Heq).
  apply String.eqb_eq in Heq. subst c. assumption.
Qed.

Lemma getitem_missing {A : Type} (df : DataFrame A) (label : string) :
  ~ In label (columns df) -> getitem df label = Err (KeyError label).
Proof.
  intros H. unfold getitem.
  destruct (existsb (String.eqb label) (columns df)) eqn:E; [|reflexivity].
  exfalso. apply H. apply existsb_exists in E. destruct E as (c & Hc & Heq).
  apply String.eqb_eq in Heq. subst c. assumption.
Qed.

(** A normal return of the decoder: the separator is not empty, and the
    cells of the column are strings with equally many elements, every one
    with the separator. *)
Lemma convert_col_to_df_ok_shape (df out : DataFrame cell) (col key_value_sep : string)
  (elem_sep : ascii) (column : list cell) :
  getitem df col = Ok column ->
  convert_col_to_df df col key_value_sep elem_sep = Ok out ->
  key_value_sep <> "" /\ column <> []
  /\ Forall (fun x => is_str x = true
                      /\ length (elements elem_sep x)
                         = width (map (str_split elem_sep) column)) column
  /\ Forall (fun x => separated key_value_sep elem_sep x = true) column.
Proof.
  intros Hget Hok.
  pose proof (@convert_col_to_df_ok_separated key_value_sep elem_sep df out col column
                Hget Hok) as Hsep.
  destruct (has_str column) eqn:Hstr.
  2: { destruct (@convert_col_to_df_empty key_value_sep elem_sep df col column Hget Hstr)
         as (e & He & _). rewrite He in Hok. discriminate Hok. }
  pose proof (@convert_col_to_df_steps key_value_sep elem_sep df col column Hget Hstr)
    as Hsteps. cbv zeta in Hsteps.
  pose proof (width_pos elem_sep _ Hstr) as Hn.
  set (n := width (map (str_split elem_sep) column)) in *.
  rewrite Hsteps in Hok. clear Hsteps.
  destruct (mapM _ (hd [] (split_table elem_sep column n)))
    as [header|e]; [|discriminate Hok]. cbn [bind] in Hok.
  destruct (mapM _ (zip_star (split_table elem_sep column n)))
    as [cols|e] eqn:Hcols; [|discriminate Hok]. clear Hok.
  assert (Hcell : forall x j, In x column -> j < n ->
             exists e, expanded_cell (str_split elem_sep x) j = CStr e
                       /\ key_value_sep <> "").
  { intros x j Hx Hj.
    destruct (@In_split_table elem_sep column n x j Hx Hj) as (row & Hrow & Hc).
    destruct (@split_table_cells elem_sep column n row _ Hn Hrow Hc) as (t & Ht & Hct).
    destruct (mapM_ok_In _ _ Hcols _ Ht) as (b & Hb & _).
    destruct (mapM_ok_In _ _ Hb _ Hct) as (v & Hv & _).
    destruct (@value_of_ok key_value_sep _ _ Hv) as (e & He & _).
    exists e. split; [assumption|].
    intros E. rewrite He, E in Hv. discriminate Hv. }
  assert (Hne : column <> []).
  { intros E. rewrite E in Hstr. discriminate Hstr. }
  split.
  { destruct column as [|x0 column']; [contradiction|].
    destruct (Hcell x0 0 (or_introl eq_refl) Hn) as (_ & _ & Hkv). exact Hkv. }
  split; [assumption|]. split.
  - apply Forall_forall. intros x Hx.
    rewrite Forall_forall in Hsep. destruct (Hsep x Hx) as [Hs _].
    split; [assumption|].
    assert (Hle : length (elements elem_sep x) <= n).
    { apply width_ge. rewrite <- (@str_split_elements elem_sep _ Hs).
      apply in_map. assumption. }
    destruct (Nat.eq_dec (length (elements elem_sep x)) n) as [|Hneq]; [assumption|].
    exfalso.
    assert (Hlt : length (elements elem_sep x) < n) by lia.
    destruct (Hcell x _ Hx Hlt) as (e & He & _).
    rewrite (@str_split_elements elem_sep _ Hs) in He. simpl in He.
    rewrite (proj2 (nth_error_None _ _)) in He by lia. discriminate He.
  - eapply Forall_impl; [|exact Hsep]. intros x [_ Hx]. exact Hx.
Qed.

(** X1.  Whenever [convert_col_to_df] returns, the table it returns has one
    row for every row of the input; its columns are the keys of the
    elements of the first row alone, and every row holds under them the
    values of its own elements taken by position, whatever keys these
    elements name; the value of an element is its second piece, what stands
    between its first separator and the next one.  Every cell of the column
    had as many elements as the first. *)
Theorem convert_col_to_df_by_position (df out : DataFrame cell)
  (col key_value_sep : string) (elem_sep : ascii) (column : list cell) :
  getitem df col = Ok column ->
  convert_col_to_df df col key_value_sep elem_sep = Ok out ->
  length (rows out) = length (rows df)
  /\ columns out
     = map (key_part key_value_sep) (map CStr (elements elem_sep (hd CNone column)))
  /\ rows out = map (decoded_row key_value_sep elem_sep (columns out)) column
  /\ Forall (fun x => length (elements elem_sep x) = length (columns out)) column.
Proof.
  intros Hget Hok.
  destruct (@convert_col_to_df_ok_shape df out col key_value_sep elem_sep column Hget Hok) as (Hkv & Hne & Hshape & Hsep).
  destruct (@convert_col_to_df_strings key_value_sep elem_sep df col column _
              Hkv Hne Hget Hshape) as (_ & Hinv & Hrun).
  destruct (@values_strings key_value_sep elem_sep column Hkv) as [_ Hvals].
  rewrite Hok, (Hvals Hsep) in Hrun. cbn [bind] in Hrun. cbv zeta in Hrun.
  rewrite zip_star_map, Hinv in Hrun. injection Hrun as ->.
  cbn [columns rows].
  assert (Hhd : hd [] (map (fun x => map CStr (elements elem_sep x)) column)
                = map CStr (elements elem_sep (hd CNone column))).
  { destruct column; [contradiction | reflexivity]. }
  rewrite Hhd. split.
  { rewrite !length_map. apply (getitem_length _ _ Hget). }
  split; [reflexivity|]. split.
  - rewrite !map_map. reflexivity.
  - rewrite !length_map.
    eapply Forall_impl; [|exact Hshape]. intros x [_ Hx]. cbv beta in Hx.
    rewrite Hx. destruct column as [|x0 column']; [contradiction|].
    inversion Hshape as [|? ? [_ H0] _]; subst. symmetry. exact H0.
Qed.

Lemma convert_col_to_df_by_position_witness :
  length (rows (mkDataFrame ["A"] [[("A", CStr "1")]; [("A", CStr "2")]]))
  = length (rows two_keys)
  /\ columns (mkDataFrame ["A"] [[("A", CStr "1")]; [("A", CStr "2")]])
     = map (key_part "=")
           (map CStr (elements ";" (hd CNone [CStr "A=1"; CStr "B=2"])))
  /\ rows (mkDataFrame ["A"] [[("A", CStr "1")]; [("A", CStr "2")]])
     = map (decoded_row "=" ";"
              (columns (mkDataFrame ["A"] [[("A", CStr "1")]; [("A", CStr "2")]])))
           [CStr "A=1"; CStr "B=2"]
  /\ Forall (fun x => length (elements ";" x)
                      = length (columns (mkDataFrame ["A"]
                                           [[("A", CStr "1")]; [("A", CStr "2")]])))
            [CStr "A=1"; CStr "B=2"].
Proof.
  apply (@convert_col_to_df_by_position two_keys _ "INFO" "=" ";"%char).
  - reflexivity.
  - reflexivity.
Defined.

(** ** The program on a table without the packed column or without rows *)

(** X2.  On a table that has no INFO column the program raises the
    [KeyError] of the label INFO, whatever the service answers. *)
Theorem run_without_INFO (exac : list cell -> result pyobj) (file_name : string)
  (df : DataFrame cell) :
  ~ In "INFO" (columns df) ->
  subset_vcf df = Err (KeyError "INFO")
  /\ run exac file_name df = Err (KeyError "INFO").
Proof.
  intros H.
  assert (Hs : subset_vcf df = Err (KeyError "INFO")).
  { unfold subset_vcf, convert_col_to_df. rewrite (getitem_missing _ _ H). reflexivity. }
  split; [assumption|]. unfold run. rewrite Hs. reflexivity.
Qed.

Lemma run_without_INFO_witness :
  subset_vcf (mkDataFrame ["#CHROM"; "POS"] [[("#CHROM", CInt 1); ("POS", CInt 100)]])
  = Err (KeyError "INFO")
  /\ run scenario_exac "sample"
         (mkDataFrame ["#CHROM"; "POS"] [[("#CHROM", CInt 1); ("POS", CInt 100)]])
     = Err (KeyError "INFO").
Proof.
  apply (@run_without_INFO scenario_exac "sample").
  simpl. intuition discriminate.
Defined.

(** X3.  On a table that has the INFO column and no row, the header of the
    decoded table is read from a first row that is not there: the program
    raises the [IndexError] of [iloc], whatever the service answers. *)
Theorem run_without_rows (exac : list cell -> result pyobj) (file_name : string)
  (df : DataFrame cell) :
  In "INFO" (columns df) -> rows df = [] ->
  subset_vcf df = Err out_of_bounds
  /\ run exac file_name df = Err out_of_bounds.
Proof.
  intros Hin Hrows.
  assert (Hget : getitem df "INFO" = Ok []).
  { unfold getitem. rewrite Hrows.
    destruct (existsb (String.eqb "INFO") (columns df)) eqn:E; [reflexivity|].
    exfalso. assert (Ht : existsb (String.eqb "INFO") (columns df) = true).
    { apply existsb_exists. exists "INFO". split; [assumption | reflexivity]. }
    rewrite Ht in E. discriminate E. }
  assert (Hs : subset_vcf df = Err out_of_bounds).
  { unfold subset_vcf, convert_col_to_df. rewrite Hget. reflexivity. }
  split; [assumption|]. unfold run. rewrite Hs. reflexivity.
Qed.

Lemma run_without_rows_witness :
  subset_vcf (mkDataFrame ["#CHROM"; "POS"; "REF"; "ALT"; "INFO"] [])
  = Err out_of_bounds
  /\ run scenario_exac "sample"
         (mkDataFrame ["#CHROM"; "POS"; "REF"; "ALT"; "INFO"] [])
     = Err out_of_bounds.
Proof.
  apply (@run_without_rows scenario_exac "sample").
  - simpl. intuition.
  - reflexivity.
Defined.

(** ** Further properties of the expansion *)

Lemma foldM_ok_inv {A S : Type} (P : S -> Prop) (Q : A -> Prop)
  (body : S -> A -> result S) (l : list A) (s s' : S) :
  (forall s a s2, P s -> body s a = Ok s2 -> P s2 /\ Q a) ->
  P s -> foldM body l s = Ok s' -> P s' /\ Forall Q l.
Proof.
  intros Hstep. revert s. induction l as [|a l IH]; intros s Hs H; simpl in H.
  - injection H as <-. split; [assumption | constructor].
  - destruct (body s a) as [s2|e] eqn:Hb; [|discriminate H]. cbn [bind] in H.
    destruct (Hstep s a s2 Hs Hb) as [Hs2 Ha].
    destruct (IH s2 Hs2 H) as [Hs' Hl].
    split; [assumption | constructor; assumption].
Qed.

(** X4.  [expand_df] returns only if every row has a string under every
    expandable column, and, when the table has a row and there is an
    expandable column, only if the separator is not empty: a column that is
    not there, or a cell that is a number or a missing value, makes it
    raise. *)
Theorem expand_df_requires_strings (df out : DataFrame cell) (cols : list string)
  (sep : string) :
  expand_df df cols sep = Ok out ->
  forall r c, In r (rows df) -> In c cols ->
    sep <> "" /\ exists s, loc r c = Ok (CStr s).
Proof.
  intros Hok r c Hr Hc. unfold expand_df in Hok.
  destruct (foldM_ok_inv (fun _ => True)
              (fun r => forall c, In c cols -> sep <> "" /\ exists s, loc r c = Ok (CStr s))
              (expand_row cols sep) (rows df) (mkDataFrame cols []) (s' := out))
    as [_ Hall]; [| exact I | exact Hok |].
  - clear. intros new_df r new_df' _ H. split; [exact I|].
    unfold expand_row in H.
    match type of H with
    | bind ?m _ = _ => destruct m as [d|e] eqn:Hd; [|discriminate H]
    end. clear H.
    destruct (foldM_ok_inv (fun _ => True)
                (fun c => sep <> "" /\ exists s, loc r c = Ok (CStr s))
                (fun (d : dict (list string)) column =>
                   x <- loc r column ;;
                   parts <- cell_split sep x ;;
                   Ok (dict_set d column parts))
                cols [] (s' := d)) as [_ Hcols]; [| exact I | exact Hd |].
    + clear. intros d c d' _ H.  split; [exact I|].
      destruct (loc r c) as [x|e]; [|discriminate H]. cbn [bind] in H.
      destruct x as [| | | |s]; try discriminate H.
      split; [|exists s; reflexivity].
      intros E. rewrite E in H. discriminate H.
    + rewrite Forall_forall in Hcols. exact Hcols.
  - rewrite Forall_forall in Hall. apply (Hall r Hr c Hc).
Qed.

Lemma expand_df_requires_strings_witness :
  "," <> "" /\ exists s, loc mismatched_row "ALT" = Ok (CStr s).
Proof.
  apply (@expand_df_requires_strings mismatched
           (mkDataFrame ["TYPE"; "ALT"; "AF"]
              [[("TYPE", CStr "snp"); ("ALT", CStr "T"); ("AF", CStr "0.4")]])
           ["TYPE"; "ALT"; "AF"] ",").
  - reflexivity.
  - left; reflexivity.
  - right; left; reflexivity.
Defined.

(** X5.  With no expandable column there is no tuple to emit: [expand_df]
    returns the table without columns and without rows, whatever the
    input. *)
Theorem expand_df_no_columns (df : DataFrame cell) (sep : string) :
  expand_df df [] sep = Ok (mkDataFrame [] []).
Proof.
  unfold expand_df. generalize (mkDataFrame (A := cell) [] []).
  induction (rows df) as [|r rs IH]; intros new_df; [reflexivity|].
  cbn [foldM]. change (expand_row [] sep new_df r) with (Ok new_df).
  cbn [bind]. apply IH.
Qed.

Lemma ascending_insert_sorted (x : string) (ls : list string) :
  ascending ls = true -> ascending (insert_sorted x ls) = true.
Proof.
  induction ls as [|y ls IH]; intros H; [reflexivity|].
  cbn [insert_sorted]. destruct (String.leb x y) eqn:E.
  - cbn [ascending]. rewrite E. exact H.
  - assert (Hyx : String.leb y x = true).
    { destruct (String.leb_total x y) as [Hxy|Hyx]; [congruence | assumption]. }
    assert (Hls : ascending ls = true).
    { destruct ls as [|z ls]; [reflexivity|].
      cbn [ascending] in H. apply andb_true_iff in H. apply H. }
    specialize (IH Hls).
    destruct ls as [|z ls].
    + cbn [insert_sorted ascending]. rewrite Hyx. reflexivity.
    + cbn [insert_sorted] in *. destruct (String.leb x z) eqn:Ez.
      * cbn [ascending] in *. rewrite Hyx. exact IH.
      * cbn [ascending] in H. apply andb_true_iff in H. destruct H as [Hyz _].
        change (ascending (y :: z :: insert_sorted x ls))
          with (String.leb y z && ascending (z :: insert_sorted x ls)).
        rewrite Hyz. exact IH.
Qed.

Lemma ascending_sorted (ls : list string) : ascending (sorted ls) = true.
Proof.
  induction ls as [|x ls IH]; [reflexivity|].
  apply ascending_insert_sorted. exact IH.
Qed.

(** X6.  The columns of the table that [expand_df] returns for a table with
    rows: the expandable columns first, in the order in which they are
    given, then the other columns of the input, each once and in ascending
    order of their labels.  The order of the columns of the input is not
    kept. *)
Theorem expand_df_column_order (df : DataFrame cell) (cols : list string)
  (sep : string) :
  sep <> "" -> cols <> [] -> NoDup cols -> NoDup (columns df) -> wf_frame df ->
  Forall (splittable cols) (rows df) -> rows df <> [] ->
  exists out others,
    expand_df df cols sep = Ok out
    /\ columns out = cols ++ others
    /\ ascending others = true
    /\ NoDup others
    /\ forall c, In c others <-> In c (columns df) /\ ~ In c cols.
Proof.
  intros Hsep Hne Hcols Hnd Hwf Hsplit Hrows.
  destruct (expand_df_total Hsep Hne Hcols Hnd Hwf Hsplit) as (out & Hout & _ & Hcolumns).
  exists out, (index_difference (columns df) cols).
  split; [assumption|]. split; [apply (Hcolumns Hrows)|].
  split; [apply ascending_sorted|]. split.
  - unfold index_difference. apply NoDup_sorted. apply NoDup_nodup.
  - intros c. apply In_index_difference.
Qed.

Lemma expand_df_column_order_witness :
  exists out others,
    expand_df scenario_joined ["TYPE"; "ALT"; "AF"] "," = Ok out
    /\ columns out = ["TYPE"; "ALT"; "AF"] ++ others
    /\ ascending others = true
    /\ NoDup others
    /\ forall c, In c others <->
                 In c (columns scenario_joined) /\ ~ In c ["TYPE"; "ALT"; "AF"].
Proof.
  apply (@expand_df_column_order scenario_joined ["TYPE"; "ALT"; "AF"] ",").
  - discriminate.
  - discriminate.
  - distinct.
  - distinct.
  - repeat constructor.
  - repeat constructor. intros c [<-|[<-|[<-|[]]]]; eexists; reflexivity.
  - discriminate.
Defined.

(** ** Further properties of [build_cprv_col] *)

Lemma mapM_some_error {A B : Type} (f : A -> result B) (e0 : exception) (l : list A) :
  (forall a, In a l -> (exists b, f a = Ok b) \/ f a = Err e0) ->
  (exists a, In a l /\ f a = Err e0) ->
  mapM f l = Err e0.
Proof.
  intros Hall (a & Ha & Hfa).
  destruct (@mapM_only_error _ _ f e0 l Hall) as [(l' & Hl')|Herr]; [|assumption].
  destruct (mapM_ok_In _ _ Hl' _ Ha) as (b & Hb & _).
  rewrite Hb in Hfa. discriminate Hfa.
Qed.

Lemma add_str_cases (x : cell) (y : string) :
  (exists v, add_str x y = Ok v) \/ add_str x y = Err unsupported_operand.
Proof.
  destruct x as [| | |repr|s]; try (right; reflexivity); try (left; eexists; reflexivity).
  unfold add_str.
  destruct (string_dec repr "nan") as [->|Hne]; [left; eexists; reflexivity|].
  right.
  destruct repr as [|a0 [|a1 [|a2 [|a3 r]]]]; try reflexivity;
    destruct a0 as [[] [] [] [] [] [] [] []]; try reflexivity;
    destruct a1 as [[] [] [] [] [] [] [] []]; try reflexivity;
    destruct a2 as [[] [] [] [] [] [] [] []]; try reflexivity.
  contradiction Hne. reflexivity.
Qed.

(** X7.  A chromosome cell that is an integer, as [read_csv] gives it for a
    numeric chromosome, cannot be added to the text of the position:
    [build_cprv_col] raises a [TypeError].  The key can be built only once
    the chromosome is text. *)
Theorem build_cprv_col_integer_chromosome_raises (df : DataFrame cell)
  (chromosome position reference variant : string) (r : Series cell) (z : Z) :
  wf_frame df ->
  In chromosome (columns df) -> In position (columns df) ->
  In r (rows df) -> loc r chromosome = Ok (CInt z) ->
  build_cprv_col df chromosome position reference variant = Err unsupported_operand.
Proof.
  intros Hwf Hc Hp Hr Hz.
  unfold wf_frame in Hwf. rewrite Forall_forall in Hwf.
  assert (Hlab : forall c, In c (columns df) ->
            forall r, In r (rows df) -> In c (labels r)).
  { intros c Hcol r' Hin. rewrite (Hwf r' Hin). exact Hcol. }
  unfold build_cprv_col.
  rewrite getitem_value by auto. cbn [bind].
  rewrite (@setitem_map _ df "CPRV" (fun r => r)) by (symmetry; apply map_id).
  set (cols1 := if existsb (String.eqb "CPRV") (columns df)
                then columns df else columns df ++ ["CPRV"]).
  assert (Hcprv : In "CPRV" cols1).
  { unfold cols1. destruct (existsb (String.eqb "CPRV") (columns df)) eqn:E.
    - apply (mem_In "CPRV" (columns df)); exact E.
    - apply in_or_app. right; left; reflexivity. }
  assert (Hsub : forall c, In c (columns df) -> In c cols1).
  { intros c Hcol. unfold cols1. destruct (existsb _ (columns df)); [assumption|].
    apply in_or_app. left; assumption. }
  cbn [foldM].
  rewrite getitem_value; [|exact Hcprv|].
  2: { cbn [rows]. intros r' Hr'. apply in_map_iff in Hr'.
       destruct Hr' as (r0 & <- & _). apply In_labels_set_item. left; reflexivity. }
  cbn [bind]. rewrite getitem_value; [|apply Hsub; exact Hp|].
  2: { cbn [rows]. intros r' Hr'. apply in_map_iff in Hr'.
       destruct Hr' as (r0 & <- & Hr0). apply In_labels_set_item. right.
       apply Hlab; assumption. }
  cbn [bind rows]. rewrite !map_map, combine_map_same, mapM_of_map.
  rewrite (@mapM_some_error _ _ _ unsupported_operand); [reflexivity | |].
  - intros r0 _. apply add_str_cases.
  - exists r. split; [assumption|]. cbn [fst].
    rewrite value_set_item_same. unfold value. rewrite Hz. reflexivity.
Qed.

Lemma build_cprv_col_integer_chromosome_raises_witness :
  build_cprv_col scenario_joined "#CHROM" "POS" "REF" "ALT" = Err unsupported_operand.
Proof.
  apply (@build_cprv_col_integer_chromosome_raises scenario_joined
           "#CHROM" "POS" "REF" "ALT" (hd [] (rows scenario_joined)) 1).
  - repeat constructor.
  - simpl; intuition.
  - simpl; intuition.
  - left; reflexivity.
  - reflexivity.
Defined.

(** X8.  [build_cprv_col] returns only if the table has the four columns
    it is given (a column may also be CPRV itself, which the function
    creates first); otherwise the selection of the column raises. *)
Theorem build_cprv_col_requires_columns (df out : DataFrame cell)
  (chromosome position reference variant : string) :
  build_cprv_col df chromosome position reference variant = Ok out ->
  In chromosome (columns df)
  /\ Forall (fun c => c = "CPRV" \/ In c (columns df)) [position; reference; variant]
  /\ forall c, In c (columns out) <-> c = "CPRV" \/ In c (columns df).
Proof.
  unfold build_cprv_col. intros H.
  destruct (getitem df chromosome) as [first|e] eqn:Hfirst; [|discriminate H].
  cbn [bind] in H. split; [apply (getitem_In_columns _ _ Hfirst)|].
  set (P := fun d : DataFrame cell =>
              forall c, In c (columns d) <-> c = "CPRV" \/ In c (columns df)).
  assert (Hset : forall d values, (forall c, In c (columns d) -> c = "CPRV" \/ In c (columns df)) ->
            (forall c, In c (columns df) -> In c (columns d)) ->
            P (setitem d "CPRV" values)).
  { intros d values Hd1 Hd2 c. unfold setitem. cbn [columns].
    destruct (existsb (String.eqb "CPRV") (columns d)) eqn:E.
    - apply (mem_In "CPRV" (columns d)) in E. split; [apply Hd1|].
      intros [->|Hc]; [assumption | apply Hd2; assumption].
    - rewrite in_app_iff. split.
      + intros [Hc|[<-|[]]]; [apply Hd1; assumption | left; reflexivity].
      + intros [->|Hc]; [right; left; reflexivity | left; apply Hd2; assumption]. }
  match type of H with
  | foldM ?body ?l ?s = _ =>
      destruct (@foldM_ok_inv _ _ P (fun c => c = "CPRV" \/ In c (columns df))
                  body l s out) as [Hout Hall]
  end.
  - intros d column d2 Hd Hb.
    destruct (getitem d "CPRV") as [cprv|e]; [|discriminate Hb]. cbn [bind] in Hb.
    destruct (getitem d column) as [values|e] eqn:Hv; [|discriminate Hb].
    cbn [bind] in Hb.
    destruct (mapM _ (combine cprv values)) as [sums|e]; [|discriminate Hb].
    injection Hb as <-. split.
    + apply Hset; intros c Hc; apply (Hd c); [assumption | right; assumption].
    + apply (Hd column). apply (getitem_In_columns _ _ Hv).
  - apply Hset; [intros c Hc; right; assumption | intros c Hc; assumption].
  - exact H.
  - split; [exact Hall | exact Hout].
Qed.

Lemma build_cprv_col_requires_columns_witness :
  In "#CHROM" (columns expanded)
  /\ Forall (fun c => c = "CPRV" \/ In c (columns expanded)) ["POS"; "REF"; "ALT"]
  /\ forall c, In c (columns expanded ++ ["CPRV"])
               <-> c = "CPRV" \/ In c (columns expanded).
Proof.
  apply (@build_cprv_col_requires_columns expanded
           (mkDataFrame (columns expanded ++ ["CPRV"])
              (map (fun r => set_item r "CPRV"
                               (CStr (cprv_of "#CHROM" "POS" "REF" "ALT" r)))
                   (rows expanded)))
           "#CHROM" "POS" "REF" "ALT").
  reflexivity.
Defined.

(** ** Further properties of the reading of the answer *)

Lemma subscript_object (fields : list (string * pyobj)) (key : string) :
  (exists v, subscript (PDict fields) key = Ok v)
  \/ subscript (PDict fields) key = Err (KeyError key).
Proof.
  unfold subscript, dict_get. destruct (find _ fields) as [p|].
  - left. eexists. reflexivity.
  - right. reflexivity.
Qed.

Lemma subscript_not_object (item : pyobj) (key : string) :
  (forall fields, item <> PDict fields) ->
  exists m, subscript item key = Err (TypeError m).
Proof.
  intros H. destruct item as [c|l|fields].
  - destruct c; eexists; reflexivity.
  - eexists; reflexivity.
  - exfalso. apply (H fields). reflexivity.
Qed.

Lemma get_allele_freqs_loop_error (items : list pyobj) (item : pyobj) :
  In item items -> (forall fields, item <> PDict fields) ->
  forall acc, exists m,
    foldM (fun allele_freqs item =>
             match subscript item "allele_freq" with
             | Ok allele_freq => Ok (allele_freqs ++ [allele_freq])
             | Err (KeyError _) => Ok (allele_freqs ++ [PScalar nan])
             | Err e => Err e
             end) items acc
    = Err (TypeError m).
Proof.
  intros Hin Hitem. induction items as [|x items IH]; intros acc; [destruct Hin|].
  cbn [foldM].
  destruct x as [c|l|fields].
  - destruct (@subscript_not_object (PScalar c) "allele_freq") as (m & Hm);
      [discriminate|]. rewrite Hm. exists m. reflexivity.
  - destruct (@subscript_not_object (PList l) "allele_freq") as (m & Hm);
      [discriminate|]. rewrite Hm. exists m. reflexivity.
  - assert (Hin' : In item items).
    { destruct Hin as [E|Hin]; [|assumption].
      exfalso. apply (Hitem fields). symmetry. exact E. }
    destruct (subscript_object fields "allele_freq") as [(v & Hv)|Hk];
      [rewrite Hv | rewrite Hk]; cbn [bind]; apply (IH Hin').
Qed.

(** X9.  [get_allele_freqs] catches the [KeyError] of a missing field and
    nothing else: an entry of the answer that is not an object, such as a
    null or a list, makes it raise a [TypeError], and an answer that is not
    an object makes it raise an [AttributeError]. *)
Theorem get_allele_freqs_uncaught (json_response : pyobj) :
  ((forall d, json_response <> PDict d) ->
   get_allele_freqs json_response
   = Err (AttributeError "object has no attribute 'values'"))
  /\ (forall d item, json_response = PDict d ->
        In item (dict_values d) -> (forall fields, item <> PDict fields) ->
        exists m, get_allele_freqs json_response = Err (TypeError m)).
Proof.
  split.
  - intros H. destruct json_response as [c|l|d]; try reflexivity.
    exfalso. apply (H d). reflexivity.
  - intros d item -> Hin Hitem. unfold get_allele_freqs.
    apply (@get_allele_freqs_loop_error _ _ Hin Hitem).
Qed.

Lemma get_allele_freqs_uncaught_witness :
  exists m,
    get_allele_freqs
      (PDict [("1-100-A-T", PDict [("allele_freq", PScalar (CFloat "0.25"))]);
              ("1-100-A-G", PScalar CNone)])
    = Err (TypeError m).
Proof.
  apply (proj2 (get_allele_freqs_uncaught _)
           [("1-100-A-T", PDict [("allele_freq", PScalar (CFloat "0.25"))]);
            ("1-100-A-G", PScalar CNone)] (PScalar CNone)).
  - reflexivity.
  - right; left; reflexivity.
  - discriminate.
Defined.

(** ** The call of the service *)

(** X10.  [get_exac_data] posts the keys of the rows, one for every row and
    in the order of the rows, and an exception of the request or of the
    parsing of its answer is the outcome of [get_exac_data]: nothing is
    retried or caught. *)
Theorem get_exac_data_service_failure (exac : list cell -> result pyobj)
  (df : DataFrame cell) (e : exception) :
  wf_frame df ->
  In "#CHROM" (columns df) -> In "POS" (columns df) ->
  In "REF" (columns df) -> In "ALT" (columns df) ->
  (forall r, In r (rows df) -> exists c, loc r "#CHROM" = Ok (CStr c)) ->
  exac (map (fun r => CStr (cprv_of "#CHROM" "POS" "REF" "ALT" r)) (rows df)) = Err e ->
  get_exac_data exac df = Err e.
Proof.
  intros Hwf H1 H2 H3 H4 Hchrom Hexac. unfold get_exac_data.
  rewrite build_cprv_col_rows; try assumption; try discriminate.
  cbn [bind]. unfold call_exac_server.
  rewrite getitem_value.
  2: { cbn [columns]. destruct (existsb (String.eqb "CPRV") (columns df)) eqn:E.
       - apply (mem_In "CPRV" (columns df)); exact E.
       - apply in_or_app. right; left; reflexivity. }
  2: { cbn [rows]. intros r' Hr'. apply in_map_iff in Hr'.
       destruct Hr' as (r & <- & _). apply In_labels_set_item. left; reflexivity. }
  cbn [rows bind]. rewrite map_map.
  rewrite (map_ext _ (fun r => CStr (cprv_of "#CHROM" "POS" "REF" "ALT" r)))
    by (intros; apply value_set_item_same).
  rewrite Hexac. reflexivity.
Qed.

Lemma get_exac_data_service_failure_witness :
  get_exac_data (fun _ => Err (RequestException "connection refused")) expanded
  = Err (RequestException "connection refused").
Proof.
  apply (@get_exac_data_service_failure
           (fun _ => Err (RequestException "connection refused")) expanded).
  - repeat constructor.
  - simpl; intuition.
  - simpl; intuition.
  - simpl; intuition.
  - simpl; intuition.
  - intros r [<-|[<-|[]]]; eexists; reflexivity.
  - reflexivity.
Defined.

(** ** Further properties of [write_output] *)

Lemma mapM_first_error {A B : Type} (f : A -> result B) (l : list A) :
  (exists a, In a l /\ exists e, f a = Err e) ->
  exists a e, In a l /\ f a = Err e /\ mapM f l = Err e.
Proof.
  induction l as [|x l IH]; intros (a & Ha & e & He); [destruct Ha|].
  cbn [mapM]. destruct (f x) as [b|e'] eqn:Hx.
  - destruct Ha as [->|Ha]; [rewrite Hx in He; discriminate He|].
    destruct IH as (a' & e'' & Ha' & Hf & Hm); [exists a; eauto|].
    exists a', e''. split; [right; assumption|]. split; [assumption|].
    cbn [bind]. rewrite Hm. reflexivity.
  - exists x, e'. split; [left; reflexivity|]. split; [assumption | reflexivity].
Qed.

Lemma pick_missing (xs ls : list string) :
  (exists c, In c ls /\ ~ In c xs) ->
  exists k, In k ls /\ ~ In k xs /\ pick (fun c => c) xs ls = Err (KeyError k).
Proof.
  intros (c & Hc & Hnot). unfold pick.
  match goal with
  | |- context [mapM ?f ls] =>
      destruct (@mapM_first_error _ _ f ls) as (k & e & Hk & Hf & Hm)
  end.
  - exists c. split; [assumption|]. cbv beta.
    destruct (filter (fun x => x =? c) xs) as [|x xs'] eqn:E; [eexists; reflexivity|].
    exfalso. apply Hnot.
    assert (Hx : In x (filter (fun x => x =? c) xs)) by (rewrite E; left; reflexivity).
    apply filter_In in Hx. destruct Hx as [Hx Heq].
    apply String.eqb_eq in Heq. subst x. assumption.
  - cbv beta in Hf.
    destruct (filter (fun x => x =? k) xs) as [|x xs'] eqn:E; [|discriminate Hf].
    injection Hf as <-. exists k. split; [assumption|]. split.
    + intros Hin.
      assert (Hx : In k (filter (fun x => x =? k) xs)).
      { apply filter_In. split; [assumption | apply String.eqb_refl]. }
      rewrite E in Hx. destruct Hx.
    + rewrite Hm. reflexivity.
Qed.

(** X11.  [write_output] hands a table to the writer only if the merged
    table has all nine columns of the output.  When one is missing it
    raises the [KeyError] of a missing column and nothing is written; when
    it writes, the file is [./output/<file_name>_annotated.vcf] and the
    delimiter is the tab. *)
Theorem write_output_missing_column (file_name : string) (df : DataFrame pyobj) :
  ((exists c, In c output_columns /\ ~ In c (columns df)) ->
   exists k, In k output_columns /\ ~ In k (columns df)
             /\ write_output file_name df = Err (KeyError k))
  /\ (forall f, write_output file_name df = Ok f ->
        (forall c, In c output_columns -> In c (columns df))
        /\ path f = annotated_path file_name /\ delimiter f = tab).
Proof.
  assert (Hmiss : (exists c, In c output_columns /\ ~ In c (columns df)) ->
            exists k, In k output_columns /\ ~ In k (columns df)
                      /\ write_output file_name df = Err (KeyError k)).
  { intros H. destruct (pick_missing (columns df) output_columns H)
      as (k & Hk & Hnot & Hpick).
    exists k. split; [assumption|]. split; [assumption|].
    unfold write_output, getitem_list. cbv zeta.
    change ["#CHROM"; "POS"; "REF"; "ALT"; "TYPE"; "DP"; "AO"; "AF";
            "ALLELE_FREQUENCY(ExAC)"] with output_columns.
    rewrite Hpick. reflexivity. }
  split; [exact Hmiss|].
  intros f Hf. split.
  - intros c Hc.
    destruct (in_dec string_dec c (columns df)) as [Hin|Hnot]; [assumption|].
    exfalso. destruct Hmiss as (k & _ & _ & Hk); [exists c; split; assumption|].
    rewrite Hk in Hf. discriminate Hf.
  - unfold write_output in Hf. cbv zeta in Hf.
    destruct (getitem_list df _) as [df'|e]; [|discriminate Hf].
    injection Hf as <-. split; reflexivity.
Qed.

Lemma write_output_missing_column_witness :
  exists k, In k output_columns
            /\ ~ In k (columns (objects expanded))
            /\ write_output "sample" (objects expanded) = Err (KeyError k).
Proof.
  apply (proj1 (write_output_missing_column "sample" (objects expanded))).
  exists "TYPE". split.
  - simpl; intuition.
  - simpl; intuition discriminate.
Defined.

(** ** [get_vcf_filename] *)

Example get_vcf_filename_examples :
  get_vcf_filename "data/run1/sample.vcf" = "sample"
  /\ get_vcf_filename "sample.vcf.gz" = "sample.vcf"
  /\ get_vcf_filename "data.v2/sample" = "sample"
  /\ get_vcf_filename ".vcf" = ".vcf"
  /\ get_vcf_filename "data/" = "".
Proof. repeat split; reflexivity. Qed.

Lemma rfind_cons (c a : ascii) (p : string) :
  rfind c (String a p)
  = if (rfind c p =? -1)%Z then (if Ascii.eqb a c then 0%Z else (-1)%Z)
    else (rfind c p + 1)%Z.
Proof. reflexivity. Qed.

Lemma rfind_bounds (c : ascii) (p : string) :
  (-1 <= rfind c p < Z.of_nat (String.length p))%Z.
Proof.
  induction p as [|a p IH]; [simpl; lia|].
  rewrite rfind_cons. cbn [String.length].
  destruct (Z.eqb_spec (rfind c p) (-1)) as [E|E].
  - destruct (Ascii.eqb a c); lia.
  - lia.
Qed.

Lemma rfind_absent (c : ascii) (s : string) :
  rfind c s = (-1)%Z <-> occurs (String c "") s = false.
Proof.
  induction s as [|a s IH].
  - simpl. split; reflexivity.
  - rewrite occurs_cons, rfind_cons.
    pose proof (rfind_bounds c s) as Hb.
    assert (Hp : String.prefix (String c "") (String a s) = Ascii.eqb a c).
    { simpl. destruct (Ascii.eqb_spec a c) as [->|Hne].
      - destruct (ascii_dec c c); [|contradiction]. destruct s; reflexivity.
      - destruct (ascii_dec c a) as [->|]; [contradiction | reflexivity]. }
    rewrite Hp.
    destruct (Z.eqb_spec (rfind c s) (-1)) as [E|E].
    + apply IH in E. rewrite E, orb_false_r.
      destruct (Ascii.eqb a c); split; intros H; try reflexivity; discriminate H.
    + split; intros H; [lia|].
      apply orb_false_iff in H. destruct H as [_ H]. apply IH in H. contradiction.
Qed.

Lemma rfind_last (c : ascii) (p s : string) :
  rfind c s = (-1)%Z -> rfind c (p ++ String c s) = Z.of_nat (String.length p).
Proof.
  intros Hs. induction p as [|a p IH].
  - cbn [String.append]. rewrite rfind_cons, Hs, Ascii.eqb_refl. reflexivity.
  - cbn [String.append String.length]. rewrite rfind_cons, IH.
    destruct (Z.eqb_spec (Z.of_nat (String.length p)) (-1)); lia.
Qed.

Lemma rfind_app_absent (c : ascii) (p s : string) :
  rfind c s = (-1)%Z -> rfind c (p ++ s) = rfind c p.
Proof.
  intros Hs. induction p as [|a p IH].
  - simpl. exact Hs.
  - cbn [String.append]. rewrite !rfind_cons, IH. reflexivity.
Qed.

Lemma rfind_split (c : ascii) (p : string) :
  rfind c p <> (-1)%Z ->
  exists pre s, p = (pre ++ String c s)%string
                /\ rfind c p = Z.of_nat (String.length pre)
                /\ rfind c s = (-1)%Z.
Proof.
  induction p as [|a p IH]; [simpl; intros H; contradiction|].
  rewrite rfind_cons.
  destruct (Z.eqb_spec (rfind c p) (-1)) as [E|E].
  - destruct (Ascii.eqb_spec a c) as [->|Hne]; [|intros H; contradiction].
    intros _. exists "", p. repeat split. exact E.
  - intros _. destruct (IH E) as (pre & s & -> & Hr & Hs).
    exists (String a pre), s. split; [reflexivity|]. split; [|assumption].
    rewrite Hr. cbn [String.length]. lia.
Qed.

Lemma substring_all (s : string) : substring 0 (String.length s) s = s.
Proof.
  induction s as [|a s IH]; [reflexivity|]. simpl. rewrite IH. reflexivity.
Qed.

Lemma substring_app_l (p s : string) :
  substring 0 (String.length p) (p ++ s) = p.
Proof.
  induction p as [|a p IH]; simpl.
  - destruct s; reflexivity.
  - rewrite IH. reflexivity.
Qed.

Lemma substring_app_r (p s : string) (n : nat) :
  substring (String.length p) n (p ++ s) = substring 0 n s.
Proof.
  induction p as [|a p IH]; [reflexivity|]. simpl. exact IH.
Qed.

Lemma slice_from_app (p s : string) : slice_from (String.length p) (p ++ s) = s.
Proof.
  unfold slice_from. rewrite substring_app_r, append_length.
  replace (String.length p + String.length s - String.length p)
    with (String.length s) by lia.
  apply substring_all.
Qed.

Lemma rfind_substring (c : ascii) (s : string) (n : nat) :
  rfind c s = (-1)%Z -> rfind c (substring 0 n s) = (-1)%Z.
Proof.
  revert n. induction s as [|a s IH]; intros n H.
  - destruct n; reflexivity.
  - destruct n as [|n]; [reflexivity|].
    rewrite rfind_cons in H. cbn [substring]. rewrite rfind_cons.
    destruct (Z.eqb_spec (rfind c s) (-1)) as [E|E].
    + rewrite (IH n E). simpl. exact H.
    + pose proof (rfind_bounds c s). lia.
Qed.

(** The last component of a path. *)
Lemma basename_spec (p : string) :
  rfind "/" (basename p) = (-1)%Z
  /\ (rfind "/" p = (-1)%Z -> basename p = p)
  /\ forall dir name, p = (dir ++ "/" ++ name)%string ->
       rfind "/" name = (-1)%Z -> basename p = name.
Proof.
  assert (Hlast : forall dir name, rfind "/" name = (-1)%Z ->
            basename (dir ++ "/" ++ name) = name).
  { intros dir name Hn. unfold basename. cbv zeta.
    change (dir ++ "/" ++ name)%string with (dir ++ String "/" name)%string.
    rewrite (rfind_last _ dir _ Hn).
    replace (Z.to_nat (Z.of_nat (String.length dir) + 1))
      with (String.length (dir ++ "/")) by (rewrite append_length; simpl; lia).
    replace (dir ++ String "/" name)%string with ((dir ++ "/") ++ name)%string
      by (rewrite append_assoc; reflexivity).
    apply slice_from_app. }
  assert (Hnone : rfind "/" p = (-1)%Z -> basename p = p).
  { intros H. unfold basename, slice_from. cbv zeta. rewrite H.
    simpl Z.to_nat. rewrite Nat.sub_0_r. apply substring_all. }
  split; [|split; [exact Hnone | intros dir name -> Hn; apply Hlast; exact Hn]].
  destruct (Z.eq_dec (rfind "/" p) (-1)) as [E|E].
  - rewrite (Hnone E). exact E.
  - destruct (rfind_split _ _ E) as (pre & s & -> & _ & Hs).
    change (pre ++ String "/" s)%string with (pre ++ "/" ++ s)%string.
    rewrite (Hlast pre s Hs). exact Hs.
Qed.

Lemma name_before_dot_spec (pre stem rest : string) :
  name_before_dot (pre ++ stem ++ rest) (String.length pre) (String.length stem)
  = has_name stem.
Proof.
  revert pre. induction stem as [|a stem IH]; intros pre; [reflexivity|].
  cbn [String.length name_before_dot].
  rewrite substring_app_r. cbn [String.append substring].
  assert (E : substring 0 0 (stem ++ rest) = "") by (destruct (stem ++ rest)%string; reflexivity).
  rewrite E. unfold has_name. cbn [list_ascii_of_string existsb].
  assert (Ea : (String a "" =? ".")%string = Ascii.eqb a ".").
  { simpl. destruct (Ascii.eqb a "."); reflexivity. }
  rewrite Ea. destruct (Ascii.eqb a ".") eqn:Edot; cbn [negb orb]; [|reflexivity].
  specialize (IH (pre ++ String a "")%string).
  rewrite append_length in IH. cbn [String.length] in IH.
  replace (String.length pre + 1) with (S (String.length pre)) in IH by lia.
  rewrite append_assoc in IH. exact IH.
Qed.

(** The extension of a name without separator. *)
Lemma splitext_spec (stem ext : string) :
  rfind "/" stem = (-1)%Z -> rfind "/" ext = (-1)%Z -> rfind "." ext = (-1)%Z ->
  has_name stem = true ->
  splitext (stem ++ "." ++ ext) = (stem, ("." ++ ext)%string).
Proof.
  intros Hs He Hd Hname. unfold splitext. cbv zeta.
  assert (Hsep : rfind "/" (stem ++ "." ++ ext) = (-1)%Z).
  { rewrite rfind_app_absent; [exact Hs|].
    cbn [String.append]. rewrite rfind_cons, He. reflexivity. }
  assert (Hdot : rfind "." (stem ++ "." ++ ext) = Z.of_nat (String.length stem)).
  { apply (rfind_last _ stem _ Hd). }
  rewrite Hsep, Hdot. simpl (Z.to_nat (-1 + 1)).
  rewrite Nat2Z.id, Nat.sub_0_r.
  assert (Hlt : (-1 <? Z.of_nat (String.length stem))%Z = true) by (apply Z.ltb_lt; lia).
  rewrite Hlt.
  pose proof (name_before_dot_spec "" stem ("." ++ ext)) as Hn.
  cbn [String.append String.length] in Hn. cbn [String.append]. rewrite Hn, Hname. cbn [andb].
  unfold slice_to. f_equal.
  - apply substring_app_l.
  - apply (slice_from_app stem (String "." ext)).
Qed.

Lemma splitext_no_dot (name : string) :
  rfind "." name = (-1)%Z -> splitext name = (name, "").
Proof.
  intros H. unfold splitext. cbv zeta. rewrite H.
  pose proof (rfind_bounds "/" name).
  assert (E : (rfind "/" name <? -1)%Z = false) by (apply Z.ltb_ge; lia).
  rewrite E. reflexivity.
Qed.

Lemma get_vcf_filename_of_base (p base : string) :
  basename p = base -> get_vcf_filename p = fst (splitext base).
Proof. intros <-. reflexivity. Qed.

Lemma get_vcf_filename_stem_eq (dir stem ext : string) :
  occurs "/" stem = false -> occurs "/" ext = false -> occurs "." ext = false ->
  has_name stem = true ->
  get_vcf_filename (dir ++ "/" ++ stem ++ "." ++ ext) = stem
  /\ get_vcf_filename (stem ++ "." ++ ext) = stem.
Proof.
  intros Hs He Hd Hname.
  apply rfind_absent in Hs. apply rfind_absent in He. apply rfind_absent in Hd.
  assert (Hbase : rfind "/" (stem ++ "." ++ ext) = (-1)%Z).
  { rewrite rfind_app_absent; [exact Hs|].
    cbn [String.append]. rewrite rfind_cons, He. reflexivity. }
  destruct (basename_spec (dir ++ "/" ++ stem ++ "." ++ ext)) as (_ & _ & H1).
  destruct (basename_spec (stem ++ "." ++ ext)) as (_ & H2 & _).
  split.
  - rewrite (get_vcf_filename_of_base _ (H1 dir _ eq_refl Hbase)).
    rewrite splitext_spec by assumption. reflexivity.
  - rewrite (get_vcf_filename_of_base _ (H2 Hbase)).
    rewrite splitext_spec by assumption. reflexivity.
Qed.

(** X12.  The name that [get_vcf_filename] returns for a file in a
    directory, or alone: the last component of the path without its last
    extension.  The directories are dropped, and of several extensions only
    the last one is. *)
Theorem get_vcf_filename_stem (dir stem ext : string) :
  occurs "/" stem = false -> occurs "/" ext = false -> occurs "." ext = false ->
  has_name stem = true ->
  get_vcf_filename (dir ++ "/" ++ stem ++ "." ++ ext) = stem
  /\ get_vcf_filename (stem ++ "." ++ ext) = stem.
Proof. apply get_vcf_filename_stem_eq. Qed.

Lemma get_vcf_filename_stem_witness :
  get_vcf_filename ("data/run1" ++ "/" ++ "sample.vcf" ++ "." ++ "gz") = "sample.vcf"
  /\ get_vcf_filename ("sample.vcf" ++ "." ++ "gz") = "sample.vcf".
Proof.
  apply (@get_vcf_filename_stem "data/run1" "sample.vcf" "gz"); reflexivity.
Defined.

(** X13.  A last component without dot is returned as it is. *)
Theorem get_vcf_filename_no_extension (dir name : string) :
  occurs "/" name = false -> occurs "." name = false ->
  get_vcf_filename (dir ++ "/" ++ name) = name
  /\ get_vcf_filename name = name.
Proof.
  intros Hs Hd. apply rfind_absent in Hs. apply rfind_absent in Hd.
  destruct (basename_spec (dir ++ "/" ++ name)) as (_ & _ & H1).
  destruct (basename_spec name) as (_ & H2 & _).
  split.
  - rewrite (get_vcf_filename_of_base _ (H1 dir _ eq_refl Hs)).
    rewrite splitext_no_dot by assumption. reflexivity.
  - rewrite (get_vcf_filename_of_base _ (H2 Hs)).
    rewrite splitext_no_dot by assumption. reflexivity.
Qed.

Lemma get_vcf_filename_no_extension_witness :
  get_vcf_filename ("data.v2" ++ "/" ++ "sample") = "sample"
  /\ get_vcf_filename "sample" = "sample".
Proof.
  apply (@get_vcf_filename_no_extension "data.v2" "sample"); reflexivity.
Defined.

(** X14.  The name that [get_vcf_filename] returns never holds a path
    separator, whatever the path: the annotated file is always written
    directly in the output folder. *)
Theorem get_vcf_filename_no_separator (file_path : string) :
  occurs "/" (get_vcf_filename file_path) = false.
Proof.
  apply rfind_absent. unfold get_vcf_filename. cbv zeta.
  destruct (basename_spec file_path) as (Hb & _ & _).
  unfold splitext. cbv zeta.
  destruct (_ && _); cbn [fst]; [|exact Hb].
  unfold slice_to. apply rfind_substring. exact Hb.
Qed.

(** X15.  The file that the program writes for an input file: it is named
    after the last component of the path of the input, without the
    directories of the input, so that inputs of the same name in different
    directories are written to the same file. *)
Theorem run_output_path (exac : list cell -> result pyobj) (df : DataFrame cell)
  (dir stem ext : string) (f : csv_file) :
  occurs "/" stem = false -> occurs "/" ext = false -> occurs "." ext = false ->
  has_name stem = true ->
  run exac (get_vcf_filename (dir ++ "/" ++ stem ++ "." ++ ext)) df = Ok f ->
  path f = annotated_path stem /\ delimiter f = tab.
Proof.
  intros Hs He Hd Hname Hrun.
  destruct (@get_vcf_filename_stem_eq dir stem ext Hs He Hd Hname) as [Hname_eq _].
  rewrite Hname_eq in Hrun.
  unfold run in Hrun.
  destruct (subset_vcf df) as [df1|e]; [|discriminate Hrun]. cbn [bind] in Hrun.
  destruct (get_exac_data exac df1) as [df2|e]; [|discriminate Hrun].
  cbn [bind] in Hrun. unfold write_output in Hrun. cbv zeta in Hrun.
  destruct (getitem_list df2 _) as [df3|e]; [|discriminate Hrun].
  injection Hrun as <-. split; reflexivity.
Qed.

Lemma run_output_path_witness :
  path scenario_file = annotated_path "sample" /\ delimiter scenario_file = tab.
Proof.
  apply (@run_output_path scenario_exac scenario "data" "sample" "vcf" scenario_file).
  - reflexivity.
  - reflexivity.
  - reflexivity.
  - reflexivity.
  - reflexivity.
Defined.

(** ** The merge, for any answer *)

Lemma filter_andb {A : Type} (f g : A -> bool) (l : list A) :
  filter (fun x => f x && g x) l = filter f (filter g l).
Proof.
  induction l as [|x l IH]; [reflexivity|]. simpl.
  destruct (g x); simpl; [|rewrite andb_false_r; exact IH].
  rewrite andb_true_r. destruct (f x); rewrite IH; reflexivity.
Qed.

Lemma filter_none_in {A : Type} (f : A -> bool) (l : list A) :
  (forall x, In x l -> f x = false) -> filter f l = [].
Proof.
  induction l as [|x l IH]; intros H; [reflexivity|]. simpl.
  rewrite (H x (or_introl eq_refl)). apply IH. intros; apply H; right; assumption.
Qed.

Lemma flat_map_nil {A B : Type} (l : list A) :
  flat_map (fun _ : A => @nil B) l = [].
Proof. induction l; [reflexivity | assumption]. Qed.

Section MergeAny.

Variables (exac : list cell -> result pyobj) (df : DataFrame cell)
          (d : list (string * pyobj)).

Local Abbreviation kf := (cprv_of "#CHROM" "POS" "REF" "ALT").
Local Abbreviation freq_col := "ALLELE_FREQUENCY(ExAC)".

Hypothesis wf : wf_frame df.
Hypothesis has_chrom : In "#CHROM" (columns df).
Hypothesis has_pos : In "POS" (columns df).
Hypothesis has_ref : In "REF" (columns df).
Hypothesis has_alt : In "ALT" (columns df).
Hypothesis no_cprv : ~ In "CPRV" (columns df).
Hypothesis no_freq : ~ In freq_col (columns df).
Hypothesis chrom_str :
  forall r, In r (rows df) -> exists c, loc r "#CHROM" = Ok (CStr c).
Hypothesis answer : exac (map (fun r => CStr (kf r)) (rows df)) = Ok (PDict d).
Hypothesis keys_distinct : NoDup (dict_keys d).
Hypothesis entries_objects :
  forall k item, In (k, item) d -> exists fields, item = PDict fields.

Lemma get_exac_data_rows_any :
  get_exac_data exac df
  = Ok (mkDataFrame (columns df ++ [freq_col])
          (flat_map (fun k =>
             map (annotated d)
                 (filter (fun r => key_eqb k (key_of (kf r)) && answered_row d r)
                         (rows df)))
             (unique (map key_of (map kf (rows df)))))).
Proof.
  unfold get_exac_data.
  rewrite build_cprv_col_rows; try assumption; try discriminate.
  cbn [bind].
  assert (E : existsb (String.eqb "CPRV") (columns df) = false)
    by (apply (mem_false "CPRV" (columns df)); exact no_cprv).
  rewrite E.
  unfold call_exac_server.
  rewrite getitem_value.
  2: { cbn [columns]. apply in_or_app. right; left; reflexivity. }
  2: { cbn [rows]. intros r' Hr'. apply in_map_iff in Hr'.
       destruct Hr' as (r & <- & _). apply In_labels_set_item. left; reflexivity. }
  cbn [rows bind]. rewrite map_map.
  rewrite (map_ext _ (fun r => CStr (kf r)))
    by (intros; apply value_set_item_same).
  rewrite answer. cbn [bind].
  unfold get_allele_freqs. rewrite get_allele_freqs_loop.
  2: { intros item Hitem. unfold dict_values in Hitem. apply in_map_iff in Hitem.
       destruct Hitem as ([k x] & <- & Hin). apply (entries_objects k x Hin). }
  cbn [bind app]. unfold get_cprv, frame_of_lists, dict_values, dict_keys.
  cbn [bind]. rewrite !map_map, !length_map, Nat.eqb_refl. cbn [bind].
  rewrite combine_map_same, map_map. cbn [fst snd].
  set (L := fun r : Series cell =>
              map (fun p => (fst p, PScalar (snd p)))
                  (set_item r "CPRV" (CStr (kf r)))).
  set (G := fun x : string * pyobj =>
              [(freq_col, match subscript (snd x) "allele_freq" with
                          | Ok v => v
                          | Err _ => PScalar nan
                          end);
               ("CPRV", PScalar (CStr (fst x)))]).
  assert (Hmerge :
    merge (objects (mkDataFrame (columns df ++ ["CPRV"])
                      (map (fun r => set_item r "CPRV" (CStr (kf r))) (rows df))))
          (mkDataFrame [freq_col; "CPRV"] (map G d)) "CPRV"
    = Ok (mkDataFrame ((columns df ++ ["CPRV"]) ++ [freq_col])
            (flat_map (fun k =>
               map (fun r => L r ++ [(freq_col, frequency d (kf r))])
                   (filter (fun r => key_eqb k (key_of (kf r)) && answered_row d r)
                           (rows df)))
               (unique (map (fun r => key_of (kf r)) (rows df)))))).
  { unfold merge, objects. cbn [columns rows]. rewrite map_map. fold L.
    rewrite (@getitem_total _ (PScalar CNone)).
    2: { cbn [columns]. apply in_or_app. right; left; reflexivity. }
    2: { cbn [rows]. intros r' Hr'. apply in_map_iff in Hr'.
         destruct Hr' as (r & <- & _). unfold L, labels. rewrite map_map. cbn [fst].
         apply (In_labels_set_item r "CPRV" "CPRV"). left; reflexivity. }
    cbn [bind rows columns].
    rewrite (@getitem_total _ (PScalar CNone)).
    2: { cbn [columns]. right; left; reflexivity. }
    2: { cbn [rows]. intros r' Hr'. apply in_map_iff in Hr'.
         destruct Hr' as (x & <- & _). right; left; reflexivity. }
    cbn [bind rows columns]. rewrite !map_map.
    rewrite (map_ext (fun r => match loc (L r) "CPRV" with
                               | Ok v => v
                               | Err _ => PScalar CNone
                               end) (fun r => key_of (kf r)))
      by (intros r; unfold L; rewrite loc_map_snd, loc_set_item_same; reflexivity).
    rewrite (map_ext (fun x => match loc (G x) "CPRV" with
                               | Ok v => v
                               | Err _ => PScalar CNone
                               end) (fun x => key_of (fst x)))
      by reflexivity.
    rewrite !combine_map_same.
    assert (Hl : forall c, In c (columns df ++ ["CPRV"]) ->
              suffixed "CPRV" "_x" [freq_col; "CPRV"] c = c).
    { intros c Hc. unfold suffixed.
      destruct (String.eqb_spec c "CPRV") as [->|Hne]; [reflexivity|].
      cbn [negb andb existsb].
      destruct (String.eqb_spec c freq_col) as [->|_].
      - exfalso. apply in_app_or in Hc. destruct Hc as [Hc|[Hc|[]]];
          [apply no_freq; exact Hc | discriminate Hc].
      - destruct (String.eqb_spec c "CPRV"); [contradiction | reflexivity]. }
    assert (Hr : suffixed "CPRV" "_y" (columns df ++ ["CPRV"]) freq_col = freq_col).
    { unfold suffixed.
      assert (Hm : existsb (String.eqb freq_col) (columns df ++ ["CPRV"]) = false).
      { apply (mem_false freq_col (columns df ++ ["CPRV"])).
        intros Hc. apply in_app_or in Hc. destruct Hc as [Hc|[Hc|[]]];
          [apply no_freq; exact Hc | discriminate Hc]. }
      rewrite Hm, andb_false_r. reflexivity. }
    f_equal. f_equal.
    - rewrite (map_ext_in _ (fun c => c) _ Hl), map_id.
      cbn [filter String.eqb Ascii.eqb Bool.eqb negb map]. rewrite Hr. reflexivity.
    - apply flat_map_ext_in. intros k Hk.
      rewrite <- (map_map kf key_of) in Hk. apply In_unique_keys in Hk.
      apply in_map_iff in Hk. destruct Hk as (s & <- & Hs).
      apply in_map_iff in Hs. destruct Hs as (r0 & <- & Hr0).
      rewrite !filter_map_comm, !map_map. cbn [fst snd].
      destruct (in_dec string_dec (kf r0) (dict_keys d)) as [Hd|Hd].
      + unfold dict_keys in Hd.
        apply in_map_iff in Hd. destruct Hd as ([s item] & Es & Hitem).
        cbn [fst] in Es. subst s.
        rewrite (@filter_key d _ item keys_distinct Hitem).
        cbn [map]. rewrite flat_map_singleton, map_map.
        rewrite (filter_ext_in
                   (fun r => key_eqb (key_of (kf r0)) (key_of (kf r)) && answered_row d r)
                   (fun r => key_eqb (key_of (kf r0)) (key_of (kf r)))).
        2: { intros r _. destruct (key_eqb (key_of (kf r0)) (key_of (kf r))) eqn:Ek;
               [|reflexivity].
             rewrite key_eqb_key_of in Ek. apply String.eqb_eq in Ek.
             unfold answered_row. rewrite <- Ek.
             apply (mem_In (kf r0) (dict_keys d)).
             apply (in_map fst) in Hitem. exact Hitem. }
        apply map_ext_in. intros r Hin. apply filter_In in Hin.
        destruct Hin as [Hin Hkey]. rewrite key_eqb_key_of in Hkey.
        apply String.eqb_eq in Hkey.
        f_equal.
        * rewrite <- (map_id (L r)) at 2. apply map_ext_in. intros [c v] Hcv.
          cbn [fst snd]. rewrite Hl; [reflexivity|].
          apply (in_map fst) in Hcv. cbn [fst] in Hcv.
          unfold L in Hcv. rewrite map_map in Hcv. cbn [fst] in Hcv.
          apply (In_labels_set_item r "CPRV" c) in Hcv.
          destruct Hcv as [->|Hc]; [apply in_or_app; right; left; reflexivity|].
          unfold wf_frame in wf. rewrite Forall_forall in wf.
          rewrite (wf r Hin) in Hc. apply in_or_app. left; exact Hc.
        * unfold G. cbn [filter fst snd String.eqb Ascii.eqb Bool.eqb negb map].
          rewrite Hr. rewrite <- Hkey.
          rewrite (@frequency_found d _ item keys_distinct Hitem). reflexivity.
      + rewrite (@filter_none_in _ (fun a => key_eqb (key_of (kf r0)) (key_of (fst a))) d).
        2: { intros [s item] Hin. cbn [fst]. rewrite key_eqb_key_of.
             destruct (String.eqb_spec (kf r0) s) as [Es|_]; [|reflexivity].
             exfalso. apply Hd. rewrite Es. apply (in_map fst) in Hin. exact Hin. }
        cbn [map]. rewrite flat_map_nil.
        rewrite (@filter_none_in _
                   (fun r => key_eqb (key_of (kf r0)) (key_of (kf r)) && answered_row d r));
          [reflexivity|].
        intros r _. destruct (key_eqb (key_of (kf r0)) (key_of (kf r))) eqn:Ek;
          [|reflexivity].
        rewrite key_eqb_key_of in Ek. apply String.eqb_eq in Ek.
        unfold answered_row. rewrite <- Ek.
        apply (mem_false (kf r0) (dict_keys d)). exact Hd. }
  rewrite Hmerge. cbn [bind]. unfold drop. cbn [columns rows mapM].
  assert (Hin : existsb (String.eqb "CPRV")
                  ((columns df ++ ["CPRV"]) ++ [freq_col]) = true).
  { apply (mem_In "CPRV" ((columns df ++ ["CPRV"]) ++ [freq_col])).
    apply in_or_app. left. apply in_or_app. right; left; reflexivity. }
  rewrite Hin. cbn [bind].
  assert (Hkeep : forall c, In c (columns df) ->
            negb (existsb (String.eqb c) ["CPRV"]) = true).
  { intros c Hc. cbn [existsb].
    destruct (String.eqb_spec c "CPRV") as [->|_]; [contradiction | reflexivity]. }
  f_equal. f_equal.
  - rewrite !filter_app. rewrite (filter_all _ _ Hkeep).
    simpl. rewrite List.app_nil_r. reflexivity.
  - rewrite <- flat_map_map_out. apply flat_map_ext_in. intros k _.
    rewrite map_map. apply map_ext_in. intros r Hr. apply filter_In in Hr.
    destruct Hr as [Hr _].
    assert (Hlab : labels r = columns df).
    { unfold wf_frame in wf. rewrite Forall_forall in wf. apply wf; assumption. }
    unfold L, annotated. rewrite set_item_absent by (rewrite Hlab; exact no_cprv).
    rewrite map_app, !filter_app. cbn [map fst snd].
    rewrite filter_all.
    + simpl. rewrite List.app_nil_r. reflexivity.
    + intros [c v] Hcv. cbn [fst]. apply Hkeep. rewrite <- Hlab.
      apply in_map_iff in Hcv. destruct Hcv as ([c' v'] & Ecv & Hcv).
      injection Ecv as <- _. apply (in_map fst) in Hcv. exact Hcv.
Qed.

(** The merge keeps the rows whose key is answered, and only them. *)
Lemma get_exac_data_permutation_any :
  exists out,
    get_exac_data exac df = Ok out /\
    columns out = columns df ++ [freq_col] /\
    Permutation (rows out)
                (map (annotated d) (filter (answered_row d) (rows df))).
Proof.
  eexists. split; [apply get_exac_data_rows_any|]. split; [reflexivity|].
  cbn [rows]. rewrite flat_map_map_out. apply Permutation_map.
  rewrite (flat_map_ext_in _
             (fun k => filter (fun r => key_eqb k (key_of (kf r)))
                              (filter (answered_row d) (rows df))))
    by (intros k _; apply filter_andb).
  apply group_perm. intros r Hr. apply filter_In in Hr. destruct Hr as [Hr _].
  assert (Hk : In (key_of (kf r)) (unique (map key_of (map kf (rows df))))).
  { apply In_unique_keys. apply in_map. apply in_map. exact Hr. }
  destruct (@In_split_unique _ _ (key_of (kf r))
              (NoDup_unique_keys (map kf (rows df))) Hk)
    as (U1 & U2 & EU & Hnot).
  exists U1, (key_of (kf r)), U2. split; [exact EU|]. split.
  - rewrite key_eqb_key_of. apply String.eqb_refl.
  - intros v Hv. destruct (key_eqb v (key_of (kf r))) eqn:Ev; [|reflexivity].
    exfalso. apply Hnot.
    assert (Hvin : In v (unique (map key_of (map kf (rows df))))).
    { rewrite EU. apply in_app_or in Hv. apply in_or_app.
      destruct Hv; [left | right; right]; assumption. }
    apply In_unique_keys in Hvin. apply in_map_iff in Hvin.
    destruct Hvin as (s & <- & _). rewrite key_eqb_key_of in Ev.
    apply String.eqb_eq in Ev. subst s. exact Hv.
Qed.

End MergeAny.

(** X16.  For any answer of the service that is an object with at least one
    entry, all entries being objects, [get_exac_data] returns the rows whose key has an entry in
    the answer, each once and completed with its frequency, gathered by
    key; a row whose key has no entry is left out, and no exception is
    raised for it.  The number of rows returned is the number of rows with
    an answered key. *)
Theorem get_exac_data_keeps_answered (exac : list cell -> result pyobj)
  (df : DataFrame cell) (d : list (string * pyobj)) :
  wf_frame df ->
  In "#CHROM" (columns df) -> In "POS" (columns df) ->
  In "REF" (columns df) -> In "ALT" (columns df) ->
  ~ In "CPRV" (columns df) -> ~ In "ALLELE_FREQUENCY(ExAC)" (columns df) ->
  (forall r, In r (rows df) -> exists c, loc r "#CHROM" = Ok (CStr c)) ->
  exac (map (fun r => CStr (cprv_of "#CHROM" "POS" "REF" "ALT" r)) (rows df))
  = Ok (PDict d) ->
  d <> [] -> NoDup (dict_keys d) ->
  (forall k item, In (k, item) d -> exists fields, item = PDict fields) ->
  exists out,
    get_exac_data exac df = Ok out /\
    columns out = columns df ++ ["ALLELE_FREQUENCY(ExAC)"] /\
    Permutation (rows out) (map (annotated d) (filter (answered_row d) (rows df))) /\
    length (rows out) = length (filter (answered_row d) (rows df)).
Proof.
  intros Hwf H1 H2 H3 H4 H5 H6 H7 H8 _ H9 H10.
  destruct (@get_exac_data_permutation_any exac df d Hwf H1 H2 H3 H4 H5 H6 H7 H8 H9 H10)
    as (out & Hout & Hcols & Hperm).
  exists out. repeat split; try assumption.
  rewrite (Permutation_length Hperm). apply length_map.
Qed.

Lemma get_exac_data_keeps_answered_witness :
  exists out,
    get_exac_data partial_exac expanded = Ok out /\
    columns out = columns expanded ++ ["ALLELE_FREQUENCY(ExAC)"] /\
    Permutation (rows out)
      (map (annotated [("1-100-A-T", PDict [("allele_freq", PScalar (CFloat "0.25"))])])
           (filter (answered_row
                      [("1-100-A-T", PDict [("allele_freq", PScalar (CFloat "0.25"))])])
                   (rows expanded))) /\
    length (rows out)
    = length (filter (answered_row
                        [("1-100-A-T", PDict [("allele_freq", PScalar (CFloat "0.25"))])])
                     (rows expanded)).
Proof.
  apply (@get_exac_data_keeps_answered partial_exac expanded
           [("1-100-A-T", PDict [("allele_freq", PScalar (CFloat "0.25"))])]).
  - repeat constructor.
  - simpl; intuition.
  - simpl; intuition.
  - simpl; intuition.
  - simpl; intuition.
  - simpl; intuition discriminate.
  - simpl; intuition discriminate.
  - intros r [<-|[<-|[]]]; eexists; reflexivity.
  - reflexivity.
  - discriminate.
  - distinct.
  - intros k item [H|[]]; injection H as <- <-; eexists; reflexivity.
Defined.

(** ** [subset_vcf] *)

(** X17.  [subset_vcf] needs the keys DP, AO, AF and TYPE among the keys of
    the INFO cell of the first row: when the decoded table lacks one of
    them, the selection raises the [KeyError] of a missing key. *)
Theorem subset_vcf_missing_key (df info : DataFrame cell) :
  convert_col_to_df df "INFO" "=" ";" = Ok info ->
  (exists k, In k ["DP"; "AO"; "AF"; "TYPE"] /\ ~ In k (columns info)) ->
  exists k, In k ["DP"; "AO"; "AF"; "TYPE"] /\ ~ In k (columns info)
            /\ subset_vcf df = Err (KeyError k).
Proof.
  intros Hconv Hmiss.
  destruct (pick_missing (columns info) ["DP"; "AO"; "AF"; "TYPE"] Hmiss)
    as (k & Hk & Hnot & Hpick).
  exists k. split; [assumption|]. split; [assumption|].
  unfold subset_vcf. rewrite Hconv. cbn [bind]. unfold getitem_list.
  rewrite Hpick. reflexivity.
Qed.

Lemma subset_vcf_missing_key_witness :
  exists k, In k ["DP"; "AO"; "AF"; "TYPE"]
            /\ ~ In k ["DP"; "AF"; "TYPE"]
            /\ subset_vcf no_AO = Err (KeyError k).
Proof.
  apply (@subset_vcf_missing_key no_AO
           (mkDataFrame ["DP"; "AF"; "TYPE"]
              [[("DP", CStr "50"); ("AF", CStr "0.4"); ("TYPE", CStr "snp")]])).
  - reflexivity.
  - exists "AO". split; simpl; intuition discriminate.
Defined.

Lemma getitem_list_select (df : DataFrame cell) (ls : list string) :
  NoDup (columns df) -> wf_frame df ->
  (forall l, In l ls -> In l (columns df)) ->
  getitem_list df ls
  = Ok (mkDataFrame ls (map (fun r => map (fun l => (l, value r l)) ls) (rows df))).
Proof.
  intros Hnd Hwf Hls. unfold getitem_list.
  rewrite (@pick_unique _ (fun c => c) (columns df) ls (fun l => l)).
  2: { rewrite map_id. exact Hnd. }
  2: { intros l Hl. split; [apply Hls; assumption | reflexivity]. }
  cbn [bind]. rewrite map_id.
  rewrite (@mapM_map _ _ _ (fun r => map (fun l => (l, value r l)) ls)).
  - reflexivity.
  - intros r Hr. unfold wf_frame in Hwf. rewrite Forall_forall in Hwf.
    specialize (Hwf r Hr). apply pick_unique.
    + fold (labels r). rewrite Hwf. exact Hnd.
    + intros l Hl. split; [|reflexivity].
      destruct (@loc_labelled _ l r) as (v & Hv); [rewrite Hwf; apply Hls; assumption|].
      unfold value. rewrite Hv. apply loc_found. exact Hv.
Qed.

Lemma join_rows_map {A B : Type} (fill : B) (cs : list string)
  (f g : A -> Series B) (l : list A) :
  join_rows fill cs (map f l) (map g l) = map (fun a => f a ++ g a) l.
Proof.
  induction l as [|a l IH]; [reflexivity|]. simpl. rewrite IH. reflexivity.
Qed.

Lemma loc_combine {A : Type} (ks : list string) (vs : list A) (k : string) :
  In k ks -> length ks = length vs ->
  exists v, loc (combine ks vs) k = Ok v /\ In v vs.
Proof.
  intros Hk Hlen.
  destruct (@loc_labelled _ k (combine ks vs)) as (v & Hv).
  { unfold labels. rewrite map_fst_combine by assumption. exact Hk. }
  exists v. split; [assumption|].
  apply loc_found in Hv. apply in_combine_r in Hv. exact Hv.
Qed.

(** The values of a packed cell that lists the keys of the header. *)
Lemma decoded_row_spec (header : list string) (x : cell) :
  lists_keys "=" ";" header x = true ->
  labels (decoded_row "=" ";" header x) = header
  /\ forall k, In k header ->
       exists s, loc (decoded_row "=" ";" header x) k = Ok (CStr s).
Proof.
  intros H. unfold lists_keys in H. apply andb_true_iff in H. destruct H as [_ Hl].
  assert (Hkv : "=" <> "") by discriminate.
  destruct (@lists_spec "=" header (elements ";" x) Hkv Hl) as (Hlen & _ & Hocc & _).
  assert (Hlen' : length header
                  = length (map (value_part "=") (map CStr (elements ";" x)))).
  { rewrite !length_map. symmetry. exact Hlen. }
  split.
  - unfold decoded_row, labels. apply map_fst_combine. exact Hlen'.
  - intros k Hk. destruct (@loc_combine _ header _ k Hk Hlen') as (v & Hv & Hin).
    unfold decoded_row. rewrite Hv.
    rewrite map_map in Hin. apply in_map_iff in Hin. destruct Hin as (e & <- & He).
    rewrite Forall_forall in Hocc. specialize (Hocc e He).
    apply (split_from_second e "" Hkv) in Hocc. destruct Hocc as (a & b & l & Hs).
    unfold value_part. rewrite Hs. exists b. reflexivity.
Qed.

Section Subset.

Variables (df : DataFrame cell) (header : list string).

Hypothesis columns_distinct : NoDup (columns df).
Hypothesis wf : wf_frame df.
Hypothesis has_rows : rows df <> [].
Hypothesis has_columns :
  forall c, In c ["#CHROM"; "POS"; "REF"; "ALT"; "INFO"] -> In c (columns df).
Hypothesis header_distinct : NoDup header.
Hypothesis has_keys : forall k, In k ["DP"; "AO"; "AF"; "TYPE"] -> In k header.
Hypothesis packed_rows :
  forall r, In r (rows df) -> lists_keys "=" ";" header (value r "INFO") = true.
Hypothesis alt_str :
  forall r, In r (rows df) -> exists s, loc r "ALT" = Ok (CStr s).

Lemma subset_vcf_joined :
  subset_vcf df
  = expand_df (mkDataFrame ["#CHROM"; "POS"; "REF"; "ALT"; "DP"; "AO"; "AF"; "TYPE"]
                 (map (joined_row header) (rows df)))
              ["TYPE"; "ALT"; "AF"] ",".
Proof.
  unfold subset_vcf.
  assert (Hlab : forall c, In c (columns df) ->
            forall r, In r (rows df) -> In c (labels r)).
  { intros c Hc r Hr. unfold wf_frame in wf. rewrite Forall_forall in wf.
    rewrite (wf r Hr). exact Hc. }
  assert (Hinfo : In "INFO" (columns df)) by (apply has_columns; simpl; intuition).
  assert (Hget : getitem df "INFO" = Ok (map (fun r => value r "INFO") (rows df))).
  { apply getitem_value; [assumption | apply Hlab; assumption]. }
  rewrite (@convert_col_to_df_lists "=" ";"%char df "INFO"
             (map (fun r => value r "INFO") (rows df)) header).
  2: discriminate.
  2: { destruct (rows df); [contradiction | discriminate]. }
  2: exact Hget.
  2: { apply forallb_forall. intros x Hx. apply in_map_iff in Hx.
       destruct Hx as (r & <- & Hr). apply packed_rows. exact Hr. }
  cbn [bind]. rewrite map_map.
  rewrite getitem_list_select.
  2: exact header_distinct.
  2: { unfold wf_frame. cbn [rows columns]. apply Forall_forall. intros w Hw.
       apply in_map_iff in Hw. destruct Hw as (r & <- & Hr).
       apply (decoded_row_spec _ _ (@packed_rows r Hr)). }
  2: { cbn [columns]. exact has_keys. }
  cbn [bind rows]. rewrite map_map.
  rewrite getitem_list_select; try assumption.
  2: { intros c Hc. apply has_columns. simpl in *. intuition. }
  cbn [bind]. unfold join. cbn [columns rows existsb].
  cbn [String.eqb Ascii.eqb Bool.eqb orb]. cbn [bind].
  f_equal. f_equal.
  apply (join_rows_map nan ["DP"; "AO"; "AF"; "TYPE"]).
Qed.

Lemma joined_row_splittable (r : Series cell) :
  In r (rows df) -> splittable ["TYPE"; "ALT"; "AF"] (joined_row header r).
Proof.
  intros Hr c Hc.
  destruct (decoded_row_spec _ _ (@packed_rows r Hr)) as [_ Hval].
  assert (Hinfo : forall k, In k ["DP"; "AO"; "AF"; "TYPE"] ->
            exists s, info_value header r k = CStr s).
  { intros k Hk. destruct (Hval k (@has_keys k Hk)) as (s & Hs).
    exists s. unfold info_value. unfold value at 1. rewrite Hs. reflexivity. }
  destruct Hc as [<-|[<-|[<-|[]]]].
  - destruct (Hinfo "TYPE") as (s & Hs); [simpl; intuition|].
    exists s. unfold joined_row, loc. cbn. rewrite Hs. reflexivity.
  - destruct (@alt_str r Hr) as (s & Hs).
    exists s. unfold joined_row, loc. cbn. unfold value. rewrite Hs. reflexivity.
  - destruct (Hinfo "AF") as (s & Hs); [simpl; intuition|].
    exists s. unfold joined_row, loc. cbn. rewrite Hs. reflexivity.
Qed.

Lemma subset_vcf_rows :
  exists out,
    subset_vcf df = Ok out
    /\ columns out = ["TYPE"; "ALT"; "AF"; "#CHROM"; "AO"; "DP"; "POS"; "REF"]
    /\ rows out
       = flat_map (fun r =>
           map (expanded_row (columns out) ["TYPE"; "ALT"; "AF"] ","
                             (joined_row header r))
               (seq 0 (shortest (map (pieces "," (joined_row header r))
                                     ["TYPE"; "ALT"; "AF"]))))
           (rows df).
Proof.
  rewrite subset_vcf_joined.
  destruct (@expand_df_total
              (mkDataFrame ["#CHROM"; "POS"; "REF"; "ALT"; "DP"; "AO"; "AF"; "TYPE"]
                 (map (joined_row header) (rows df)))
              ["TYPE"; "ALT"; "AF"] ",")
    as (out & Hout & Hrows & Hcols).
  - discriminate.
  - discriminate.
  - distinct.
  - cbn [columns]. distinct.
  - unfold wf_frame. cbn [rows columns]. apply Forall_forall. intros w Hw.
    apply in_map_iff in Hw. destruct Hw as (r & <- & _). reflexivity.
  - cbn [rows]. apply Forall_forall. intros w Hw.
    apply in_map_iff in Hw. destruct Hw as (r & <- & Hr).
    apply joined_row_splittable. exact Hr.
  - exists out. split; [exact Hout|]. split.
    + rewrite Hcols; [reflexivity|]. cbn [rows].
      destruct (rows df); [contradiction | discriminate].
    + rewrite Hrows. cbn [rows]. rewrite flat_map_concat_map, map_map.
      rewrite <- flat_map_concat_map. reflexivity.
Qed.

End Subset.

(** X18.  [subset_vcf] on a table with distinct columns whose INFO cells all
    list the keys of one header, DP, AO, AF and TYPE among them, and whose
    ALT cells are strings.  The table returned has the columns TYPE, ALT,
    AF, #CHROM, AO, DP, POS, REF in this order.  A row gives as many rows as
    the shortest of its lists of TYPE, ALT and AF values has elements; row
    [i] holds the [i]-th value of these three, and under #CHROM, POS, REF,
    DP and AO the text of the cell of the input row: the AO and DP values
    are copied whole to every row of a variant, AO with all its
    alternatives. *)
Theorem subset_vcf_keeps_AO_whole (df : DataFrame cell) (header : list string) :
  NoDup (columns df) -> wf_frame df -> rows df <> [] ->
  (forall c, In c ["#CHROM"; "POS"; "REF"; "ALT"; "INFO"] -> In c (columns df)) ->
  NoDup header -> (forall k, In k ["DP"; "AO"; "AF"; "TYPE"] -> In k header) ->
  (forall r, In r (rows df) -> lists_keys "=" ";" header (value r "INFO") = true) ->
  (forall r, In r (rows df) -> exists s, loc r "ALT" = Ok (CStr s)) ->
  exists out,
    subset_vcf df = Ok out
    /\ columns out = ["TYPE"; "ALT"; "AF"; "#CHROM"; "AO"; "DP"; "POS"; "REF"]
    /\ rows out
       = flat_map (fun r =>
           map (expanded_row (columns out) ["TYPE"; "ALT"; "AF"] ","
                             (joined_row header r))
               (seq 0 (shortest (map (pieces "," (joined_row header r))
                                     ["TYPE"; "ALT"; "AF"]))))
           (rows df)
    /\ forall r i,
         loc (expanded_row (columns out) ["TYPE"; "ALT"; "AF"] "," (joined_row header r) i)
             "AO"
         = Ok (CStr (py_str (info_value header r "AO")))
         /\ loc (expanded_row (columns out) ["TYPE"; "ALT"; "AF"] ","
                   (joined_row header r) i) "DP"
            = Ok (CStr (py_str (info_value header r "DP"))).
Proof.
  intros H1 H2 H3 H4 H5 H6 H7 H8.
  destruct (@subset_vcf_rows df header H1 H2 H3 H4 H5 H6 H7 H8)
    as (out & Hout & Hcols & Hrows).
  exists out. split; [assumption|]. split; [assumption|]. split; [assumption|].
  intros r i. rewrite Hcols. split; reflexivity.
Qed.

Lemma subset_vcf_keeps_AO_whole_witness :
  exists out,
    subset_vcf scenario = Ok out
    /\ columns out = ["TYPE"; "ALT"; "AF"; "#CHROM"; "AO"; "DP"; "POS"; "REF"]
    /\ rows out
       = flat_map (fun r =>
           map (expanded_row (columns out) ["TYPE"; "ALT"; "AF"] ","
                             (joined_row ["DP"; "AO"; "AF"; "TYPE"] r))
               (seq 0 (shortest (map (pieces "," (joined_row ["DP"; "AO"; "AF"; "TYPE"] r))
                                     ["TYPE"; "ALT"; "AF"]))))
           (rows scenario)
    /\ forall r i,
         loc (expanded_row (columns out) ["TYPE"; "ALT"; "AF"] ","
                (joined_row ["DP"; "AO"; "AF"; "TYPE"] r) i) "AO"
         = Ok (CStr (py_str (info_value ["DP"; "AO"; "AF"; "TYPE"] r "AO")))
         /\ loc (expanded_row (columns out) ["TYPE"; "ALT"; "AF"] ","
                   (joined_row ["DP"; "AO"; "AF"; "TYPE"] r) i) "DP"
            = Ok (CStr (py_str (info_value ["DP"; "AO"; "AF"; "TYPE"] r "DP"))).
Proof.
  apply (@subset_vcf_keeps_AO_whole scenario ["DP"; "AO"; "AF"; "TYPE"]).
  - distinct.
  - repeat constructor.
  - discriminate.
  - simpl; intuition.
  - distinct.
  - simpl; intuition.
  - intros r [<-|[]]. reflexivity.
  - intros r [<-|[]]. eexists; reflexivity.
Defined.

(** ** The whole program *)

Lemma getitem_list_ok {A : Type} (dflt : A) (df : DataFrame A) (ls : list string) :
  NoDup (columns df) -> wf_frame df ->
  (forall l, In l ls -> In l (columns df)) ->
  exists rs, getitem_list df ls = Ok (mkDataFrame ls rs)
             /\ length rs = length (rows df).
Proof.
  intros Hnd Hwf Hls.
  exists (map (fun r => map (fun l => (l, match loc r l with
                                          | Ok v => v
                                          | Err _ => dflt
                                          end)) ls) (rows df)).
  split; [|apply length_map].
  unfold getitem_list.
  rewrite (@pick_unique _ (fun c => c) (columns df) ls (fun l => l)).
  2: { rewrite map_id. exact Hnd. }
  2: { intros l Hl. split; [apply Hls; assumption | reflexivity]. }
  cbn [bind]. rewrite map_id.
  rewrite (@mapM_map _ _ _ (fun r => map (fun l => (l, match loc r l with
                                                       | Ok v => v
                                                       | Err _ => dflt
                                                       end)) ls)).
  - reflexivity.
  - intros r Hr. unfold wf_frame in Hwf. rewrite Forall_forall in Hwf.
    specialize (Hwf r Hr). apply pick_unique.
    + fold (labels r). rewrite Hwf. exact Hnd.
    + intros l Hl. split; [|reflexivity].
      destruct (@loc_labelled _ l r) as (v & Hv); [rewrite Hwf; apply Hls; assumption|].
      rewrite Hv. apply loc_found. exact Hv.
Qed.

Lemma labels_expanded_row (out_columns cols : list string) (sep : string)
  (r : Series cell) (i : nat) :
  labels (expanded_row out_columns cols sep r i) = out_columns.
Proof.
  unfold expanded_row, labels. rewrite map_map. apply map_id.
Qed.

(** X19.  The program from end to end.  On a table with distinct columns
    whose INFO cells all list the keys of one header, DP, AO, AF and TYPE
    among them, and whose ALT cells are strings, and with a service whose
    answer has an entry for every key posted, [run] hands to the writer a
    table with the nine columns of the output, for the file
    [./output/<file_name>_annotated.vcf]; the table has, for every row of
    the input, as many rows as the shortest of its lists of TYPE, ALT and AF
    values has elements. *)
Theorem run_writes_every_allele (exac : list cell -> result pyobj)
  (file_name : string) (df : DataFrame cell) (header : list string)
  (d : list (string * pyobj)) :
  NoDup (columns df) -> wf_frame df -> rows df <> [] ->
  (forall c, In c ["#CHROM"; "POS"; "REF"; "ALT"; "INFO"] -> In c (columns df)) ->
  NoDup header -> (forall k, In k ["DP"; "AO"; "AF"; "TYPE"] -> In k header) ->
  (forall r, In r (rows df) -> lists_keys "=" ";" header (value r "INFO") = true) ->
  (forall r, In r (rows df) -> exists s, loc r "ALT" = Ok (CStr s)) ->
  (forall out, subset_vcf df = Ok out ->
     exac (map (fun r => CStr (cprv_of "#CHROM" "POS" "REF" "ALT" r)) (rows out))
     = Ok (PDict d)
     /\ forall r, In r (rows out) ->
          In (cprv_of "#CHROM" "POS" "REF" "ALT" r) (dict_keys d)) ->
  NoDup (dict_keys d) ->
  (forall k item, In (k, item) d -> exists fields, item = PDict fields) ->
  exists f,
    run exac file_name df = Ok f
    /\ path f = annotated_path file_name
    /\ columns (table f) = output_columns
    /\ length (rows (table f))
       = list_sum (map (fun r => shortest (map (pieces "," (joined_row header r))
                                               ["TYPE"; "ALT"; "AF"]))
                       (rows df)).
Proof.
  intros H1 H2 H3 H4 H5 H6 H7 H8 Hexac Hkeys Hobj.
  destruct (@subset_vcf_rows df header H1 H2 H3 H4 H5 H6 H7 H8)
    as (out & Hout & Hcols & Hrows).
  destruct (Hexac out Hout) as [Hanswer Hanswered].
  assert (Hrow : forall w, In w (rows out) ->
            exists r i, w = expanded_row (columns out) ["TYPE"; "ALT"; "AF"] ","
                              (joined_row header r) i).
  { intros w Hw. rewrite Hrows in Hw. apply in_flat_map in Hw.
    destruct Hw as (r & _ & Hw). apply in_map_iff in Hw.
    destruct Hw as (i & <- & _). exists r, i. reflexivity. }
  assert (Hwf : wf_frame out).
  { unfold wf_frame. apply Forall_forall. intros w Hw.
    destruct (Hrow w Hw) as (r & i & ->). apply labels_expanded_row. }
  destruct (@get_exac_data_permutation exac out d Hwf) as (out2 & Hout2 & Hcols2 & Hperm);
    try (rewrite Hcols; simpl; intuition discriminate); try assumption.
  { intros w Hw. destruct (Hrow w Hw) as (r & i & ->). rewrite Hcols.
    eexists. reflexivity. }
  assert (Hwf2 : wf_frame out2).
  { unfold wf_frame. apply Permutation_sym in Hperm.
    apply (Permutation_Forall Hperm). apply Forall_forall. intros w Hw.
    apply in_map_iff in Hw. destruct Hw as (r & <- & Hr).
    unfold annotated, labels. rewrite map_app, map_map. cbn [map fst].
    rewrite Hcols2. f_equal.
    unfold wf_frame in Hwf. rewrite Forall_forall in Hwf. apply (Hwf r Hr). }
  destruct (@getitem_list_ok _ (PScalar CNone) out2 output_columns)
    as (rs & Hsel & Hlen); [| exact Hwf2 | |].
  { rewrite Hcols2, Hcols. distinct. }
  { intros l Hl. rewrite Hcols2, Hcols. simpl in *. intuition. }
  exists (mkCsv (annotated_path file_name) tab (mkDataFrame output_columns rs)).
  split.
  - unfold run. rewrite Hout. cbn [bind]. rewrite Hout2. cbn [bind].
    unfold write_output. cbv zeta.
    change ["#CHROM"; "POS"; "REF"; "ALT"; "TYPE"; "DP"; "AO"; "AF";
            "ALLELE_FREQUENCY(ExAC)"] with output_columns.
    rewrite Hsel. reflexivity.
  - split; [reflexivity|]. split; [reflexivity|].
    cbn [table rows]. rewrite Hlen, (Permutation_length Hperm), length_map, Hrows.
    rewrite length_flat_map. f_equal. apply map_ext. intros r.
    rewrite length_map, length_seq. reflexivity.
Qed.

Lemma run_writes_every_allele_witness :
  exists f,
    run scenario_exac "sample" scenario = Ok f
    /\ path f = annotated_path "sample"
    /\ columns (table f) = output_columns
    /\ length (rows (table f))
       = list_sum (map (fun r => shortest (map (pieces "," (joined_row
                                                 ["DP"; "AO"; "AF"; "TYPE"] r))
                                               ["TYPE"; "ALT"; "AF"]))
                       (rows scenario)).
Proof.
  apply (@run_writes_every_allele scenario_exac "sample" scenario
           ["DP"; "AO"; "AF"; "TYPE"] scenario_answer).
  - distinct.
  - repeat constructor.
  - discriminate.
  - simpl; intuition.
  - distinct.
  - simpl; intuition.
  - intros r [<-|[]]. reflexivity.
  - intros r [<-|[]]. eexists; reflexivity.
  - intros out Hout. vm_compute in Hout. injection Hout as <-.
    split; [reflexivity|]. intros r [<-|[<-|[]]]; simpl; intuition.
  - distinct.
  - intros k item [H|[H|[]]]; injection H as <- <-; eexists; reflexivity.
Defined.
